(** * The image store of containers/storage (images.go)

    A shallow embedding of [vendor/github.com/containers/storage/images.go]:
    the [Image] record, the in-memory indices of [imageStore], digest
    recomputation, loading and saving of the snapshot, and the operations of
    the store ([Create], [Delete], [updateNames], [SetBigData], [ByDigest],
    ...), followed by the properties of the specification that concern them.

    Conventions of the embedding.
    - A Go [*Image] is a location ([loc]) into [mem], the part of the Go heap
      that holds image objects; the list [images] and the three maps of the
      store hold locations, so that two indices naming one image alias it.
    - A Go [map] is a [gmap].  [for k, v := range m] visits the entries of
      [m] in an order that Go leaves unspecified: wherever the source ranges
      over a map and the order is observable, the function takes the visiting
      order as an argument, constrained by [range_of].
    - A method with an [error] result returns a [result]; a method that
      mutates the store before it fails returns the new store as well.
    - Calls into the operating system can fail; whether they do is read from
      a [Syscalls] oracle. *)

From Stdlib Require Import ZArith.
From stdpp Require Import base option list gmap strings fin_maps.

Open Scope string_scope.
Open Scope list_scope.
Open Scope nat_scope.

(** ** Errors and results *)

(** The sentinel errors that images.go wraps with [%w], plus the kinds that
    come from collaborators: a digest that fails [Validate], a failing system
    call, the error of [json.Marshal], and the [errors.New] of [Save]. *)
Inductive error : Type :=
  | ErrStoreIsReadOnly
  | ErrImageUnknown
  | ErrDuplicateID
  | ErrDuplicateName
  | ErrDuplicateImageNames
  | ErrInvalidBigDataName
  | ErrDigestUnknown
  | ErrSizeUnknown
  | ErrInvalidDigest
  | ErrNotLockedForWriting
  | ErrInvalidUpdateNameOperation
  | ErrIO
  | ErrMarshal.

#[global] Instance error_eq_dec : EqDecision error.
Proof. solve_decision. Defined.

Inductive result (A : Type) : Type :=
  | Ok (a : A)
  | Err (e : error).
Arguments Ok {A} a.
Arguments Err {A} e.

#[global] Instance result_ret : MRet result := fun A a => Ok a.
#[global] Instance result_bind : MBind result := fun A B k r =>
  match r with
  | Ok a => k a
  | Err e => Err e
  end.

#[global] Instance result_fmap : FMap result := fun A B f r =>
  match r with
  | Ok a => Ok (f a)
  | Err e => Err e
  end.

(** [foldM f a l]: a [for ... range l] loop whose body can [return err]. *)
Fixpoint foldM {A B} (f : A → B → result A) (a : A) (l : list B) : result A :=
  match l with
  | [] => Ok a
  | b :: l' => a' ← f a b; foldM f a' l'
  end.

(** ** The data model *)

Module digest.
(** [digest.Digest] is a Go string type. *)
Abbreviation Digest := string.
End digest.

Definition ImageDigestManifestBigDataNamePrefix : string := "manifest".
Definition ImageDigestBigDataKey : string := "manifest".

(** [Created] is a [time.Time]; [0] stands for the zero time.  [Flags] holds
    caller-defined values that the store never inspects. *)
Record Image : Type := mkImage {
  ID : string;
  Digest : digest.Digest;
  Digests : list digest.Digest;
  Names : list string;
  NamesHistory : list string;
  TopLayer : string;
  MappedTopLayers : list string;
  Metadata : string;
  BigDataNames : list string;
  BigDataSizes : gmap string Z;
  BigDataDigests : gmap string digest.Digest;
  Created : Z;
  ReadOnly : bool;
  Flags : gmap string string
}.

(** Field assignments [i.F = v]. *)
Definition set_Digest (v : digest.Digest) (i : Image) : Image :=
  mkImage (ID i) v (Digests i) (Names i) (NamesHistory i) (TopLayer i)
    (MappedTopLayers i) (Metadata i) (BigDataNames i) (BigDataSizes i)
    (BigDataDigests i) (Created i) (ReadOnly i) (Flags i).
Definition set_Digests (v : list digest.Digest) (i : Image) : Image :=
  mkImage (ID i) (Digest i) v (Names i) (NamesHistory i) (TopLayer i)
    (MappedTopLayers i) (Metadata i) (BigDataNames i) (BigDataSizes i)
    (BigDataDigests i) (Created i) (ReadOnly i) (Flags i).
Definition set_Names (v : list string) (i : Image) : Image :=
  mkImage (ID i) (Digest i) (Digests i) v (NamesHistory i) (TopLayer i)
    (MappedTopLayers i) (Metadata i) (BigDataNames i) (BigDataSizes i)
    (BigDataDigests i) (Created i) (ReadOnly i) (Flags i).
Definition set_NamesHistory (v : list string) (i : Image) : Image :=
  mkImage (ID i) (Digest i) (Digests i) (Names i) v (TopLayer i)
    (MappedTopLayers i) (Metadata i) (BigDataNames i) (BigDataSizes i)
    (BigDataDigests i) (Created i) (ReadOnly i) (Flags i).
Definition set_BigData (names : list string) (sizes : gmap string Z)
    (digests : gmap string digest.Digest) (i : Image) : Image :=
  mkImage (ID i) (Digest i) (Digests i) (Names i) (NamesHistory i) (TopLayer i)
    (MappedTopLayers i) (Metadata i) names sizes digests (Created i)
    (ReadOnly i) (Flags i).
Definition set_ReadOnly (v : bool) (i : Image) : Image :=
  mkImage (ID i) (Digest i) (Digests i) (Names i) (NamesHistory i) (TopLayer i)
    (MappedTopLayers i) (Metadata i) (BigDataNames i) (BigDataSizes i)
    (BigDataDigests i) (Created i) v (Flags i).

(** The zero [Image]: what a dangling location would read as. *)
Definition zeroImage : Image :=
  mkImage "" "" [] [] [] "" [] "" [] ∅ ∅ 0 false ∅.

(** ** The Go heap of image objects *)

Abbreviation loc := nat.

Definition deref (m : list Image) (p : loc) : Image := default zeroImage (m !! p).

(** [copyImage] makes a fresh object, field by field.  [copyDigestSlice],
    [copyStringSlice] and the three copies of maps (store.go) return a slice
    or a map with the elements of their argument: as a value, their
    argument. *)
Definition copyImage (m : list Image) (p : loc) : Image :=
  let i := deref m p in
  mkImage (ID i) (Digest i) (Digests i) (Names i) (NamesHistory i) (TopLayer i)
    (MappedTopLayers i) (Metadata i) (BigDataNames i) (BigDataSizes i)
    (BigDataDigests i) (Created i) (ReadOnly i) (Flags i).

Definition copyImageSlice (m : list Image) (slice : list loc) : list Image :=
  if decide (0 < length slice) then copyImage m <$> slice else [].

(** ** Collaborators that images.go calls and does not define *)

Inductive updateNameOperation : Type := setNames | addNames | removeNames.

(** - [Validate d] holds when [d.Validate()] of go-digest returns [nil]; the
      empty string is not a digest;
    - [FromBytes] is [digest.Canonical.FromBytes];
    - [applyNameOperation] (store.go) combines the old names of an image with
      the names of an [updateNames] call;
    - [jsonCoerce i] is the image [i] as [json.Unmarshal] reads it back from
      the bytes that [json.Marshal] writes for it.  encoding/json writes
      U+FFFD in the place of every byte of a string that is not valid UTF-8,
      so a string can come back changed, and two strings can come back
      equal. *)
Class Collaborators : Type := {
  Validate : digest.Digest → bool;
  Validate_empty : Validate "" = false;
  FromBytes : list Byte.byte → digest.Digest;
  applyNameOperation :
    list string → list string → updateNameOperation → result (list string);
  jsonCoerce : Image → Image
}.

(** Modelled from the spec: [dedupeNames] (store.go), which is not part of the
    sources.  The spec calls its result "deduplicated" and "most-recent-first"
    when a new name is put in front: the first occurrence of every name is
    kept, in order. *)
Fixpoint dedupeNames (names : list string) : list string :=
  match names with
  | [] => []
  | name :: rest => name :: filter (λ n, n ≠ name) (dedupeNames rest)
  end.

(** Modelled from the spec: [stringSliceWithoutValue] (store.go), which is not
    part of the sources: the slice with the value "stripped", that is without
    any of its occurrences. *)
Definition stringSliceWithoutValue (slice : list string) (value : string) : list string :=
  filter (λ v, v ≠ value) slice.

Module truncindex.
(** Modelled from the spec: the prefix index (pkg/truncindex), which is not
    part of the sources: it "resolves an unambiguous truncated ID prefix to
    its full ID; invalid/duplicate entries during (re)build are ignored
    rather than treated as fatal".  The index is the list of the IDs it
    holds. *)
Abbreviation TruncIndex := (list string).

(** Modelled from the spec: the entries that are not "invalid".  The spec
    does not say which are: here the empty ID and an ID with a space in it
    are invalid. *)
Definition legal (id : string) : bool :=
  negb (String.eqb id "") &&
  negb (existsb (Ascii.eqb Ascii.Space) (String.list_ascii_of_string id)).

(** Modelled from the spec: insertion; an invalid or duplicate entry is
    ignored (the error that reports it is dropped by images.go). *)
Definition Add (idx : TruncIndex) (id : string) : TruncIndex :=
  if legal id && negb (bool_decide (id ∈ idx)) then idx ++ [id] else idx.

(** Modelled from the spec: removal; removing an absent ID changes nothing
    (the error that reports it is dropped by images.go). *)
Definition Delete (idx : TruncIndex) (id : string) : TruncIndex :=
  filter (λ x, x ≠ id) idx.

(** Modelled from the spec: the (re)build of the index from a list of IDs. *)
Definition NewTruncIndex (ids : list string) : TruncIndex := foldl Add [] ids.

(** Modelled from the spec: resolution of a prefix; [None] when no ID or more
    than one ID of the index starts with it, or when it is empty. *)
Definition Get (idx : TruncIndex) (s : string) : option string :=
  if String.eqb s "" then None
  else match filter (λ id, String.prefix s id = true) idx with
       | [id] => Some id
       | _ => None
       end.
End truncindex.

(** ** The store *)

Record Locker : Type := mkLocker { IsReadWrite : bool; Locked : bool }.

(** What [dir/images.json] holds: no file (or an empty one), bytes that
    [json.Unmarshal] rejects, having filled in [partial] before it gave up, or
    the JSON document of a list of records. *)
Inductive SnapshotFile : Type :=
  | NoFile
  | Unparseable (partial : list Image)
  | Document (records : list Image).

(** The fields of an image that JSON carries: [Digests] and [ReadOnly] are
    tagged [json:"-"], so [json.Marshal] drops them and [json.Unmarshal]
    leaves them zero. *)
Definition jsonFields (i : Image) : Image := set_ReadOnly false (set_Digests [] i).

(** [r] of type [*imageStore], with the image objects it points to ([mem])
    and the directory [r.dir] it owns: the snapshot file, the per-image data
    directories and the blob files in them.  A data directory is named by the
    ID of its image, and a blob file by that ID and the key of the item.  The
    paths behind them are made by [filepath.Join] and [makeBigDataBaseName],
    which are not part of the sources, and two IDs can lead to one path or to
    a path inside the other: what is stated below about files concerns the
    directory and the files of one image, never those of another. *)
Record imageStore : Type := mkStore {
  lockfile : Locker;
  images : list loc;
  idindex : truncindex.TruncIndex;
  byid : gmap string loc;
  byname : gmap string loc;
  bydigest : gmap digest.Digest (list loc);
  mem : list Image;
  imagesjson : SnapshotFile;
  datadirs : gset string;
  bigdata : gmap (string * string) (list Byte.byte)
}.

Inductive syscall : Type :=
  | ReadSnapshot
  | MkdirStoreDir
  | Marshal
  | WriteSnapshot
  | Touch
  | GetLockfile
  | MkdirDataDir (id : string)
  | WriteBigData (id key : string)
  | RemoveDataDir (id : string).

(** [fails sys c]: the call [c] returns an error (for [ReadSnapshot], one
    that is not [os.IsNotExist]).  [Marshal] is the [json.Marshal] of [Save],
    which is no system call: it returns an error for a value that JSON cannot
    carry, such as a flag value of a type without an encoding or a time whose
    year has more than four digits.  [Flags] and [Created] do not tell such
    values from the others, so whether the encoding fails is read from the
    oracle as well.

    [removed sys id key]: an [os.RemoveAll] of the data directory of [id]
    that returns an error has removed the blob file of [key] before: it
    removes what it can and reports the first error it has met, and then the
    directory itself is still there. *)
Record Syscalls : Type := mkSyscalls {
  fails : syscall → bool;
  removed : string → string → bool
}.

(** Store-field assignments. *)
Definition set_index (ims : list loc) (idx : truncindex.TruncIndex)
    (ids names : gmap string loc) (ds : gmap digest.Digest (list loc))
    (m : list Image) (r : imageStore) : imageStore :=
  mkStore (lockfile r) ims idx ids names ds m (imagesjson r) (datadirs r) (bigdata r).
Definition set_mem (m : list Image) (r : imageStore) : imageStore :=
  mkStore (lockfile r) (images r) (idindex r) (byid r) (byname r) (bydigest r) m
    (imagesjson r) (datadirs r) (bigdata r).
Definition set_bydigest (ds : gmap digest.Digest (list loc)) (r : imageStore) : imageStore :=
  mkStore (lockfile r) (images r) (idindex r) (byid r) (byname r) ds (mem r)
    (imagesjson r) (datadirs r) (bigdata r).
Definition set_byname (names : gmap string loc) (r : imageStore) : imageStore :=
  mkStore (lockfile r) (images r) (idindex r) (byid r) names (bydigest r) (mem r)
    (imagesjson r) (datadirs r) (bigdata r).
Definition set_imagesjson (f : SnapshotFile) (r : imageStore) : imageStore :=
  mkStore (lockfile r) (images r) (idindex r) (byid r) (byname r) (bydigest r) (mem r)
    f (datadirs r) (bigdata r).
Definition set_files (dirs : gset string) (blobs : gmap (string * string) (list Byte.byte))
    (r : imageStore) : imageStore :=
  mkStore (lockfile r) (images r) (idindex r) (byid r) (byname r) (bydigest r) (mem r)
    (imagesjson r) dirs blobs.

(** [Lock], [RLock] and [Unlock] hand over to the lock file, which is not
    part of the sources; what the store sees of them is that [Locked]
    changes, and [IsReadWrite] never does. *)
Definition set_Locked (b : bool) (r : imageStore) : imageStore :=
  mkStore (mkLocker (IsReadWrite (lockfile r)) b) (images r) (idindex r) (byid r)
    (byname r) (bydigest r) (mem r) (imagesjson r) (datadirs r) (bigdata r).

(** The order in which a [range] over the map [m] may visit its entries: any
    enumeration of them. *)
Definition range_of {V} (m : gmap string V) (order : list (string * V)) : Prop :=
  order ≡ₚ map_to_list m.

#[global] Instance range_of_dec {V} `{EqDecision V} (m : gmap string V) order :
  Decision (range_of m order).
Proof. unfold range_of. apply _. Defined.

Definition bigDataNameIsManifest (name : string) : bool :=
  String.prefix ImageDigestManifestBigDataNamePrefix name.

Section Model.
Context `{Collaborators}.

(** ** Digest recomputation *)

(** The body of the [range i.BigDataDigests] loop of [recomputeDigests]; the
    state is [validDigests] and the set [digests] of the values seen. *)
Definition recomputeDigests_body (acc : list digest.Digest * gset digest.Digest)
    (entry : string * digest.Digest) : result (list digest.Digest * gset digest.Digest) :=
  let '(validDigests, digests) := acc in
  let '(name, d) := entry in
  if negb (bigDataNameIsManifest name) then Ok acc
  else if negb (Validate d) then Err ErrInvalidDigest
  else if decide (d ∈ digests) then Ok acc
  else Ok (validDigests ++ [d], {[d]} ∪ digests).

(** [i.recomputeDigests()], the loop visiting [i.BigDataDigests] in [order]. *)
Definition recomputeDigests (order : list (string * digest.Digest)) (i : Image) : result Image :=
  acc0 ← (if decide (Digest i ≠ "")
          then if negb (Validate (Digest i)) then Err ErrInvalidDigest
               else Ok ([Digest i], ({[Digest i]} : gset digest.Digest))
          else Ok ([], ∅));
  acc ← foldM recomputeDigests_body acc0 order;
  let validDigests := acc.1 in
  let i := if decide (Digest i = "" ∧ 0 < length validDigests)
           then set_Digest (default "" (head validDigests)) i else i in
  Ok (set_Digests validDigests i).

(** ** Lookup *)

Definition lookup (r : imageStore) (id : string) : option loc :=
  match byid r !! id with
  | Some image => Some image
  | None =>
    match byname r !! id with
    | Some image => Some image
    | None =>
      match truncindex.Get (idindex r) id with
      | Some longid => byid r !! longid
      | None => None
      end
    end
  end.

Definition Get (r : imageStore) (id : string) : result Image :=
  match lookup r id with
  | Some image => Ok (copyImage (mem r) image)
  | None => Err ErrImageUnknown
  end.

Definition Exists (r : imageStore) (id : string) : bool :=
  bool_decide (is_Some (lookup r id)).

Definition ByDigest (r : imageStore) (d : digest.Digest) : result (list Image) :=
  match bydigest r !! d with
  | Some images => Ok (copyImageSlice (mem r) images)
  | None => Err ErrImageUnknown
  end.

(** ** Save *)

(** The record of the snapshot that [Save] writes for an image, as a later
    [json.Unmarshal] decodes it: the encoder does not see [Digests] and
    [ReadOnly], and the decoder leaves them zero. *)
Definition jsonRecord (i : Image) : Image := jsonFields (jsonCoerce (jsonFields i)).

Definition Save (sys : Syscalls) (r : imageStore) : imageStore * result unit :=
  if negb (IsReadWrite (lockfile r)) then (r, Err ErrStoreIsReadOnly)
  else if negb (Locked (lockfile r)) then (r, Err ErrNotLockedForWriting)
  else if fails sys MkdirStoreDir then (r, Err ErrIO)
  else if fails sys Marshal then (r, Err ErrMarshal)
  else
    let jdata := Document ((λ p, jsonRecord (deref (mem r) p)) <$> images r) in
    if fails sys WriteSnapshot then (r, Err ErrIO)
    else
      let r := set_imagesjson jdata r in
      if fails sys Touch then (r, Err ErrIO) else (r, Ok ()).

(** ** Names *)

Definition removeName (image : loc) (name : string) (m : list Image) : list Image :=
  alter (λ i, set_Names (stringSliceWithoutValue (Names i) name) i) image m.

Definition addNameToHistory (name : string) (i : Image) : Image :=
  set_NamesHistory (dedupeNames ([name] ++ NamesHistory i)) i.

(** ** Load *)

(** The locals of [Load]: the unmarshalled [images] (the object behind
    [images[n]] is [ld_mem !! n]), [idlist], [ids], [names], [digests],
    [shouldSave]. *)
Record loadState : Type := mkLoad {
  ld_mem : list Image;
  ld_idlist : list string;
  ld_ids : gmap string loc;
  ld_names : gmap string loc;
  ld_digests : gmap digest.Digest (list loc);
  ld_shouldSave : bool
}.

(** The body of the first loop over [image.Names] in [Load]: a name that
    [names] binds already is removed from the image it is bound to. *)
Definition Load_conflict (names : gmap string loc) (st : list Image * bool)
    (name : string) : list Image * bool :=
  let '(m, shouldSave) := st in
  match names !! name with
  | Some conflict => (removeName conflict name m, true)
  | None => (m, shouldSave)
  end.

(** One round of [for n, image := range images]. *)
Definition Load_body (rw : bool) (order : list (string * digest.Digest))
    (st : loadState) (n : loc) : result loadState :=
  let image := deref (ld_mem st) n in
  let ids := <[ID image := n]> (ld_ids st) in
  let idlist := (ld_idlist st ++ [ID image]) in
  let '(m, shouldSave) :=
    foldl (Load_conflict (ld_names st)) (ld_mem st, ld_shouldSave st) (Names image) in
  image' ← recomputeDigests order (deref m n);
  let m := <[n := image']> m in
  let names := foldl (λ names name, <[name := n]> names) (ld_names st) (Names image') in
  let digests :=
    foldl (λ digests d, <[d := (default [] (digests !! d) ++ [n])]> digests)
          (ld_digests st) (Digests image') in
  let m := alter (set_ReadOnly (negb rw)) n m in
  Ok (mkLoad m idlist ids names digests shouldSave).

(** [Load]; [orders n] is the order in which [recomputeDigests] ranges over
    the digest map of [images[n]]. *)
Definition Load (sys : Syscalls) (orders : nat → list (string * digest.Digest))
    (r : imageStore) : imageStore * result unit :=
  if fails sys ReadSnapshot then (r, Err ErrIO)
  else
    let rw := IsReadWrite (lockfile r) in
    let '(unmarshalled, parsed) :=
      match imagesjson r with
      | NoFile => ([], true)
      | Unparseable partial => (jsonFields <$> partial, false)
      | Document records => (jsonFields <$> records, true)
      end in
    let st0 := mkLoad unmarshalled [] ∅ ∅ ∅ false in
    match (if parsed
           then foldM (λ st n, Load_body rw (orders n) st n) st0 (seq 0 (length unmarshalled))
           else Ok st0) with
    | Err e => (r, Err e)
    | Ok st =>
      if ld_shouldSave st && (negb rw || negb (Locked (lockfile r)))
      then (r, Err ErrDuplicateImageNames)
      else
        let r := set_index (seq 0 (length (ld_mem st)))
                   (truncindex.NewTruncIndex (ld_idlist st))
                   (ld_ids st) (ld_names st) (ld_digests st) (ld_mem st) r in
        if ld_shouldSave st then Save sys r else (r, Ok ())
    end.

(** ** Create *)

(** The retry loop of [Create] around [stringid.GenerateRandomID]: [rand] is
    the sequence of IDs that the generator returns, and the loop stops at the
    first one that is not in use.  [None]: the loop is still running when
    [rand] is used up. *)
Fixpoint GenerateUnusedID (ids : gmap string loc) (rand : list string) : option string :=
  match rand with
  | [] => None
  | id :: rand' =>
    if decide (is_Some (ids !! id)) then GenerateUnusedID ids rand' else Some id
  end.

(** Appending [image] to the bucket of each of its digests. *)
Definition index_digests (image : loc) (ds : list digest.Digest)
    (m : gmap digest.Digest (list loc)) : gmap digest.Digest (list loc) :=
  foldl (λ m d, <[d := (default [] (m !! d) ++ [image])]> m) m ds.

(** [Create]; [now] is [time.Now().UTC()].  The result is the pair
    [(image, err)] that the Go method returns. *)
Definition Create (sys : Syscalls) (rand : list string) (now : Z)
    (id : string) (names : list string) (layer metadata : string) (created : Z)
    (searchableDigest : digest.Digest) (r : imageStore)
    : option (imageStore * (option Image * result unit)) :=
  if negb (IsReadWrite (lockfile r)) then Some (r, (None, Err ErrStoreIsReadOnly))
  else
    id ← (if decide (id = "") then GenerateUnusedID (byid r) rand else Some id);
    Some (
      if decide (is_Some (byid r !! id)) then (r, (None, Err ErrDuplicateID))
      else
        let names := dedupeNames names in
        match foldM (λ _ name, if decide (is_Some (byname r !! name))
                               then Err ErrDuplicateName else Ok ()) () names with
        | Err e => (r, (None, Err e))
        | Ok _ =>
          let created := if decide (created = 0%Z) then now else created in
          let image := mkImage id searchableDigest [] names [] layer [] metadata
                         [] ∅ ∅ created false ∅ in
          match recomputeDigests (map_to_list (BigDataDigests image)) image with
          | Err e => (r, (None, Err e))
          | Ok image =>
            let p := length (mem r) in
            let r := set_index (images r ++ [p])
                       (truncindex.Add (idindex r) id)
                       (<[id := p]> (byid r))
                       (foldl (λ m name, <[name := p]> m) (byname r) names)
                       (index_digests p (Digests image) (bydigest r))
                       (mem r ++ [image]) r in
            let '(r, err) := Save sys r in
            (r, (Some (copyImage (mem r) p), err))
          end
        end).

(** ** updateNames *)

(** The body of the loop of [updateNames] that binds the new names to
    [image]; the state is the heap and [r.byname]. *)
Definition updateNames_bind (image : loc) (st : list Image * gmap string loc)
    (name : string) : list Image * gmap string loc :=
  let '(m, bn) := st in
  let m := match bn !! name with
           | Some otherImage => removeName otherImage name m
           | None => m
           end in
  (alter (addNameToHistory name) image m, <[name := image]> bn).

Definition updateNames (sys : Syscalls) (id : string) (names : list string)
    (op : updateNameOperation) (r : imageStore) : imageStore * result unit :=
  if negb (IsReadWrite (lockfile r)) then (r, Err ErrStoreIsReadOnly)
  else
    match lookup r id with
    | None => (r, Err ErrImageUnknown)
    | Some image =>
      let oldNames := Names (deref (mem r) image) in
      match applyNameOperation oldNames names op with
      | Err e => (r, Err e)
      | Ok names =>
        let bn := foldl (λ bn name, delete name bn) (byname r) oldNames in
        let '(m, bn) := foldl (updateNames_bind image) (mem r, bn) names in
        let m := alter (set_Names names) image m in
        Save sys (set_mem m (set_byname bn r))
      end
    end.

(** ** Delete *)

Definition imageSliceWithoutValue (slice : list loc) (value : loc) : list loc :=
  filter (λ v, v ≠ value) slice.

(** Removing [image] from the bucket of each digest of [ds]; a bucket that
    becomes empty is deleted. *)
Definition prune_digests (image : loc) (ds : list digest.Digest)
    (m : gmap digest.Digest (list loc)) : gmap digest.Digest (list loc) :=
  foldl (λ m d,
           let prunedList := imageSliceWithoutValue (default [] (m !! d)) image in
           if decide (length prunedList = 0) then delete d m else <[d := prunedList]> m)
        m ds.

Definition Delete (sys : Syscalls) (id : string) (r : imageStore) : imageStore * result unit :=
  if negb (IsReadWrite (lockfile r)) then (r, Err ErrStoreIsReadOnly)
  else
    match lookup r id with
    | None => (r, Err ErrImageUnknown)
    | Some image =>
      let id := ID (deref (mem r) image) in
      let toDeleteIndex :=
        foldl (λ toDeleteIndex '(i, candidate),
                 if decide (ID (deref (mem r) candidate) = id) then Some i else toDeleteIndex)
              None (zip (seq 0 (length (images r))) (images r)) in
      let ids := delete id (byid r) in
      let idx := truncindex.Delete (idindex r) id in
      let bn := foldl (λ bn name, delete name bn) (byname r) (Names (deref (mem r) image)) in
      let ds := prune_digests image (Digests (deref (mem r) image)) (bydigest r) in
      let ims :=
        match toDeleteIndex with
        | Some i =>
          if decide (i = length (images r) - 1)
          then take (length (images r) - 1) (images r)
          else (take i (images r) ++ drop (i + 1) (images r))
        | None => images r
        end in
      let r := set_index ims idx ids bn ds (mem r) r in
      match Save sys r with
      | (r, Err e) => (r, Err e)
      | (r, Ok _) =>
        if fails sys (RemoveDataDir id)
        then (set_files (datadirs r)
                        (filter (λ kv, ¬ (kv.1.1 = id ∧ removed sys id kv.1.2 = true))
                                (bigdata r)) r, Err ErrIO)
        else (set_files (datadirs r ∖ {[id]})
                        (filter (λ kv, kv.1.1 ≠ id) (bigdata r)) r, Ok ())
      end
    end.

(** ** SetBigData *)

(** The value of [newDigest] in [SetBigData]; [digestManifest] is [None] for
    a [nil] callback. *)
Definition newDigest_of (key : string) (data : list Byte.byte)
    (digestManifest : option (list Byte.byte → result digest.Digest)) : result digest.Digest :=
  if bigDataNameIsManifest key
  then match digestManifest with
       | None => Err ErrDigestUnknown
       | Some f => f data
       end
  else Ok (FromBytes data).

Definition SetBigData (sys : Syscalls) (order : list (string * digest.Digest))
    (id key : string) (data : list Byte.byte)
    (digestManifest : option (list Byte.byte → result digest.Digest))
    (r : imageStore) : imageStore * result unit :=
  if decide (key = "") then (r, Err ErrInvalidBigDataName)
  else if negb (IsReadWrite (lockfile r)) then (r, Err ErrStoreIsReadOnly)
  else
    match lookup r id with
    | None => (r, Err ErrImageUnknown)
    | Some image =>
      let i := deref (mem r) image in
      if fails sys (MkdirDataDir (ID i)) then (r, Err ErrIO)
      else
        let r := set_files ({[ID i]} ∪ datadirs r) (bigdata r) r in
        match newDigest_of key data digestManifest with
        | Err e => (r, Err e)
        | Ok newDigest =>
          if fails sys (WriteBigData (ID i) key) then (r, Err ErrIO)
          else
            let r := set_files (datadirs r) (<[(ID i, key) := data]> (bigdata r)) r in
            let size := Z.of_nat (length data) in
            let save :=
              match BigDataSizes i !! key, BigDataDigests i !! key with
              | Some oldSize, Some oldDigest =>
                negb (bool_decide (oldSize = size)) || negb (bool_decide (oldDigest = newDigest))
              | _, _ => true
              end in
            let sizes := <[key := size]> (BigDataSizes i) in
            let digests := <[key := newDigest]> (BigDataDigests i) in
            let addName := negb (bool_decide (key ∈ BigDataNames i)) in
            let names := if addName then (BigDataNames i ++ [key]) else BigDataNames i in
            let save := save || addName in
            let i := set_BigData names sizes digests i in
            let ds :=
              foldl (λ m oldDigest,
                       match m !! oldDigest with
                       | Some list =>
                         let prunedList := imageSliceWithoutValue list image in
                         if decide (length prunedList = 0) then delete oldDigest m
                         else <[oldDigest := prunedList]> m
                       | None => m
                       end)
                    (bydigest r) (Digests i) in
            let r := set_bydigest ds (set_mem (<[image := i]> (mem r)) r) in
            match recomputeDigests order i with
            | Err e => (r, Err e)
            | Ok i =>
              let ds :=
                foldl (λ m newDigest,
                         let list := default [] (m !! newDigest) in
                         if decide (length list = length (imageSliceWithoutValue list image))
                         then <[newDigest := (list ++ [image])]> m else m)
                      (bydigest r) (Digests i) in
              let r := set_bydigest ds (set_mem (<[image := i]> (mem r)) r) in
              if save then Save sys r else (r, Ok ())
            end
        end
    end.

(** ** Opening a store *)

(** The struct literal of [newImageStore] and [newROImageStore], over a store
    directory with the given contents. *)
Definition emptyStore (lk : Locker) (file : SnapshotFile) (dirs : gset string)
    (blobs : gmap (string * string) (list Byte.byte)) : imageStore :=
  mkStore lk [] [] ∅ ∅ ∅ [] file dirs blobs.

(** [newImageStore]: the lock file is read-write and [Lock]ed for the
    [Load]; the deferred [Unlock] releases it before the store is returned. *)
Definition newImageStore (sys : Syscalls) (orders : nat → list (string * digest.Digest))
    (file : SnapshotFile) (dirs : gset string)
    (blobs : gmap (string * string) (list Byte.byte)) : result imageStore :=
  if fails sys MkdirStoreDir then Err ErrIO
  else if fails sys GetLockfile then Err ErrIO
  else match Load sys orders (emptyStore (mkLocker true true) file dirs blobs) with
       | (r, Ok _) => Ok (set_Locked false r)
       | (_, Err e) => Err e
       end.

(** [newROImageStore]: the lock file is read-only and [RLock]ed, so the store
    is neither read-write nor locked for writing. *)
Definition newROImageStore (sys : Syscalls) (orders : nat → list (string * digest.Digest))
    (file : SnapshotFile) (dirs : gset string)
    (blobs : gmap (string * string) (list Byte.byte)) : result imageStore :=
  if fails sys GetLockfile then Err ErrIO
  else match Load sys orders (emptyStore (mkLocker false false) file dirs blobs) with
       | (r, Ok _) => Ok (set_Locked false r)
       | (_, Err e) => Err e
       end.

End Model.

(** * The other operations of the store

    The methods of [imageStore] that read one image ([Images], [Metadata],
    [BigData], [BigDataSize], [BigDataDigest], [BigDataNames]), those that
    change one field of it ([SetFlag], [ClearFlag], [SetMetadata],
    [addMappedTopLayer], [removeMappedTopLayer]), [Wipe] and
    [ReloadIfChanged]. *)

(** Field assignments [i.F = v]. *)
Definition set_Flags (v : gmap string string) (i : Image) : Image :=
  mkImage (ID i) (Digest i) (Digests i) (Names i) (NamesHistory i) (TopLayer i)
    (MappedTopLayers i) (Metadata i) (BigDataNames i) (BigDataSizes i)
    (BigDataDigests i) (Created i) (ReadOnly i) v.
Definition set_MappedTopLayers (v : list string) (i : Image) : Image :=
  mkImage (ID i) (Digest i) (Digests i) (Names i) (NamesHistory i) (TopLayer i)
    v (Metadata i) (BigDataNames i) (BigDataSizes i)
    (BigDataDigests i) (Created i) (ReadOnly i) (Flags i).
Definition set_Metadata (v : string) (i : Image) : Image :=
  mkImage (ID i) (Digest i) (Digests i) (Names i) (NamesHistory i) (TopLayer i)
    (MappedTopLayers i) v (BigDataNames i) (BigDataSizes i)
    (BigDataDigests i) (Created i) (ReadOnly i) (Flags i).

(** [read_fails rd id key]: [os.ReadFile] of the blob file of [key] in the
    data directory of the image [id] returns an error although the file is
    there. *)
Record FileReads : Type := mkFileReads { read_fails : string → string → bool }.

Section Operations.
Context `{Collaborators}.

(** ** Enumeration *)

(** [Images]: a copy of every image of the list, in the order of the list;
    the error is always [nil]. *)
Definition Images (r : imageStore) : result (list Image) :=
  Ok (copyImage (mem r) <$> images r).

(** ** Flags *)

Definition ClearFlag (sys : Syscalls) (id flag : string) (r : imageStore)
    : imageStore * result unit :=
  if negb (IsReadWrite (lockfile r)) then (r, Err ErrStoreIsReadOnly)
  else
    match lookup r id with
    | None => (r, Err ErrImageUnknown)
    | Some image =>
      let m := alter (λ i, set_Flags (delete flag (Flags i)) i) image (mem r) in
      Save sys (set_mem m r)
    end.

(** [SetFlag]; a [nil] map of flags and an empty one are the same [gmap]. *)
Definition SetFlag (sys : Syscalls) (id flag value : string) (r : imageStore)
    : imageStore * result unit :=
  if negb (IsReadWrite (lockfile r)) then (r, Err ErrStoreIsReadOnly)
  else
    match lookup r id with
    | None => (r, Err ErrImageUnknown)
    | Some image =>
      let m := alter (λ i, set_Flags (<[flag := value]> (Flags i)) i) image (mem r) in
      Save sys (set_mem m r)
    end.

(** ** Mapped top layers *)

Definition addMappedTopLayer (sys : Syscalls) (id layer : string) (r : imageStore)
    : imageStore * result unit :=
  match lookup r id with
  | Some image =>
    let m := alter (λ i, set_MappedTopLayers (MappedTopLayers i ++ [layer]) i)
               image (mem r) in
    Save sys (set_mem m r)
  | None => (r, Err ErrImageUnknown)
  end.

(** [removeMappedTopLayer]; [stringutils.RemoveFromSlice] is not part of the
    sources, and is an argument. *)
Definition removeMappedTopLayer (RemoveFromSlice : list string → string → list string)
    (sys : Syscalls) (id layer : string) (r : imageStore) : imageStore * result unit :=
  match lookup r id with
  | Some image =>
    let i := deref (mem r) image in
    let initialLen := length (MappedTopLayers i) in
    let layers := RemoveFromSlice (MappedTopLayers i) layer in
    let r := set_mem (alter (set_MappedTopLayers layers) image (mem r)) r in
    if decide (initialLen = length layers) then (r, Ok ())
    else Save sys r
  | None => (r, Err ErrImageUnknown)
  end.

(** ** Metadata *)

(** The method [Metadata] of [imageStore]; the name alone is the field of
    [Image]. *)
Definition imageStore_Metadata (r : imageStore) (id : string) : result string :=
  match lookup r id with
  | Some image => Ok (Metadata (deref (mem r) image))
  | None => Err ErrImageUnknown
  end.

Definition SetMetadata (sys : Syscalls) (id metadata : string) (r : imageStore)
    : imageStore * result unit :=
  if negb (IsReadWrite (lockfile r)) then (r, Err ErrStoreIsReadOnly)
  else
    match lookup r id with
    | Some image => Save sys (set_mem (alter (set_Metadata metadata) image (mem r)) r)
    | None => (r, Err ErrImageUnknown)
    end.

(** ** Reading big data *)

(** [BigData]; [os.ReadFile] fails when the blob file is not there, and when
    [rd] says so. *)
Definition BigData (rd : FileReads) (r : imageStore) (id key : string)
    : result (list Byte.byte) :=
  if decide (key = "") then Err ErrInvalidBigDataName
  else
    match lookup r id with
    | None => Err ErrImageUnknown
    | Some image =>
      let i := deref (mem r) image in
      if read_fails rd (ID i) key then Err ErrIO
      else match bigdata r !! (ID i, key) with
           | Some data => Ok data
           | None => Err ErrIO
           end
    end.

(** [BigDataSize]; the slice that a successful [os.ReadFile] returns is never
    [nil].  Making a [nil] map of sizes an empty one changes no [gmap]. *)
Definition BigDataSize (rd : FileReads) (r : imageStore) (id key : string) : result Z :=
  if decide (key = "") then Err ErrInvalidBigDataName
  else
    match lookup r id with
    | None => Err ErrImageUnknown
    | Some image =>
      match BigDataSizes (deref (mem r) image) !! key with
      | Some size => Ok size
      | None =>
        match BigData rd r id key with
        | Ok data => Ok (Z.of_nat (length data))
        | Err _ => Err ErrSizeUnknown
        end
      end
    end.

Definition BigDataDigest (r : imageStore) (id key : string) : result digest.Digest :=
  if decide (key = "") then Err ErrInvalidBigDataName
  else
    match lookup r id with
    | None => Err ErrImageUnknown
    | Some image =>
      match BigDataDigests (deref (mem r) image) !! key with
      | Some d => Ok d
      | None => Err ErrDigestUnknown
      end
    end.

(** The method [BigDataNames] of [imageStore]. *)
Definition imageStore_BigDataNames (r : imageStore) (id : string) : result (list string) :=
  match lookup r id with
  | None => Err ErrImageUnknown
  | Some image => Ok (BigDataNames (deref (mem r) image))
  end.

(** ** Wipe *)

(** The loop of [Wipe] over the IDs that it has collected: it stops at the
    first [Delete] that fails. *)
Fixpoint Wipe_loop (sys : Syscalls) (ids : list string) (r : imageStore)
    : imageStore * result unit :=
  match ids with
  | [] => (r, Ok ())
  | id :: ids' =>
    match Delete sys id r with
    | (r, Err e) => (r, Err e)
    | (r, Ok _) => Wipe_loop sys ids' r
    end
  end.

(** [Wipe]; [order] is the order in which the [range] visits [r.byid]. *)
Definition Wipe (sys : Syscalls) (order : list (string * loc)) (r : imageStore)
    : imageStore * result unit :=
  if negb (IsReadWrite (lockfile r)) then (r, Err ErrStoreIsReadOnly)
  else Wipe_loop sys (order.*1) r.

(** ** Reloading *)

(** [ReloadIfChanged]; [modified] is what [r.Modified()] returns. *)
Definition ReloadIfChanged (modified : result bool) (sys : Syscalls)
    (orders : nat → list (string * digest.Digest)) (r : imageStore)
    : imageStore * result unit :=
  match modified with
  | Ok true => Load sys orders r
  | Ok false => (r, Ok ())
  | Err e => (r, Err e)
  end.

End Operations.

(** * Invariants of the store *)

Section Invariants.
Context `{Collaborators}.

(** [d] is the digest of a manifest among the entries [order] of a digest
    cache. *)
Definition manifest_digest (order : list (string * digest.Digest)) (d : digest.Digest) : Prop :=
  ∃ name, (name, d) ∈ order ∧ bigDataNameIsManifest name = true.

(** What the loop of [recomputeDigests] maintains about [validDigests] and
    [digests]. *)
Definition loop_inv (acc : list digest.Digest * gset digest.Digest) : Prop :=
  NoDup acc.1 ∧ (∀ d, d ∈ acc.2 ↔ d ∈ acc.1) ∧ Forall (λ d, Validate d = true) acc.1.

(** The three conditions that the data model puts on an image's digests. *)
Definition digests_ok (i : Image) : Prop :=
  NoDup (Digests i) ∧
  Forall (λ d, Validate d = true) (Digests i) ∧
  (Digest i ≠ "" → head (Digests i) = Some (Digest i)).

(** The digests of the manifests of a digest cache. *)
Definition manifestDigests (m : gmap string digest.Digest) : gset digest.Digest :=
  list_to_set (filter (λ kv, bigDataNameIsManifest kv.1 = true) (map_to_list m)).*2.

(** [Digests] and [Digest] are what recomputation makes them: [Digests] is
    in order, it holds the explicit digest and the digests of the manifests,
    and [Digest] is empty only if there is no digest at all. *)
Definition digests_current (i : Image) : Prop :=
  digests_ok i ∧
  list_to_set (Digests i) =
    (if decide (Digest i = "") then ∅ else {[Digest i]}) ∪ manifestDigests (BigDataDigests i) ∧
  (Digest i = "" → Digests i = []).

(** What the loop of [Load] knows about [ids] and [digests] when it has gone
    through the first [k] records. *)
Definition load_index_inv (orders : nat → list (string * digest.Digest))
    (recs : list Image) (k : nat) (st : loadState) : Prop :=
  map_Forall (λ x j, j < k ∧ ID (deref recs j) = x) (ld_ids st) ∧
  (NoDup (ID <$> recs) → ∀ j, j < k → ld_ids st !! ID (deref recs j) = Some j) ∧
  map_Forall (λ d l, l ≠ [] ∧
                Forall (λ q, q < k ∧ ∃ i', recomputeDigests (orders q) (deref recs q) = Ok i' ∧
                                           d ∈ Digests i') l)
             (ld_digests st).

(** The explicit digest and the digests of the manifests of an image
    validate. *)
Definition digests_valid (i : Image) : Prop :=
  (Digest i ≠ "" → Validate (Digest i) = true) ∧
  set_Forall (λ d, Validate d = true) (manifestDigests (BigDataDigests i)).

(** Every image of the list is an object of the heap. *)
Definition mem_valid (r : imageStore) : Prop :=
  Forall (λ p, p < length (mem r)) (images r).

(** The by-ID and by-name maps lead to images of the list that carry the ID
    and the name. *)
Definition byid_sound (r : imageStore) : Prop :=
  map_Forall (λ k q, q ∈ images r ∧ ID (deref (mem r) q) = k) (byid r).
Definition byname_sound (r : imageStore) : Prop :=
  map_Forall (λ n q, q ∈ images r ∧ n ∈ Names (deref (mem r) q)) (byname r).

(** Every image of the list is found under its ID and under each of its
    names; no two images of the list share an ID. *)
Definition ids_indexed (r : imageStore) : Prop :=
  Forall (λ q, byid r !! ID (deref (mem r) q) = Some q) (images r).
Definition names_indexed (r : imageStore) : Prop :=
  Forall (λ q, Forall (λ n, byname r !! n = Some q) (Names (deref (mem r) q))) (images r).
Definition ids_unique (r : imageStore) : Prop :=
  NoDup ((λ q, ID (deref (mem r) q)) <$> images r).

(** No bucket of the by-digest map is empty, and a bucket holds images of the
    list that carry its digest. *)
Definition bydigest_sound (r : imageStore) : Prop :=
  map_Forall (λ d l, l ≠ [] ∧ Forall (λ q, q ∈ images r ∧ d ∈ Digests (deref (mem r) q)) l)
             (bydigest r).

Definition buckets_nonempty (r : imageStore) : Prop :=
  map_Forall (λ _ (l : list loc), l ≠ []) (bydigest r).

(** A bucket after pruning. *)
Definition pruned (image : loc) (o : option (list loc)) : option (list loc) :=
  match imageSliceWithoutValue (default [] o) image with
  | [] => None
  | l => Some l
  end.

(** [i'] is [i] but for its names and the history of its names. *)
Definition names_only (i i' : Image) : Prop :=
  i' = set_NamesHistory (NamesHistory i') (set_Names (Names i') i).

(** The digests of every image of the list satisfy [digests_ok]. *)
Definition store_digests_ok (r : imageStore) : Prop :=
  Forall (λ p, digests_ok (deref (mem r) p)) (images r).

(** The list and the indices of a store agree. *)
Definition store_wf (r : imageStore) : Prop :=
  mem_valid r ∧ byid_sound r ∧ byname_sound r ∧ ids_indexed r ∧ names_indexed r ∧
  ids_unique r ∧ bydigest_sound r.

(** ** What [Load] computes from the records of a snapshot *)

(** Some record between [j] and [k] (both excluded) claims the name [x]. *)
Definition claimed_later (recs : list Image) (j k : nat) (x : string) : Prop :=
  List.Exists (λ j', x ∈ Names (deref recs j')) (seq (S j) (k - S j)).

(** The last of the first [k] records that claims the name [x]. *)
Fixpoint last_claimer (recs : list Image) (k : nat) (x : string) : option loc :=
  match k with
  | 0 => None
  | S k' => if decide (x ∈ Names (deref recs k')) then Some k' else last_claimer recs k' x
  end.

(** Two of the first [k] records claim the same name. *)
Definition name_conflict (recs : list Image) (k : nat) : Prop :=
  ∃ j j' x, j < j' < k ∧ x ∈ Names (deref recs j) ∧ x ∈ Names (deref recs j').

(** The state of the loop of [Load] when it has gone through the first [k]
    records [recs]: the others are untouched; a record gone through has its
    digests recomputed, its [ReadOnly] set, and has lost the names that a
    later record gone through claims; [names] binds a name to the last record
    that claims it; [shouldSave] tells whether a name was claimed twice. *)
Definition load_inv (rw : bool) (orders : nat → list (string * digest.Digest))
    (recs : list Image) (k : nat) (st : loadState) : Prop :=
  length (ld_mem st) = length recs ∧
  (∀ j, k ≤ j → deref (ld_mem st) j = deref recs j) ∧
  (∀ j, j < k →
     ∃ i', recomputeDigests (orders j) (deref recs j) = Ok i' ∧
           deref (ld_mem st) j =
           set_ReadOnly (negb rw)
             (set_Names (filter (λ x, ¬ claimed_later recs j k x) (Names (deref recs j))) i')) ∧
  (∀ x, ld_names st !! x = last_claimer recs k x) ∧
  (ld_shouldSave st = true ↔ name_conflict recs k).

(** ** The snapshot file *)

(** The snapshot file is absent, or it is a document no two records of which
    share an ID. *)
Definition snapshot_ok (r : imageStore) : Prop :=
  match imagesjson r with
  | NoFile => True
  | Unparseable _ => False
  | Document records => NoDup (ID <$> records)
  end.

(** The JSON encoding keeps the ID, the names and the digests of an image:
    so it does when these strings are valid UTF-8. *)
Definition json_faithful (i : Image) : Prop :=
  ID (jsonRecord i) = ID i ∧ Names (jsonRecord i) = Names i ∧
  Digest (jsonRecord i) = Digest i ∧ BigDataDigests (jsonRecord i) = BigDataDigests i.

#[global] Instance digests_ok_dec i : Decision (digests_ok i).
Proof. unfold digests_ok. apply _. Defined.
#[global] Instance digests_valid_dec i : Decision (digests_valid i).
Proof. unfold digests_valid. apply _. Defined.
#[global] Instance digests_current_dec i : Decision (digests_current i).
Proof. unfold digests_current. apply _. Defined.
#[global] Instance store_digests_ok_dec r : Decision (store_digests_ok r).
Proof. unfold store_digests_ok. apply _. Defined.
#[global] Instance buckets_nonempty_dec r : Decision (buckets_nonempty r).
Proof. unfold buckets_nonempty. apply _. Defined.
#[global] Instance snapshot_ok_dec r : Decision (snapshot_ok r).
Proof. unfold snapshot_ok. destruct (imagesjson r); apply _. Defined.
#[global] Instance json_faithful_dec i : Decision (json_faithful i).
Proof. unfold json_faithful. apply _. Defined.
#[global] Instance store_wf_dec r : Decision (store_wf r).
Proof.
  unfold store_wf, mem_valid, byid_sound, byname_sound, ids_indexed, names_indexed,
    ids_unique, bydigest_sound.
  apply _.
Defined.

End Invariants.

(** * Calls *)

Section Calls.
Context `{Collaborators}.

(** The orders that [Load] is given are orders over the digest caches of the
    records of the snapshot. *)
Definition Load_orders (r : imageStore) (orders : nat → list (string * digest.Digest)) : Prop :=
  match imagesjson r with
  | Document records =>
    ∀ n, n < length records → range_of (BigDataDigests (deref records n)) (orders n)
  | _ => True
  end.

(** The order that [SetBigData] is given is an order over the digest cache
    of the image once the digest of the new item is in it. *)
Definition SetBigData_order (r : imageStore) (order : list (string * digest.Digest))
    (id key : string) (data : list Byte.byte)
    (digestManifest : option (list Byte.byte → result digest.Digest)) : Prop :=
  ∀ p newDigest,
    lookup r id = Some p →
    newDigest_of key data digestManifest = Ok newDigest →
    range_of (<[key := newDigest]> (BigDataDigests (deref (mem r) p))) order.

(** [op_call r r' res]: one call of a method that changes the store [r]
    without reading the snapshot, with any arguments and any behaviour of the
    system calls; the call returns the error [res] and leaves the store
    [r']. *)
Inductive op_call : imageStore → imageStore → result unit → Prop :=
  | call_Save sys r r' res :
      Save sys r = (r', res) → op_call r r' res
  | call_Create sys rand now id names layer metadata created searchableDigest r r' image res :
      Create sys rand now id names layer metadata created searchableDigest r
        = Some (r', (image, res)) →
      op_call r r' res
  | call_updateNames sys id names op r r' res :
      updateNames sys id names op r = (r', res) → op_call r r' res
  | call_Delete sys id r r' res :
      Delete sys id r = (r', res) → op_call r r' res
  | call_SetBigData sys order id key data digestManifest r r' res :
      SetBigData_order r order id key data digestManifest →
      SetBigData sys order id key data digestManifest r = (r', res) → op_call r r' res
  | call_SetFlag sys id flag value r r' res :
      SetFlag sys id flag value r = (r', res) → op_call r r' res
  | call_ClearFlag sys id flag r r' res :
      ClearFlag sys id flag r = (r', res) → op_call r r' res
  | call_SetMetadata sys id metadata r r' res :
      SetMetadata sys id metadata r = (r', res) → op_call r r' res
  | call_addMappedTopLayer sys id layer r r' res :
      addMappedTopLayer sys id layer r = (r', res) → op_call r r' res
  | call_removeMappedTopLayer RemoveFromSlice sys id layer r r' res :
      removeMappedTopLayer RemoveFromSlice sys id layer r = (r', res) → op_call r r' res
  | call_Wipe sys order r r' res :
      range_of (byid r) order → Wipe sys order r = (r', res) → op_call r r' res.

(** [load_call r r' res]: one call of [Load] or of [ReloadIfChanged]. *)
Inductive load_call : imageStore → imageStore → result unit → Prop :=
  | call_Load sys orders r r' res :
      Load_orders r orders → Load sys orders r = (r', res) → load_call r r' res
  | call_ReloadIfChanged modified sys orders r r' res :
      Load_orders r orders →
      ReloadIfChanged modified sys orders r = (r', res) → load_call r r' res.

(** The image that [Create] makes of its arguments: the names without
    duplicates, the digest list of an image without big data, and the current
    time for a zero [created]. *)
Definition Create_image (now : Z) (id : string) (names : list string)
    (layer metadata : string) (created : Z) (searchableDigest : digest.Digest) : Image :=
  mkImage id searchableDigest (if decide (searchableDigest = "") then [] else [searchableDigest])
    (dedupeNames names) [] layer [] metadata [] ∅ ∅
    (if decide (created = 0%Z) then now else created) false ∅.

(** What [SetBigData] makes of the image once the blob is written: the
    cached size and digest of the item, and its name if it is new. *)
Definition SetBigData_image (key : string) (data : list Byte.byte)
    (newDigest : digest.Digest) (i : Image) : Image :=
  set_BigData
    (if negb (bool_decide (key ∈ BigDataNames i)) then BigDataNames i ++ [key]
     else BigDataNames i)
    (<[key := Z.of_nat (length data)]> (BigDataSizes i))
    (<[key := newDigest]> (BigDataDigests i)) i.

(** The value of [save] at the end of [SetBigData]. *)
Definition SetBigData_save (key : string) (data : list Byte.byte)
    (newDigest : digest.Digest) (i : Image) : bool :=
  match BigDataSizes i !! key, BigDataDigests i !! key with
  | Some oldSize, Some oldDigest =>
    negb (bool_decide (oldSize = Z.of_nat (length data))) ||
    negb (bool_decide (oldDigest = newDigest))
  | _, _ => true
  end || negb (bool_decide (key ∈ BigDataNames i)).

(** The last loop of [SetBigData]: the image is appended to the bucket of
    each of its digests that does not hold it. *)
Definition SetBigData_index (image : loc) (ds : list digest.Digest)
    (m : gmap digest.Digest (list loc)) : gmap digest.Digest (list loc) :=
  foldl (λ m newDigest,
           let list := default [] (m !! newDigest) in
           if decide (length list = length (imageSliceWithoutValue list image))
           then <[newDigest := (list ++ [image])]> m else m)
        m ds.

(** [i'] is [i] but for its digests and for what it records of its big
    data, where only the item [key] can differ. *)
Definition bigdata_only (key : string) (i i' : Image) : Prop :=
  i' = set_Digest (Digest i')
         (set_Digests (Digests i')
            (set_BigData (BigDataNames i') (BigDataSizes i') (BigDataDigests i') i)) ∧
  (BigDataNames i' = BigDataNames i ∨ BigDataNames i' = BigDataNames i ++ [key]) ∧
  (∀ k, k ≠ key → BigDataSizes i' !! k = BigDataSizes i !! k) ∧
  (∀ k, k ≠ key → BigDataDigests i' !! k = BigDataDigests i !! k).

(** The store once [Delete] has taken the image [p], which is at index [k]
    of the list, out of the list and of the indices. *)
Definition Delete_removed (r : imageStore) (p : loc) (k : nat) : imageStore :=
  let i := deref (mem r) p in
  set_index (delete k (images r)) (truncindex.Delete (idindex r) (ID i))
    (delete (ID i) (byid r))
    (foldl (λ bn name, delete name bn) (byname r) (Names i))
    (prune_digests p (Digests i) (bydigest r)) (mem r) r.

(** The records that [Load] goes through: those of the snapshot, none when
    there is no snapshot, and none either when the snapshot does not parse. *)
Definition snapshot_records (r : imageStore) : option (list Image) :=
  match imagesjson r with
  | NoFile => Some []
  | Unparseable _ => None
  | Document records => Some (jsonFields <$> records)
  end.

(** What the loop of [Load] knows about [digests] when it has gone through
    the first [k] records: a record gone through is in the bucket of each of
    its digests. *)
Definition load_complete_inv (orders : nat → list (string * digest.Digest))
    (recs : list Image) (k : nat) (st : loadState) : Prop :=
  ∀ j i' d, j < k → recomputeDigests (orders j) (deref recs j) = Ok i' →
            d ∈ Digests i' → j ∈ default [] (ld_digests st !! d).

(** The store that [Load] installs at the end of its loop. *)
Definition Load_installed (r : imageStore) (st : loadState) : imageStore :=
  set_index (seq 0 (length (ld_mem st))) (truncindex.NewTruncIndex (ld_idlist st))
    (ld_ids st) (ld_names st) (ld_digests st) (ld_mem st) r.

(** An image whose explicit digest and manifest digests validate has its
    [Digests] up to date and is in the bucket of each of them. *)
Definition digest_index_current (r : imageStore) : Prop :=
  Forall (λ q, digests_valid (deref (mem r) q) →
               digests_current (deref (mem r) q) ∧
               Forall (λ d, q ∈ default [] (bydigest r !! d)) (Digests (deref (mem r) q)))
         (images r).

(** [i'] has the fields of [i] that the indices are built on. *)
Definition index_fields (i i' : Image) : Prop :=
  ID i' = ID i ∧ Names i' = Names i ∧ Digest i' = Digest i ∧ Digests i' = Digests i ∧
  BigDataDigests i' = BigDataDigests i.

(** The list and the indices agree, and the by-digest map holds the images
    whose digests validate. *)
Definition store_inv (r : imageStore) : Prop :=
  store_wf r ∧ digest_index_current r.

(** The snapshot file holds the list of the store as [Save] writes it. *)
Definition synced (r : imageStore) : Prop :=
  imagesjson r = Document ((λ p, jsonRecord (deref (mem r) p)) <$> images r).

End Calls.

(** * Sample collaborators and inputs

    Concrete values at which the statements below are evaluated. *)

Definition is_lower_hex (c : Ascii.ascii) : bool :=
  let n := Ascii.nat_of_ascii c in
  ((48 <=? n) && (n <=? 57)) || ((97 <=? n) && (n <=? 102)).

(** A validator for the canonical form of a SHA-256 digest: "sha256:" and 64
    lower-case hexadecimal digits. *)
Definition sha256_shaped (d : digest.Digest) : bool :=
  String.prefix "sha256:" d && (String.length d =? 71) &&
  forallb is_lower_hex (drop 7 (String.list_ascii_of_string d)).

Definition digestA : digest.Digest := "sha256:aaaaaaaaaaaaaaaaaaaaaaaaaaaaaaaaaaaaaaaaaaaaaaaaaaaaaaaaaaaaaaaa".
Definition digestB : digest.Digest := "sha256:bbbbbbbbbbbbbbbbbbbbbbbbbbbbbbbbbbbbbbbbbbbbbbbbbbbbbbbbbbbbbbbb".
Definition digestC : digest.Digest := "sha256:cccccccccccccccccccccccccccccccccccccccccccccccccccccccccccccccc".
Definition digestE : digest.Digest := "sha256:eeeeeeeeeeeeeeeeeeeeeeeeeeeeeeeeeeeeeeeeeeeeeeeeeeeeeeeeeeeeeeee".

(** A stand-in for the SHA-256 of a blob, which only tells the empty blob from
    the others. *)
Definition toy_FromBytes (data : list Byte.byte) : digest.Digest :=
  match data with [] => digestE | _ => digestC end.

(** A name operation that puts the given names in front of the old ones, keeps
    the old ones that are not given, or takes the given ones alone. *)
Definition sample_applyNameOperation (oldNames opParameters : list string)
    (op : updateNameOperation) : result (list string) :=
  match op with
  | setNames => Ok (dedupeNames opParameters)
  | removeNames => Ok (dedupeNames (filter (λ n, n ∉ opParameters) oldNames))
  | addNames => Ok (dedupeNames (opParameters ++ oldNames))
  end.

(** U+FFFD in UTF-8. *)
Definition replacement_character : list Ascii.ascii :=
  [Ascii.ascii_of_nat 239; Ascii.ascii_of_nat 191; Ascii.ascii_of_nat 189].

Definition in_range (lo hi : nat) (c : Ascii.ascii) : bool :=
  (lo <=? Ascii.nat_of_ascii c) && (Ascii.nat_of_ascii c <=? hi).

(** What the encoder of encoding/json makes of the bytes of a string: a
    well-formed UTF-8 sequence is kept, and any other byte becomes U+FFFD. *)
Fixpoint utf8_coerce (l : list Ascii.ascii) : list Ascii.ascii :=
  match l with
  | [] => []
  | b0 :: l1 =>
    if in_range 0 127 b0 then b0 :: utf8_coerce l1
    else
      match l1 with
      | [] => replacement_character
      | b1 :: l2 =>
        if in_range 194 223 b0 && in_range 128 191 b1 then b0 :: b1 :: utf8_coerce l2
        else
          match l2 with
          | [] => replacement_character ++ utf8_coerce l1
          | b2 :: l3 =>
            if ((in_range 224 224 b0 && in_range 160 191 b1) ||
                (in_range 225 236 b0 && in_range 128 191 b1) ||
                (in_range 237 237 b0 && in_range 128 159 b1) ||
                (in_range 238 239 b0 && in_range 128 191 b1)) && in_range 128 191 b2
            then b0 :: b1 :: b2 :: utf8_coerce l3
            else
              match l3 with
              | [] => replacement_character ++ utf8_coerce l1
              | b3 :: l4 =>
                if ((in_range 240 240 b0 && in_range 144 191 b1) ||
                    (in_range 241 243 b0 && in_range 128 191 b1) ||
                    (in_range 244 244 b0 && in_range 128 143 b1)) &&
                   in_range 128 191 b2 && in_range 128 191 b3
                then b0 :: b1 :: b2 :: b3 :: utf8_coerce l4
                else replacement_character ++ utf8_coerce l1
              end
          end
      end
  end.

Definition json_string (s : string) : string :=
  String.string_of_list_ascii (utf8_coerce (String.list_ascii_of_string s)).

(** A stand-in for what an image is after [json.Marshal] and
    [json.Unmarshal]: every string of the image goes through [json_string].
    Of two keys of a map that become equal, the stand-in keeps one. *)
Definition sample_jsonCoerce (i : Image) : Image :=
  mkImage (json_string (ID i)) (json_string (Digest i)) (Digests i)
    (json_string <$> Names i) (json_string <$> NamesHistory i) (json_string (TopLayer i))
    (json_string <$> MappedTopLayers i) (json_string (Metadata i))
    (json_string <$> BigDataNames i)
    (list_to_map (prod_map json_string id <$> map_to_list (BigDataSizes i)))
    (list_to_map (prod_map json_string json_string <$> map_to_list (BigDataDigests i)))
    (Created i) (ReadOnly i)
    (list_to_map (prod_map json_string json_string <$> map_to_list (Flags i))).

Definition sample : Collaborators :=
  {| Validate := sha256_shaped;
     Validate_empty := eq_refl;
     FromBytes := toy_FromBytes;
     applyNameOperation := sample_applyNameOperation;
     jsonCoerce := sample_jsonCoerce |}.

(** No system call fails, and the encoding of the snapshot does not. *)
Definition sys_ok : Syscalls := mkSyscalls (λ _, false) (λ _ _, false).

(** An image with no explicit digest whose digest cache holds the digests of
    two manifests. *)
Definition twoManifests : Image :=
  mkImage "img1" "" [] [] [] "" [] "" ["manifest"; "manifest-arch"] ∅
    (<["manifest" := digestA]> {["manifest-arch" := digestB]}) 0 false ∅.

(** The order in which [gmap] itself enumerates the digest cache of the
    [n]-th record. *)
Definition gmap_orders (records : list Image) (n : nat) : list (string * digest.Digest) :=
  map_to_list (BigDataDigests (default zeroImage (records !! n))).

Definition store_of {A} (o : option (imageStore * A)) : imageStore :=
  match o with
  | Some (r, _) => r
  | None => emptyStore (mkLocker true true) NoFile ∅ ∅
  end.

(** A store opened read-write on an empty directory, in which "aaa" is
    created with the name "one" and the digest [digestA], then "bbb" with the
    names "aaa" (the ID of the first image) and "two". *)
Definition store1 : imageStore :=
  store_of (Create (H := sample) sys_ok [] 7 "aaa" ["one"] "layer1" "" 0 digestA
              (emptyStore (mkLocker true true) NoFile ∅ ∅)).
Definition store2 : imageStore :=
  store_of (Create (H := sample) sys_ok [] 8 "bbb" ["aaa"; "two"] "layer1" "" 0 "" store1).

(** The directory of [store2], opened read-only. *)
Definition store2_ro : imageStore :=
  (Load (H := sample) sys_ok (λ _, [])
        (emptyStore (mkLocker false false) (imagesjson store2) ∅ ∅)).1.

(** Making the data directory of an image fails; nothing else does. *)
Definition sys_no_mkdir : Syscalls :=
  mkSyscalls (λ c, match c with MkdirDataDir _ => true | _ => false end) (λ _ _, false).

(** A store with one image, "ccc", created with the digest [digestC], to
    which a manifest with the digest [digestA] is attached and then a second
    manifest with the digest [digestB]; the [range] of each recomputation
    visits "manifest" first. *)
Definition blob1 : list Byte.byte := [Byte.x01].
Definition blob2 : list Byte.byte := [Byte.x02; Byte.x03].
Definition store3a : imageStore :=
  store_of (Create (H := sample) sys_ok [] 7 "ccc" ["three"] "layer1" "" 0 digestC
              (emptyStore (mkLocker true true) NoFile ∅ ∅)).
Definition store3b : imageStore :=
  (SetBigData (H := sample) sys_ok [("manifest", digestA)]
     "ccc" "manifest" blob1 (Some (λ _, Ok digestA)) store3a).1.
Definition store3 : imageStore :=
  (SetBigData (H := sample) sys_ok [("manifest", digestA); ("manifest-arch", digestB)]
     "ccc" "manifest-arch" blob2 (Some (λ _, Ok digestB)) store3b).1.

(** The other order over the digest cache of "ccc". *)
Definition arch_first : list (string * digest.Digest) :=
  [("manifest-arch", digestB); ("manifest", digestA)].

(** Snapshots of two records that both claim the name "shared"; in the
    second snapshot the first record has a digest that is no digest. *)
Definition recA : Image :=
  mkImage "r1" "" [] ["shared"; "first"] [] "layer1" [] "" [] ∅ ∅ 0 false ∅.
Definition recB : Image :=
  mkImage "r2" "" [] ["second"; "shared"] [] "layer1" [] "" [] ∅ ∅ 0 false ∅.
Definition recBad : Image :=
  mkImage "r1" "bogus" [] ["shared"; "first"] [] "layer1" [] "" [] ∅ ∅ 0 false ∅.
Definition dupStore : imageStore :=
  emptyStore (mkLocker true true) (Document [recA; recB]) ∅ ∅.
Definition badStore : imageStore :=
  emptyStore (mkLocker true true) (Document [recBad; recB]) ∅ ∅.

(** The snapshot of [dupStore], opened read-only. *)
Definition dupStore_ro : imageStore :=
  emptyStore (mkLocker false false) (Document [recA; recB]) ∅ ∅.

(** A directory whose snapshot does not parse, [json.Unmarshal] having
    decoded one record, which has a digest, before it gave up. *)
Definition recD : Image :=
  mkImage "r1" digestA [] ["first"] [] "layer1" [] "" [] ∅ ∅ 0 false ∅.

(** A snapshot two records of which have the ID "r1". *)
Definition recTwin : Image :=
  mkImage "r1" "" [] ["second"] [] "layer1" [] "" [] ∅ ∅ 0 false ∅.
Definition twinStore : imageStore :=
  (Load (H := sample) sys_ok (λ _, [])
        (emptyStore (mkLocker true true) (Document [recD; recTwin]) ∅ ∅)).1.

(** Two IDs of one byte each, 0xE9 and 0xE8, neither of which is valid
    UTF-8, and a store in which an image is created with each. *)
Definition idE9 : string := String (Ascii.ascii_of_nat 233) EmptyString.
Definition idE8 : string := String (Ascii.ascii_of_nat 232) EmptyString.
Definition latin1Store : imageStore :=
  store_of (Create (H := sample) sys_ok [] 8 idE8 ["two"] "layer1" "" 0 ""
    (store_of (Create (H := sample) sys_ok [] 7 idE9 ["one"] "layer1" "" 0 ""
                 (emptyStore (mkLocker true true) NoFile ∅ ∅)))).

(** ** More sample inputs *)

(** [store2] with a third image, "ddd", created with the name "four" and the
    digest [digestB]. *)
Definition image4 : Image := Create_image 9 "ddd" ["four"] "layer2" "meta" 0 digestB.
Definition store4 : imageStore :=
  store_of (Create (H := sample) sys_ok [] 9 "ddd" ["four"] "layer2" "meta" 0 digestB store2).

(** The records of the snapshot of [store2]. *)
Definition records2 : list Image :=
  (λ p, jsonRecord (H := sample) (deref (mem store2) p)) <$> images store2.

(** A directory whose snapshot does not parse, one record having been
    decoded. *)
Definition corruptStore : imageStore :=
  emptyStore (mkLocker true true) (Unparseable [recA]) ∅ ∅.

(** Removing the data directory of an image fails; nothing else does. *)
Definition sys_no_rmdir : Syscalls :=
  mkSyscalls (λ c, match c with RemoveDataDir _ => true | _ => false end)
             (λ _ _, false).

(** No read of a blob file fails. *)
Definition rd_ok : FileReads := mkFileReads (λ _ _, false).

(** The order of the [range] over the digest cache of "ccc" that visits
    "manifest" first. *)
Definition manifest_first : list (string * digest.Digest) :=
  [("manifest", digestA); ("manifest-arch", digestB)].

(** The store over an empty directory from which [store1] and [store2] are
    made. *)
Definition newStore : imageStore := emptyStore (mkLocker true true) NoFile ∅ ∅.

(** * Properties *)

Section Properties.
Context `{Collaborators}.

(** ** Digest recomputation *)

Lemma recomputeDigests_body_inv acc entry acc' :
  recomputeDigests_body acc entry = Ok acc' →
  loop_inv acc →
  loop_inv acc' ∧ acc.1 `prefix_of` acc'.1 ∧
  (∀ d, d ∈ acc'.1 ↔ d ∈ acc.1 ∨ d = entry.2 ∧ bigDataNameIsManifest entry.1 = true).
Proof.
  destruct acc as [v s], entry as [name d]; simpl.
  intros Hstep (Hnd & Hset & Hval); simpl in *.
  destruct (bigDataNameIsManifest name) eqn:Hm; simpl in Hstep.
  - destruct (Validate d) eqn:Hv; simpl in Hstep; [|done].
    destruct (decide (d ∈ s)) as [Hin|Hnin]; inversion Hstep; subst; simpl.
    + split; [done|]. split; [done|]. intros d'. split; [auto|].
      intros [?|[-> _]]; [done|]. by apply Hset.
    + assert (d ∉ v) by (by rewrite <-Hset).
      repeat split; simpl.
      * apply NoDup_app. split; [done|]. split; [|apply NoDup_singleton].
        intros x Hx ->%list_elem_of_singleton. done.
      * intros Hd. apply elem_of_union in Hd as [->%elem_of_singleton|Hd].
        -- apply elem_of_app; right. by apply list_elem_of_singleton.
        -- apply elem_of_app; left. by apply Hset.
      * intros [Hd| ->%list_elem_of_singleton]%elem_of_app.
        -- apply elem_of_union; right. by apply Hset.
        -- apply elem_of_union; left. by apply elem_of_singleton.
      * apply Forall_app. split; [done|]. by apply Forall_singleton.
      * by apply prefix_app_r.
      * intros [?| ->%list_elem_of_singleton]%elem_of_app; auto.
      * intros [?|[-> _]]; apply elem_of_app; [by left|right].
        by apply list_elem_of_singleton.
  - inversion Hstep; subst; simpl. split; [done|]. split; [done|].
    intros d'. split; [auto|]. by intros [?|[_ ?]].
Qed.

Lemma recomputeDigests_loop_inv order : ∀ acc acc',
  foldM recomputeDigests_body acc order = Ok acc' →
  loop_inv acc →
  loop_inv acc' ∧ acc.1 `prefix_of` acc'.1 ∧
  (∀ d, d ∈ acc'.1 ↔ d ∈ acc.1 ∨ manifest_digest order d).
Proof.
  induction order as [|entry order IH]; intros acc acc' Hloop Hinv; simpl in Hloop.
  - inversion Hloop; subst. split; [done|]. split; [done|].
    intros d. split; [auto|]. intros [?|(name & Hin & _)]; [done|].
    by apply elem_of_nil in Hin.
  - destruct (recomputeDigests_body acc entry) as [acc1|] eqn:Hstep; simpl in Hloop; [|done].
    destruct (recomputeDigests_body_inv _ _ _ Hstep Hinv) as (Hinv1 & Hpre1 & Hmem1).
    destruct (IH _ _ Hloop Hinv1) as (Hinv' & Hpre' & Hmem').
    split; [done|]. split; [by etrans|].
    intros d. rewrite Hmem', Hmem1. unfold manifest_digest. split.
    + intros [[?|[-> Hm]]|(name & Hin & Hm)]; auto.
      * right. exists entry.1. split; [|done]. destruct entry; simpl. apply list_elem_of_here.
      * right. exists name. split; [|done]. by apply list_elem_of_further.
    + intros [?|(name & Hin & Hm)]; auto.
      apply elem_of_cons in Hin as [<-|Hin]; simpl; auto.
      right. by exists name.
Qed.

(** The loop fails exactly when some manifest entry carries a digest that
    does not validate. *)
Lemma recomputeDigests_loop_total order : ∀ acc,
  (∀ d, manifest_digest order d → Validate d = true) →
  ∃ acc', foldM recomputeDigests_body acc order = Ok acc'.
Proof.
  induction order as [|[name d] order IH]; intros acc Hval; simpl; [by eexists|].
  assert (∃ acc1, recomputeDigests_body acc (name, d) = Ok acc1) as [acc1 ->].
  { destruct acc as [v s]; simpl.
    destruct (bigDataNameIsManifest name) eqn:Hm; simpl; [|by eexists].
    rewrite (Hval d); simpl; [|exists name; split; [apply list_elem_of_here|done]].
    destruct (decide (d ∈ s)); by eexists. }
  simpl. apply IH. intros d' (name' & Hin & Hm). apply Hval.
  exists name'. split; [by apply list_elem_of_further|done].
Qed.

Lemma recomputeDigests_spec order i i' :
  recomputeDigests order i = Ok i' →
  NoDup (Digests i') ∧
  Forall (λ d, Validate d = true) (Digests i') ∧
  (Digest i ≠ "" → Digest i' = Digest i ∧ Validate (Digest i) = true) ∧
  (Digest i = "" → Digest i' = default "" (head (Digests i'))) ∧
  (Digest i' ≠ "" → head (Digests i') = Some (Digest i')) ∧
  (∀ d, d ∈ Digests i' ↔ (Digest i ≠ "" ∧ d = Digest i) ∨ manifest_digest order d) ∧
  i' = set_Digests (Digests i') (set_Digest (Digest i') i).
Proof.
  unfold recomputeDigests. intros Hr.
  destruct (decide (Digest i ≠ "")) as [Hne|He].
  - destruct (Validate (Digest i)) eqn:Hv; simpl in Hr; [|done].
    destruct (foldM _ _ _) as [[v s]|] eqn:Hloop; simpl in Hr; [|done].
    apply recomputeDigests_loop_inv in Hloop as (Hinv & Hpre & Hmem).
    2:{ split_and!; simpl.
        - apply NoDup_singleton.
        - intros d. by rewrite elem_of_singleton, list_elem_of_singleton.
        - by apply Forall_singleton. }
    simpl in *. rewrite decide_False in Hr by (intros [? _]; done).
    inversion Hr; subst; simpl. destruct Hinv as (Hnd & _ & Hval).
    destruct Hpre as [k ->]. simpl in *.
    split_and!; try done.
    intros d. rewrite Hmem, list_elem_of_singleton.
    split; [intros [->|?]; auto|intros [[_ ->]|?]; auto].
  - apply dec_stable in He. simpl in Hr.
    destruct (foldM _ _ _) as [[v s]|] eqn:Hloop; simpl in Hr; [|done].
    apply recomputeDigests_loop_inv in Hloop as (Hinv & Hpre & Hmem).
    2:{ split_and!; simpl; [apply NoDup_nil_2|set_solver|done]. }
    simpl in *. destruct Hinv as (Hnd & _ & Hval).
    assert (Hmem' : ∀ d, d ∈ v ↔ Digest i ≠ "" ∧ d = Digest i ∨ manifest_digest order d).
    { intros d. rewrite Hmem, elem_of_nil.
      split; [intros [[]|?]; auto|intros [[? _]|?]; [done|auto]]. }
    destruct v as [|d v].
    + rewrite decide_False in Hr by (simpl; intros [_ ?]; lia).
      inversion Hr; subst; simpl.
      split_and!; try done; try (by rewrite He); destruct i; simpl in *; by subst.
    + rewrite decide_True in Hr by (simpl; split; [done|lia]).
      inversion Hr; subst; simpl. split_and!; try done.
Qed.


(** What recomputation establishes: no duplicate in [Digests], only digests
    that validate, and a non-empty [Digest] in front. *)
Lemma recomputeDigests_digests_ok order i i' :
  recomputeDigests order i = Ok i' →
  NoDup (Digests i') ∧
  Forall (λ d, Validate d = true) (Digests i') ∧
  (Digest i' ≠ "" → Digest i' ∈ Digests i' ∧ head (Digests i') = Some (Digest i')).
Proof.
  intros Hr. destruct (recomputeDigests_spec _ _ _ Hr) as (Hnd & Hval & _ & _ & Hhd & _).
  split; [done|]. split; [done|]. intros Hne. specialize (Hhd Hne).
  split; [|done]. destruct (Digests i'); simplify_eq/=. apply list_elem_of_here.
Qed.

(** The two orders in which a [range] can visit a map of two entries. *)
Lemma range_of_pair {V} (k1 k2 : string) (v1 v2 : V) order :
  k1 ≠ k2 →
  range_of (<[k1 := v1]> {[k2 := v2]}) order →
  order = [(k1, v1); (k2, v2)] ∨ order = [(k2, v2); (k1, v1)].
Proof.
  intros Hne Hr. unfold range_of in Hr.
  rewrite map_to_list_insert in Hr by (by rewrite lookup_singleton_ne).
  rewrite map_to_list_singleton in Hr.
  symmetry in Hr. by apply Permutation_length_2_inv in Hr.
Qed.

(** C1, as the code has it.  With no explicit [Digest] and the digest cache
    [{"manifest": D1, "manifest-arch": D2}], recomputation succeeds and the
    result follows the order of the [range] over the cache: [Digests] is
    [[D1; D2]] and [Digest] is [D1] when "manifest" is visited first,
    [[D2; D1]] and [D2] when "manifest-arch" is. *)
Theorem recomputeDigests_manifest_pair (D1 D2 : digest.Digest) i order :
  Validate D1 = true → Validate D2 = true → D1 ≠ D2 →
  Digest i = "" →
  BigDataDigests i = <["manifest" := D1]> {["manifest-arch" := D2]} →
  range_of (BigDataDigests i) order →
  ∃ i', recomputeDigests order i = Ok i' ∧
    ((order = [("manifest", D1); ("manifest-arch", D2)] ∧
      Digests i' = [D1; D2] ∧ Digest i' = D1) ∨
     (order = [("manifest-arch", D2); ("manifest", D1)] ∧
      Digests i' = [D2; D1] ∧ Digest i' = D2)).
Proof.
  intros HD1 HD2 Hne Hd Hm Hr. rewrite Hm in Hr.
  apply range_of_pair in Hr; [|done]. destruct Hr as [-> | ->].
  - unfold recomputeDigests. rewrite decide_False by (intros ?; done). simpl.
    change (bigDataNameIsManifest "manifest") with true.
    change (bigDataNameIsManifest "manifest-arch") with true. simpl.
    rewrite HD1. simpl. rewrite decide_False by (by intros ?%elem_of_empty). simpl.
    rewrite HD2. simpl.
    rewrite decide_False by (intros [?%elem_of_singleton|?%elem_of_empty]%elem_of_union; congruence).
    simpl.
    rewrite decide_True by (split; [done|lia]).
    eexists. split; [done|]. left. done.
  - unfold recomputeDigests. rewrite decide_False by (intros ?; done). simpl.
    change (bigDataNameIsManifest "manifest") with true.
    change (bigDataNameIsManifest "manifest-arch") with true. simpl.
    rewrite HD2. simpl. rewrite decide_False by (by intros ?%elem_of_empty). simpl.
    rewrite HD1. simpl.
    rewrite decide_False by (intros [?%elem_of_singleton|?%elem_of_empty]%elem_of_union; congruence).
    simpl.
    rewrite decide_True by (split; [done|lia]).
    eexists. split; [done|]. right. done.
Qed.

(** ** Helpers of the store *)

Lemma elem_of_dedupeNames names n : n ∈ dedupeNames names ↔ n ∈ names.
Proof.
  induction names as [|x names IH]; simpl; [done|].
  rewrite !elem_of_cons, list_elem_of_filter, IH.
  destruct (decide (n = x)) as [->|Hne]; [split; auto|].
  split; [intros [?|[_ ?]]; auto|intros [?|?]; auto].
Qed.

Lemma bigDataNameIsManifest_nonempty key : bigDataNameIsManifest key = true → key ≠ "".
Proof. intros Hm ->. discriminate Hm. Qed.

Lemma GenerateUnusedID_unused (ids : gmap string loc) rand id :
  GenerateUnusedID ids rand = Some id → ids !! id = None.
Proof.
  induction rand as [|x rand IH]; simpl; [done|].
  destruct (decide (is_Some (ids !! x))) as [|Hn]; [done|].
  intros [= <-]. by apply eq_None_not_Some.
Qed.

(** The retry loop ends as soon as the generator returns an unused ID. *)
Lemma GenerateUnusedID_total (ids : gmap string loc) rand :
  List.Exists (λ x, ids !! x = None) rand → is_Some (GenerateUnusedID ids rand).
Proof.
  induction 1 as [x rand Hx|x rand _ IH]; simpl.
  - rewrite decide_False; [by eexists|]. rewrite Hx. by intros [? ?].
  - destruct (decide (is_Some (ids !! x))); [done|by eexists].
Qed.

(** The name check of [Create]. *)
Lemma Create_names_check (bn : gmap string loc) names :
  foldM (λ (_ : ()) name, if decide (is_Some (bn !! name))
                          then Err ErrDuplicateName else Ok ()) () names
  = if decide (List.Exists (λ name, is_Some (bn !! name)) names)
    then Err ErrDuplicateName else Ok ().
Proof.
  induction names as [|x names IH]; simpl.
  - done.
  - destruct (decide (is_Some (bn !! x))) as [Hx|Hx]; simpl.
    + rewrite decide_True; [done|]. by left.
    + rewrite IH. destruct (decide (List.Exists _ names)) as [He|He].
      * rewrite decide_True; [done|]. by right.
      * rewrite decide_False; [done|]. by intros [?|?]%Exists_cons.
Qed.

(** C3, as the code has it.  In a writable store, a [Create] whose requested
    (non-empty) ID is in use, or one of whose names is bound, fails with the
    duplicate-ID or the duplicate-name error and returns the store as it was:
    list, heap and indices are unchanged, and so is what [Get] returns for
    every ID or name.  When no ID is requested the generator has to come up
    with an unused one first. *)
Theorem Create_conflict sys rand now id names layer metadata created searchableDigest r :
  IsReadWrite (lockfile r) = true →
  (id ≠ "" ∧ is_Some (byid r !! id)) ∨ (∃ name, name ∈ names ∧ is_Some (byname r !! name)) →
  (id = "" → List.Exists (λ x, byid r !! x = None) rand) →
  ∃ e r',
    Create sys rand now id names layer metadata created searchableDigest r
      = Some (r', (None, Err e)) ∧
    (e = ErrDuplicateID ∨ e = ErrDuplicateName) ∧
    (id ≠ "" → is_Some (byid r !! id) → e = ErrDuplicateID) ∧
    r' = r ∧ (∀ x, Get r' x = Get r x).
Proof.
  intros Hrw Hdup Hrand. unfold Create. rewrite Hrw. simpl.
  destruct (decide (id = "")) as [->|Hid].
  - destruct Hdup as [[? _]|(name & Hin & Hbound)]; [done|].
    destruct (GenerateUnusedID_total _ _ (Hrand eq_refl)) as [id' Hgen].
    rewrite Hgen. simpl. apply GenerateUnusedID_unused in Hgen.
    rewrite decide_False by (rewrite Hgen; by intros [? ?]).
    rewrite Create_names_check, decide_True.
    + exists ErrDuplicateName, r. split_and!; auto. done.
    + apply Exists_exists. exists name. split; [|done]. by apply elem_of_dedupeNames.
  - simpl. destruct (decide (is_Some (byid r !! id))) as [Hin|Hnin].
    + exists ErrDuplicateID, r. split_and!; auto.
    + destruct Hdup as [[_ ?]|(name & Hin & Hbound)]; [done|].
      rewrite Create_names_check, decide_True.
      * exists ErrDuplicateName, r. split_and!; auto. done.
      * apply Exists_exists. exists name. split; [|done]. by apply elem_of_dedupeNames.
Qed.

(** On a store that is not read-write [Create] fails before it looks at the
    ID or the names. *)
Lemma Create_read_only sys rand now id names layer metadata created searchableDigest r :
  IsReadWrite (lockfile r) = false →
  Create sys rand now id names layer metadata created searchableDigest r
    = Some (r, (None, Err ErrStoreIsReadOnly)).
Proof. intros Hro. unfold Create. by rewrite Hro. Qed.

(** A copy has the fields of the image it is made of. *)
Lemma copyImage_deref (m : list Image) p : copyImage m p = deref m p.
Proof. unfold copyImage. by destruct (deref m p). Qed.

(** C9.  In a store none of whose buckets is empty, [ByDigest] fails with
    [ErrImageUnknown] for a digest under which no image is indexed.  For a
    digest with an indexed image it returns one image for each image of the
    bucket, in the order of the bucket, and the image returned for [p] is,
    field by field, the image that the store holds at [p].  A list that
    [ByDigest] returns is never empty. *)
Theorem ByDigest_spec r d :
  buckets_nonempty r →
  ((∀ p, p ∉ default [] (bydigest r !! d)) → ByDigest r d = Err ErrImageUnknown) ∧
  (∀ p, p ∈ default [] (bydigest r !! d) →
        ByDigest r d = Ok (deref (mem r) <$> default [] (bydigest r !! d))) ∧
  (∀ l, ByDigest r d = Ok l →
        l ≠ [] ∧ l = deref (mem r) <$> default [] (bydigest r !! d)).
Proof.
  intros Hne. unfold ByDigest, copyImageSlice.
  destruct (bydigest r !! d) as [l|] eqn:Hl; simpl.
  - apply Hne in Hl.
    assert (Hcopy : (if decide (0 < length l) then copyImage (mem r) <$> l else [])
                    = deref (mem r) <$> l).
    { rewrite decide_True by (destruct l; simpl; [done|lia]).
      apply list_fmap_ext. intros j p _. apply copyImage_deref. }
    rewrite Hcopy. split_and!.
    + intros Hnone. destruct l as [|p l]; [done|].
      destruct (Hnone p). apply list_elem_of_here.
    + done.
    + intros l' [= <-]. split; [|done]. by destruct l.
  - split_and!; [done|by intros p ?%elem_of_nil|done].
Qed.

(** C10, as the code has it.  On an existing image of a writable store, with
    a key that has the "manifest" prefix and no digest callback, [SetBigData]
    fails with [ErrDigestUnknown] once the data directory of the image is
    made: no blob is written, and the heap, the list, the indices and the
    snapshot are unchanged. *)
Theorem SetBigData_no_callback sys order id key data r p :
  IsReadWrite (lockfile r) = true →
  lookup r id = Some p →
  bigDataNameIsManifest key = true →
  fails sys (MkdirDataDir (ID (deref (mem r) p))) = false →
  ∃ r', SetBigData sys order id key data None r = (r', Err ErrDigestUnknown) ∧
        bigdata r' = bigdata r ∧ mem r' = mem r ∧ images r' = images r ∧
        byid r' = byid r ∧ byname r' = byname r ∧ bydigest r' = bydigest r ∧
        idindex r' = idindex r ∧ imagesjson r' = imagesjson r.
Proof.
  intros Hrw Hp Hkey Hmk. unfold SetBigData.
  rewrite decide_False by (by apply bigDataNameIsManifest_nonempty).
  rewrite Hrw, Hp. simpl. rewrite Hmk. unfold newDigest_of. rewrite Hkey.
  eexists. split; [done|]. done.
Qed.

(** When the data directory cannot be made, [SetBigData] returns that error,
    whatever the key and the callback. *)
Lemma SetBigData_mkdir_fails sys order id key data digestManifest r p :
  key ≠ "" →
  IsReadWrite (lockfile r) = true →
  lookup r id = Some p →
  fails sys (MkdirDataDir (ID (deref (mem r) p))) = true →
  SetBigData sys order id key data digestManifest r = (r, Err ErrIO).
Proof.
  intros Hkey Hrw Hp Hmk. unfold SetBigData.
  rewrite decide_False by done. rewrite Hrw, Hp. simpl. by rewrite Hmk.
Qed.

(** ** The heap *)

Lemma deref_alter f (m : list Image) p q :
  deref (alter f p m) q = if decide (p = q ∧ p < length m) then f (deref m q) else deref m q.
Proof.
  unfold deref. destruct (decide (p = q)) as [->|Hne].
  - rewrite list_lookup_alter_eq. destruct (decide (q < length m)) as [Hlt|Hge].
    + rewrite decide_True by done.
      destruct (m !! q) eqn:E; [done|]. apply lookup_ge_None in E. lia.
    + rewrite decide_False by (intros [_ ?]; done).
      rewrite lookup_ge_None_2 by lia. done.
  - rewrite list_lookup_alter_ne by done. rewrite decide_False by (intros [? _]; done). done.
Qed.

Lemma deref_insert i (m : list Image) p q :
  deref (<[p := i]> m) q = if decide (p = q ∧ p < length m) then i else deref m q.
Proof.
  unfold deref. destruct (decide (p = q)) as [->|Hne].
  - destruct (decide (q < length m)) as [Hlt|Hge].
    + rewrite decide_True by done. by rewrite list_lookup_insert_eq.
    + rewrite decide_False by (intros [_ ?]; done).
      rewrite list_insert_ge by lia. done.
  - rewrite list_lookup_insert_ne by done. rewrite decide_False by (intros [? _]; done). done.
Qed.

Lemma deref_app_l (m m' : list Image) p : p < length m → deref (m ++ m') p = deref m p.
Proof. intros Hp. unfold deref. by rewrite lookup_app_l. Qed.

Lemma deref_app_r (m : list Image) i : deref (m ++ [i]) (length m) = i.
Proof. unfold deref. rewrite lookup_app_r by lia. by rewrite Nat.sub_diag. Qed.

Lemma set_Names_id i : set_Names (Names i) i = i.
Proof. by destruct i. Qed.

(** ** Loops over an index *)

Lemma lookup_foldl_delete {V} (bn : gmap string V) names n :
  foldl (λ bn name, delete name bn) bn names !! n
  = if decide (n ∈ names) then None else bn !! n.
Proof.
  revert bn. induction names as [|x names IH]; intros bn; simpl; [done|].
  rewrite IH. destruct (decide (n ∈ names)) as [Hin|Hnin].
  - rewrite decide_True; [done|]. by apply list_elem_of_further.
  - destruct (decide (n = x)) as [->|Hne].
    + rewrite decide_True by apply list_elem_of_here. apply lookup_delete_eq.
    + rewrite decide_False by (intros [?|?]%elem_of_cons; done).
      by apply lookup_delete_ne.
Qed.

Lemma lookup_foldl_insert {V} (bn : gmap string V) names (p : V) n :
  foldl (λ bn name, <[name := p]> bn) bn names !! n
  = if decide (n ∈ names) then Some p else bn !! n.
Proof.
  revert bn. induction names as [|x names IH]; intros bn; simpl; [done|].
  rewrite IH. destruct (decide (n ∈ names)) as [Hin|Hnin].
  - rewrite decide_True; [done|]. by apply list_elem_of_further.
  - destruct (decide (n = x)) as [->|Hne].
    + rewrite decide_True by apply list_elem_of_here. apply lookup_insert_eq.
    + rewrite decide_False by (intros [?|?]%elem_of_cons; done).
      by apply lookup_insert_ne.
Qed.

(** ** Deduplication *)

Lemma dedupeNames_filter (P : string → Prop) `{∀ x, Decision (P x)} names :
  dedupeNames (filter P names) = filter P (dedupeNames names).
Proof.
  induction names as [|x names IH]; simpl; [done|].
  destruct (decide (P x)) as [HP|HP].
  - rewrite (filter_cons_True P) by done. rewrite (filter_cons_True P) by done.
    simpl. f_equal. rewrite IH, !list_filter_filter.
    apply list_filter_iff. intros y. tauto.
  - rewrite (filter_cons_False P) by done. rewrite (filter_cons_False P) by done.
    rewrite IH, list_filter_filter. apply list_filter_iff. intros y.
    split; [|by intros [? ?]]. intros Hy. split; [done|]. by intros ->.
Qed.

Lemma dedupeNames_idemp names : dedupeNames (dedupeNames names) = dedupeNames names.
Proof.
  induction names as [|x names IH]; simpl; [done|]. f_equal.
  rewrite dedupeNames_filter, IH, list_filter_filter.
  apply list_filter_iff. intros y. tauto.
Qed.

Lemma dedupeNames_app_dedupeNames l1 l2 :
  dedupeNames (l1 ++ dedupeNames l2) = dedupeNames (l1 ++ l2).
Proof.
  induction l1 as [|x l1 IH]; simpl; [apply dedupeNames_idemp|]. by rewrite IH.
Qed.

Lemma NoDup_dedupeNames names : NoDup (dedupeNames names).
Proof.
  induction names as [|x names IH]; simpl; [apply NoDup_nil_2|].
  apply NoDup_cons. split.
  - rewrite list_elem_of_filter. by intros [? _].
  - by apply NoDup_filter.
Qed.

(** ** Save *)

(** [Save] touches nothing but the snapshot file. *)
Lemma Save_store sys r :
  ∃ f, (Save sys r).1 = set_imagesjson f r.
Proof.
  unfold Save. exists (if negb (IsReadWrite (lockfile r)) then imagesjson r
    else if negb (Locked (lockfile r)) then imagesjson r
    else if fails sys MkdirStoreDir then imagesjson r
    else if fails sys Marshal then imagesjson r
    else if fails sys WriteSnapshot then imagesjson r
    else Document ((λ p, jsonRecord (deref (mem r) p)) <$> images r)).
  destruct r as [[rw lk] ? ? ? ? ? ? ? ? ?]; simpl.
  destruct rw, lk, (fails sys MkdirStoreDir), (fails sys Marshal), (fails sys WriteSnapshot),
    (fails sys Touch); done.
Qed.

Lemma Save_ok sys r r' :
  Save sys r = (r', Ok ()) →
  r' = set_imagesjson (Document ((λ p, jsonRecord (deref (mem r) p)) <$> images r)) r.
Proof.
  unfold Save. destruct (negb _); [done|]. destruct (negb _); [done|].
  destruct (fails sys MkdirStoreDir); [done|].
  destruct (fails sys Marshal); [done|].
  destruct (fails sys WriteSnapshot); [done|].
  destruct (fails sys Touch); [done|]. by intros [= <-].
Qed.

(** ** Filters *)

Lemma list_filter_id {A} (P : A → Prop) `{∀ x, Decision (P x)} (l : list A) :
  Forall P l → filter P l = l.
Proof.
  induction 1 as [|x l HP _ IH]; [done|]. rewrite filter_cons_True by done. by rewrite IH.
Qed.

Lemma set_Names_set_Names a b i : set_Names a (set_Names b i) = set_Names a i.
Proof. done. Qed.

(** [removeName] on any location, valid or not. *)
Lemma deref_removeName other name m q :
  deref (removeName other name m) q
  = set_Names (filter (λ n, ¬ (n = name ∧ other = q)) (Names (deref m q))) (deref m q).
Proof.
  unfold removeName. rewrite deref_alter.
  destruct (decide (other = q ∧ other < length m)) as [[-> Hlt]|Hn].
  - unfold stringSliceWithoutValue. f_equal. apply list_filter_iff.
    intros n. split; [by intros ? [? _]|]. intros Hn ->. by apply Hn.
  - destruct (decide (other = q)) as [->|Hne].
    + assert (deref m q = zeroImage) as ->; [|done].
      unfold deref. rewrite lookup_ge_None_2; [done|].
      destruct (decide (q < length m)); [|lia]. destruct Hn. done.
    + rewrite list_filter_id, set_Names_id; [done|].
      apply Forall_forall. by intros n _ [_ ?].
Qed.

(** ** updateNames *)

(** Putting names in front of a history one after the other. *)
Lemma foldl_history names : ∀ history,
  names ≠ [] →
  foldl (λ h n, dedupeNames ([n] ++ h)) history names
  = dedupeNames (reverse names ++ history).
Proof.
  induction names as [|x names IH]; intros history Hne; [done|].
  destruct names as [|y names]; [done|].
  change (foldl ?f history (x :: ?l)) with (foldl f (dedupeNames ([x] ++ history)) l).
  rewrite IH by done. rewrite dedupeNames_app_dedupeNames.
  rewrite (reverse_cons _ x). by rewrite <-app_assoc.
Qed.

(** The binding loop of [updateNames], from any heap and by-name map: what
    it does to the other images, to the history of [image] and to the map. *)
Lemma updateNames_bind_loop image names : ∀ m bn,
  length (foldl (updateNames_bind image) (m, bn) names).1 = length m ∧
  (∀ q, q ≠ image →
     deref (foldl (updateNames_bind image) (m, bn) names).1 q =
     set_Names (filter (λ n, ¬ (n ∈ names ∧ bn !! n = Some q)) (Names (deref m q)))
               (deref m q)) ∧
  (image < length m →
     NamesHistory (deref (foldl (updateNames_bind image) (m, bn) names).1 image)
     = foldl (λ h n, dedupeNames ([n] ++ h)) (NamesHistory (deref m image)) names) ∧
  (∀ n, (foldl (updateNames_bind image) (m, bn) names).2 !! n
        = if decide (n ∈ names) then Some image else bn !! n).
Proof.
  induction names as [|x names IH]; intros m bn.
  - simpl. split_and!; try done.
    intros q _. rewrite list_filter_id, set_Names_id; [done|].
    apply Forall_forall. by intros n _ [?%elem_of_nil _].
  - simpl.
    set (m0 := match bn !! x with
               | Some otherImage => removeName otherImage x m
               | None => m
               end).
    assert (Hm0 : ∀ q, deref m0 q =
      set_Names (filter (λ n, ¬ (n = x ∧ bn !! x = Some q)) (Names (deref m q))) (deref m q)).
    { intros q. unfold m0. destruct (bn !! x) as [other|].
      - rewrite deref_removeName. f_equal. apply list_filter_iff.
        intros n. split; intros Hn [-> Ho]; apply Hn; split; congruence.
      - rewrite list_filter_id, set_Names_id; [done|].
        apply Forall_forall. by intros n _ [_ ?]. }
    assert (Hlen0 : length m0 = length m).
    { unfold m0. destruct (bn !! x); [|done]. unfold removeName. apply length_alter. }
    destruct (IH (alter (addNameToHistory x) image m0) (<[x := image]> bn))
      as (Hlen & Hother & Hhist & Hbn).
    rewrite length_alter in Hlen, Hhist.
    split_and!.
    + congruence.
    + intros q Hq. rewrite (Hother q Hq). rewrite deref_alter.
      rewrite decide_False by (intros [? _]; done).
      rewrite Hm0. simpl. rewrite set_Names_set_Names. f_equal.
      rewrite list_filter_filter. apply list_filter_iff. intros n.
      rewrite elem_of_cons. destruct (decide (n = x)) as [->|Hne].
      * rewrite lookup_insert_eq. split.
        -- intros [_ Hn] [_ Hb]. apply Hn. done.
        -- intros Hn. split; [intros [_ [=]]; congruence|].
           intros [_ Hb]. apply Hn. split; [by left|done].
      * rewrite lookup_insert_ne by done. split.
        -- intros [Hn _] [[?|Hin] Hb]; [done|]. apply Hn. done.
        -- intros Hn. split; [|by intros [? _]].
           intros [Hin Hb]. apply Hn. split; [by right|done].
    + intros Himg. rewrite Hhist by lia. f_equal.
      rewrite deref_alter. rewrite decide_True by (split; [done|lia]).
      unfold addNameToHistory. simpl. by rewrite Hm0.
    + intros n. rewrite Hbn. destruct (decide (n ∈ names)) as [Hin|Hnin].
      * rewrite decide_True; [done|]. by apply list_elem_of_further.
      * destruct (decide (n = x)) as [->|Hne].
        -- rewrite decide_True by apply list_elem_of_here. apply lookup_insert_eq.
        -- rewrite decide_False by (intros [?|?]%elem_of_cons; done).
           by apply lookup_insert_ne.
Qed.

(** What [lookup] finds in a well-formed store is an image of the list. *)
Lemma lookup_sound r id p :
  byid_sound r → byname_sound r → lookup r id = Some p → p ∈ images r.
Proof.
  intros Hid Hname. unfold lookup.
  destruct (byid r !! id) as [q|] eqn:Hq.
  { intros [= <-]. by destruct (Hid _ _ Hq). }
  destruct (byname r !! id) as [q|] eqn:Hn.
  { intros [= <-]. by destruct (Hname _ _ Hn). }
  destruct (truncindex.Get (idindex r) id) as [longid|]; [|done].
  intros Hl. by destruct (Hid _ _ Hl).
Qed.

Lemma lookup_valid r id p : store_wf r → lookup r id = Some p → p < length (mem r).
Proof.
  intros (Hmem & Hid & Hname & _) Hl.
  eapply (proj1 (Forall_forall _ _) Hmem). by eapply lookup_sound.
Qed.

(** C5.  On an image [p] of a writable, well-formed store, [updateNames]
    makes [Names] of [p] the name set that [applyNameOperation] computes from
    the old one; a name of the new set that was bound to another image [q] is
    no longer a name of [q], and is bound to [p]; and the new names are put in
    front of [NamesHistory] of [p] one after the other, so that the history
    starts with the new names, the last one first, and holds no name twice. *)
Theorem updateNames_spec sys id names op r p names' :
  store_wf r →
  IsReadWrite (lockfile r) = true →
  lookup r id = Some p →
  applyNameOperation (Names (deref (mem r) p)) names op = Ok names' →
  ∃ r' res,
    updateNames sys id names op r = (r', res) ∧
    Names (deref (mem r') p) = names' ∧
    (∀ n q, n ∈ names' → byname r !! n = Some q → q ≠ p →
            n ∉ Names (deref (mem r') q)) ∧
    (∀ n, n ∈ names' → byname r' !! n = Some p) ∧
    (names' ≠ [] →
       NamesHistory (deref (mem r') p)
       = dedupeNames (reverse names' ++ NamesHistory (deref (mem r) p))) ∧
    (∀ n, n ∈ names' → n ∈ NamesHistory (deref (mem r') p)).
Proof.
  intros Hwf Hrw Hp Happly.
  pose proof (lookup_valid _ _ _ Hwf Hp) as Hvalid.
  destruct Hwf as (_ & Hid & Hname & _ & Hown & _).
  pose proof (lookup_sound _ _ _ Hid Hname Hp) as Hin.
  unfold updateNames. rewrite Hrw, Hp, Happly. simpl.
  set (bn0 := foldl (λ bn name, delete name bn) (byname r) (Names (deref (mem r) p))).
  destruct (updateNames_bind_loop p names' (mem r) bn0) as (Hlen & Hother & Hhist & Hbn).
  destruct (foldl (updateNames_bind p) (mem r, bn0) names') as [m bn]. simpl in *.
  destruct (Save_store sys (set_mem (alter (set_Names names') p m) (set_byname bn r)))
    as [f Hf].
  destruct (Save sys _) as [r' res]. simpl in Hf. subst r'. simpl.
  exists (set_imagesjson f (set_mem (alter (set_Names names') p m) (set_byname bn r))), res.
  split; [done|]. simpl.
  assert (Hhist' : names' ≠ [] →
    NamesHistory (deref (alter (set_Names names') p m) p)
    = dedupeNames (reverse names' ++ NamesHistory (deref (mem r) p))).
  { intros Hne. rewrite deref_alter, decide_True by (split; [done|lia]). simpl.
    rewrite Hhist by done. by apply foldl_history. }
  split_and!.
  - rewrite deref_alter, decide_True by (split; [done|lia]). done.
  - intros n q Hn Hq Hne. rewrite deref_alter, decide_False by (intros [? _]; done).
    rewrite Hother by done. simpl. rewrite list_elem_of_filter.
    intros [Hnot _]. apply Hnot. split; [done|].
    unfold bn0. rewrite lookup_foldl_delete.
    rewrite decide_False; [done|]. intros Hold.
    unfold names_indexed in Hown.
    rewrite Forall_forall in Hown. specialize (Hown p Hin).
    rewrite Forall_forall in Hown. specialize (Hown n Hold). congruence.
  - intros n Hn. rewrite Hbn. by rewrite decide_True.
  - done.
  - intros n Hn. rewrite Hhist' by (by intros ->; apply elem_of_nil in Hn).
    apply elem_of_dedupeNames, elem_of_app. left. by apply elem_of_reverse.
Qed.

(** ** Delete *)

Lemma prefix_refl s : String.prefix s s = true.
Proof.
  induction s as [|a s IH]; simpl; [done|].
  destruct (Ascii.ascii_dec a a); done.
Qed.

Lemma truncindex_Get_Some idx s x :
  truncindex.Get idx s = Some x → x ∈ idx ∧ String.prefix s x = true.
Proof.
  unfold truncindex.Get. destruct (String.eqb s ""); [done|].
  destruct (filter _ idx) as [|y [|z l]] eqn:Hf; [done| |done].
  intros [= ->].
  assert (x ∈ filter (λ id, String.prefix s id = true) idx) as Hx
    by (rewrite Hf; apply list_elem_of_here).
  apply list_elem_of_filter in Hx. tauto.
Qed.

(** The loop of [Delete] that looks for the index to delete: when no two
    images of the list share an ID, it finds the index of the image. *)
Lemma toDeleteIndex_unique (f : loc → string) (l : list loc) : ∀ start acc k c,
  NoDup (f <$> l) →
  l !! k = Some c →
  foldl (λ toDeleteIndex '(i, candidate),
           if decide (f candidate = f c) then Some i else toDeleteIndex)
        acc (zip (seq start (length l)) l)
  = Some (start + k).
Proof.
  induction l as [|c0 l IH]; intros start acc k c Hnd Hk; [done|].
  rewrite fmap_cons in Hnd. apply NoDup_cons in Hnd as [Hc0 Hnd]. simpl.
  destruct k as [|k]; simpl in Hk.
  - injection Hk as ->. rewrite decide_True by done.
    rewrite Nat.add_0_r. clear IH.
    assert (Hno : Forall (λ c', f c' ≠ f c) l).
    { apply Forall_forall. intros c' Hc' Heq. apply Hc0. rewrite <-Heq.
      by apply list_elem_of_fmap_2. }
    clear Hc0 Hnd. generalize (S start).
    induction Hno as [|c' l Hc' _ IHl]; intros s; simpl; [done|].
    rewrite decide_False by done. apply IHl.
  - rewrite decide_False.
    + rewrite (IH (S start) acc k c Hnd Hk). f_equal. lia.
    + intros Heq. apply Hc0. rewrite Heq. apply list_elem_of_fmap_2.
      by eapply list_elem_of_lookup_2.
Qed.

Lemma pruned_idemp image o : pruned image (pruned image o) = pruned image o.
Proof.
  unfold pruned, imageSliceWithoutValue.
  destruct (filter _ (default [] o)) as [|q l] eqn:Hf; [done|]. simpl.
  assert (filter (λ v, v ≠ image) (q :: l) = q :: l) as ->; [|done].
  rewrite <-Hf. apply list_filter_filter_r. done.
Qed.

Lemma prune_digests_lookup image ds : ∀ m d,
  prune_digests image ds m !! d
  = if decide (d ∈ ds) then pruned image (m !! d) else m !! d.
Proof.
  unfold prune_digests.
  induction ds as [|d0 ds IH]; intros m d; simpl; [done|].
  rewrite IH. clear IH.
  set (l0 := imageSliceWithoutValue (default [] (m !! d0)) image).
  assert (Hstep : (if decide (length l0 = 0) then delete d0 m else <[d0 := l0]> m) !! d
                  = if decide (d = d0) then pruned image (m !! d0) else m !! d).
  { destruct (decide (d = d0)) as [->|Hne].
    - unfold pruned. fold l0. destruct l0 as [|q l0]; simpl.
      + apply lookup_delete_eq.
      + apply lookup_insert_eq.
    - destruct (decide (length l0 = 0)).
      + by apply lookup_delete_ne.
      + by apply lookup_insert_ne. }
  rewrite Hstep. destruct (decide (d = d0)) as [->|Hne].
  - rewrite (decide_True (P := d0 ∈ d0 :: ds)) by apply list_elem_of_here.
    destruct (decide (d0 ∈ ds)); [apply pruned_idemp|done].
  - destruct (decide (d ∈ ds)) as [Hin|Hnin].
    + rewrite decide_True; [done|]. by apply list_elem_of_further.
    + rewrite decide_False; [done|]. by intros [?|?]%elem_of_cons.
Qed.

Lemma pruned_not_elem image o l : pruned image o = Some l → image ∉ l.
Proof.
  unfold pruned, imageSliceWithoutValue. intros Hp Hin.
  assert (image ∈ filter (λ v, v ≠ image) (default [] o)) as Hf.
  { destruct (filter _ (default [] o)); [done|]. by injection Hp as ->. }
  apply list_elem_of_filter in Hf as [? _]. done.
Qed.

Lemma list_elem_of_delete {A} (l : list A) k q :
  q ∈ delete k l ↔ ∃ j, j ≠ k ∧ l !! j = Some q.
Proof.
  split.
  - intros [j Hj]%list_elem_of_lookup_1. destruct (decide (j < k)).
    + exists j. split; [lia|]. by rewrite list_lookup_delete_lt in Hj.
    + exists (S j). split; [lia|]. by rewrite list_lookup_delete_ge in Hj by lia.
  - intros (j & Hne & Hj). destruct (decide (j < k)).
    + apply (list_elem_of_lookup_2 _ j). by rewrite list_lookup_delete_lt.
    + apply (list_elem_of_lookup_2 _ (pred j)).
      rewrite list_lookup_delete_ge by lia. replace (S (pred j)) with j by lia. done.
Qed.

(** C4, as the code has it.  After a successful [Delete] of the image [p]
    that [id] resolves to, in a writable, well-formed store: the ID of [p] is
    absent from the by-ID map, no image of the list has it, the former names
    of [p] are absent from the by-name map, and [p] is in no bucket of the
    by-digest map.  [Exists id] is false afterwards provided no remaining
    image has [id] among its names or has an ID that starts with [id]. *)
Theorem Delete_spec sys id r p r' :
  store_wf r →
  IsReadWrite (lockfile r) = true →
  lookup r id = Some p →
  Delete sys id r = (r', Ok ()) →
  byid r' !! ID (deref (mem r) p) = None ∧
  (p ∉ images r') ∧
  (∀ q, q ∈ images r' → ID (deref (mem r') q) ≠ ID (deref (mem r) p)) ∧
  (∀ n, n ∈ Names (deref (mem r) p) → byname r' !! n = None) ∧
  (∀ d l, bydigest r' !! d = Some l → p ∉ l) ∧
  ((∀ q, q ∈ images r' →
         (id ∉ Names (deref (mem r') q)) ∧
         String.prefix id (ID (deref (mem r') q)) = false) →
   Exists r' id = false).
Proof.
  intros Hwf Hrw Hp. unfold Delete. rewrite Hrw, Hp. simpl.
  destruct Hwf as (Hmem & Hid & Hname & Hidx & Hown & Huniq & Hdig).
  pose proof (lookup_sound _ _ _ Hid Hname Hp) as Hin.
  apply list_elem_of_lookup_1 in Hin as [k Hk].
  rewrite (toDeleteIndex_unique (λ q, ID (deref (mem r) q)) (images r) 0 None k p Huniq Hk).
  simpl.
  set (i := deref (mem r) p).
  assert (Hims : (if decide (k = length (images r) - 1)
                  then take (length (images r) - 1) (images r)
                  else (take k (images r) ++ drop (k + 1) (images r)))
                 = delete k (images r)).
  { pose proof (lookup_lt_Some _ _ _ Hk) as Hlt.
    rewrite delete_take_drop. destruct (decide _) as [->|_].
    - replace (S (length (images r) - 1)) with (length (images r)) by lia.
      by rewrite drop_all, app_nil_r.
    - by rewrite Nat.add_1_r. }
  rewrite Hims. clear Hims.
  set (r1 := set_index _ _ _ _ _ _ r).
  destruct (Save sys r1) as [r2 [[]|e]] eqn:Hsave; [|done].
  apply Save_ok in Hsave. subst r2.
  destruct (fails sys (RemoveDataDir (ID i))); [done|].
  intros [= <-]. simpl.
  assert (Hrest : ∀ q, q ∈ delete k (images r) → q ∈ images r ∧ ID (deref (mem r) q) ≠ ID i).
  { intros q (j' & Hne & Hj')%list_elem_of_delete.
    split; [by eapply list_elem_of_lookup_2|].
    intros Heq. apply Hne.
    eapply (NoDup_lookup _ _ _ _ Huniq); rewrite list_lookup_fmap.
    - rewrite Hj'. simpl. by rewrite Heq.
    - by rewrite Hk. }
  split_and!.
  - apply lookup_delete_eq.
  - intros Hq. by destruct (Hrest _ Hq) as [_ []].
  - intros q Hq. by destruct (Hrest _ Hq).
  - intros n Hn. rewrite lookup_foldl_delete. by rewrite decide_True.
  - intros d l. rewrite prune_digests_lookup. destruct (decide (d ∈ Digests i)).
    + apply pruned_not_elem.
    + intros Hl Hpl. destruct (Hdig _ _ Hl) as [_ Hall].
      rewrite Forall_forall in Hall. by destruct (Hall _ Hpl).
  - intros Hfree. unfold Exists. apply bool_decide_eq_false. intros [q Hq].
    revert Hq. unfold lookup. simpl.
    assert (Hbyid : ∀ x q, delete (ID i) (byid r) !! x = Some q →
                           q ∈ delete k (images r) ∧ ID (deref (mem r) q) = x).
    { intros x q' Hx. apply lookup_delete_Some in Hx as [Hne Hx].
      destruct (Hid _ _ Hx) as [Hq' <-]. split; [|done].
      apply list_elem_of_lookup_1 in Hq' as [j Hj]. apply list_elem_of_delete.
      exists j. split; [|done]. intros ->. rewrite Hk in Hj. by injection Hj as ->. }
    destruct (delete (ID i) (byid r) !! id) as [q'|] eqn:Hq'.
    { destruct (Hbyid _ _ Hq') as [Hin' Heq]. destruct (Hfree _ Hin') as [_ Hpre].
      rewrite Heq, prefix_refl in Hpre. done. }
    rewrite lookup_foldl_delete.
    destruct (decide (id ∈ Names i)) as [Hold|Hold].
    + destruct (truncindex.Get _ id) as [longid|] eqn:Hget; [|done].
      apply truncindex_Get_Some in Hget as [_ Hpre]. intros Hl.
      destruct (Hbyid _ _ Hl) as [Hin' Heq]. destruct (Hfree _ Hin') as [_ Hpre'].
      rewrite Heq in Hpre'. congruence.
    + destruct (byname r !! id) as [q'|] eqn:Hn.
      * intros _. destruct (Hname _ _ Hn) as [Hq'in Hq'n].
        destruct (decide (q' = p)) as [->|Hne]; [done|].
        assert (q' ∈ delete k (images r)) as Hin'.
        { apply list_elem_of_lookup_1 in Hq'in as [j Hj]. apply list_elem_of_delete.
          exists j. split; [|done]. intros ->. rewrite Hk in Hj. by injection Hj as ->. }
        by destruct (Hfree _ Hin') as [[] _].
      * destruct (truncindex.Get _ id) as [longid|] eqn:Hget; [|done].
        apply truncindex_Get_Some in Hget as [_ Hpre]. intros Hl.
        destruct (Hbyid _ _ Hl) as [Hin' Heq]. destruct (Hfree _ Hin') as [_ Hpre'].
        rewrite Heq in Hpre'. congruence.
Qed.

(** ** Digests that are up to date *)

Lemma elem_of_manifestDigests (m : gmap string digest.Digest) order d :
  range_of m order → d ∈ manifestDigests m ↔ manifest_digest order d.
Proof.
  intros Hr. unfold manifestDigests, manifest_digest.
  rewrite elem_of_list_to_set, list_elem_of_fmap. split.
  - intros ([name d'] & -> & [Hm Hin]%list_elem_of_filter). simpl in *.
    exists name. split; [|done]. by rewrite Hr.
  - intros (name & Hin & Hm). exists (name, d). split; [done|].
    apply list_elem_of_filter. split; [done|]. by rewrite <-Hr.
Qed.

(** Recomputation makes the digests of an image up to date. *)
Lemma recomputeDigests_makes_current order i i' :
  range_of (BigDataDigests i) order →
  recomputeDigests order i = Ok i' →
  digests_current i'.
Proof.
  intros Hr Hrec.
  pose proof (recomputeDigests_digests_ok _ _ _ Hrec) as (Hnd & Hval & Hhd).
  destruct (recomputeDigests_spec _ _ _ Hrec) as (_ & _ & Hne & He & _ & Hmem & Heq).
  assert (HB : BigDataDigests i' = BigDataDigests i) by (by rewrite Heq).
  assert (Hempty : Digest i' = "" → Digests i' = []).
  { intros Hd'. destruct (decide (Digest i = "")) as [Hd|Hd].
    - specialize (He Hd). destruct (Digests i') as [|d ds]; [done|]. simpl in He.
      apply Forall_cons in Hval as [Hv _]. rewrite <-He, Hd' in Hv.
      by rewrite Validate_empty in Hv.
    - destruct (Hne Hd) as [Hsame _]. congruence. }
  split; [|split; [|done]].
  - split; [done|]. split; [done|]. intros Hd. by destruct (Hhd Hd).
  - apply set_eq. intros d. rewrite elem_of_list_to_set, Hmem, elem_of_union, HB.
    rewrite (elem_of_manifestDigests _ order) by done.
    destruct (decide (Digest i = "")) as [Hd|Hd].
    + destruct (decide (Digest i' = "")) as [Hd'|Hd'].
      * rewrite elem_of_empty. tauto.
      * rewrite elem_of_singleton. split; [tauto|]. intros [->|?]; [|tauto].
        right. destruct (Hhd Hd') as [Hin _].
        apply Hmem in Hin as [[? _]|?]; done.
    + destruct (Hne Hd) as [Hsame _]. rewrite decide_False by congruence.
      rewrite elem_of_singleton, Hsame. tauto.
Qed.

(** Recomputing digests that are up to date changes at most the order of
    [Digests] behind its first element. *)
Lemma recomputeDigests_current order i i' :
  digests_current i →
  range_of (BigDataDigests i) order →
  recomputeDigests order i = Ok i' →
  i' = set_Digests (Digests i') i ∧
  Digests i' ≡ₚ Digests i ∧
  head (Digests i') = head (Digests i).
Proof.
  intros ((Hnd & _ & Hhd) & Hset & Hempty) Hr Hrec.
  destruct (recomputeDigests_spec _ _ _ Hrec) as (Hnd' & _ & Hne & He & Hhd' & Hmem & Heq).
  assert (Hsame : ∀ d, d ∈ Digests i' ↔ d ∈ Digests i).
  { intros d. rewrite Hmem, <-(elem_of_manifestDigests (BigDataDigests i)) by done.
    rewrite <-(elem_of_list_to_set (C := gset digest.Digest) d (Digests i)), Hset.
    rewrite elem_of_union. destruct (decide (Digest i = "")) as [Hd|Hd].
    - rewrite elem_of_empty. tauto.
    - rewrite elem_of_singleton. tauto. }
  assert (Hperm : Digests i' ≡ₚ Digests i) by (by apply NoDup_Permutation).
  destruct (decide (Digest i = "")) as [Hd|Hd].
  - specialize (Hempty Hd). rewrite Hempty in Hperm.
    apply Permutation_nil_r in Hperm. specialize (He Hd).
    rewrite Hperm in He. simpl in He.
    split; [|by rewrite Hperm, Hempty].
    rewrite Heq at 1. rewrite He, <-Hd. by destruct i.
  - destruct (Hne Hd) as [Hdig _]. split; [|split; [done|]].
    + rewrite Heq at 1. rewrite Hdig. by destruct i.
    + rewrite Hhd by done. rewrite <-Hdig. apply Hhd'. congruence.
Qed.

(** ** SetBigData *)

Lemma set_BigData_id i :
  set_BigData (BigDataNames i) (BigDataSizes i) (BigDataDigests i) i = i.
Proof. by destruct i. Qed.

(** C6, as the code has it.  A successful [SetBigData] on an image [p] has
    written the blob.  It has saved the snapshot exactly when the key was not
    in [BigDataNames], or the cached size was not the new size, or the cached
    digest was not the new digest.  Otherwise the snapshot is the one from
    before, and the record of an image whose digests were up to date is the
    one from before except, possibly, for the order of [Digests] behind its
    first element, which follows the order of the [range] over the cache. *)
Theorem SetBigData_persists sys order id key data digestManifest r p r' newDigest :
  store_wf r →
  lookup r id = Some p →
  newDigest_of key data digestManifest = Ok newDigest →
  SetBigData sys order id key data digestManifest r = (r', Ok ()) →
  bigdata r' !! (ID (deref (mem r) p), key) = Some data ∧
  ((key ∉ BigDataNames (deref (mem r) p)) ∨
   BigDataSizes (deref (mem r) p) !! key ≠ Some (Z.of_nat (length data)) ∨
   BigDataDigests (deref (mem r) p) !! key ≠ Some newDigest →
   imagesjson r' = Document ((λ q, jsonRecord (deref (mem r') q)) <$> images r')) ∧
  (key ∈ BigDataNames (deref (mem r) p) →
   BigDataSizes (deref (mem r) p) !! key = Some (Z.of_nat (length data)) →
   BigDataDigests (deref (mem r) p) !! key = Some newDigest →
   imagesjson r' = imagesjson r ∧
   (digests_current (deref (mem r) p) →
    range_of (BigDataDigests (deref (mem r) p)) order →
    deref (mem r') p = set_Digests (Digests (deref (mem r') p)) (deref (mem r) p) ∧
    Digests (deref (mem r') p) ≡ₚ Digests (deref (mem r) p) ∧
    head (Digests (deref (mem r') p)) = head (Digests (deref (mem r) p)))).
Proof.
  intros Hwf Hp Hnew. pose proof (lookup_valid _ _ _ Hwf Hp) as Hvalid.
  unfold SetBigData. destruct (decide (key = "")); [done|].
  destruct (negb (IsReadWrite (lockfile r))); [done|]. rewrite Hp, Hnew.
  set (i := deref (mem r) p).
  destruct (fails sys (MkdirDataDir (ID i))); [done|].
  destruct (fails sys (WriteBigData (ID i) key)); [done|]. simpl.
  set (size := Z.of_nat (length data)).
  set (save := match BigDataSizes i !! key, BigDataDigests i !! key with
               | Some oldSize, Some oldDigest =>
                 negb (bool_decide (oldSize = size)) || negb (bool_decide (oldDigest = newDigest))
               | _, _ => true
               end).
  set (addName := negb (bool_decide (key ∈ BigDataNames i))).
  set (i1 := set_BigData _ _ _ i).
  destruct (recomputeDigests order i1) as [i2|] eqn:Hrec; [|done].
  set (r2 := set_bydigest _ _).
  assert (Hmem2 : deref (mem r2) p = i2).
  { unfold r2. simpl. rewrite deref_insert, decide_True; [done|].
    split; [done|]. by rewrite length_insert. }
  assert (Hfiles2 : bigdata r2 !! (ID i, key) = Some data).
  { unfold r2. simpl. apply lookup_insert_eq. }
  assert (Hjson2 : imagesjson r2 = imagesjson r) by done.
  assert (Hsave : save || addName = true ↔
            (key ∉ BigDataNames i) ∨ BigDataSizes i !! key ≠ Some size ∨
            BigDataDigests i !! key ≠ Some newDigest).
  { unfold save, addName. rewrite orb_true_iff, negb_true_iff, bool_decide_eq_false.
    destruct (BigDataSizes i !! key) as [oldSize|], (BigDataDigests i !! key) as [oldDigest|].
    - rewrite orb_true_iff, !negb_true_iff, !bool_decide_eq_false.
      split.
      + intros [[Hs|Hd]|Hk]; [right; left; congruence|right; right; congruence|by left].
      + intros [Hk|[Hs|Hd]]; [by right|left; left; congruence|left; right; congruence].
    - split; [|by left]. intros _. right. by right.
    - split; [|by left]. intros _. right. by left.
    - split; [|by left]. intros _. right. by left. }
  destruct (save || addName) eqn:Hs.
  - intros Hsv. apply Save_ok in Hsv. subst r'. simpl.
    split; [done|]. split; [done|].
    intros Hk Hsz Hdg. exfalso.
    assert (true = true) as Ht by done. apply Hsave in Ht as [?|[?|?]]; done.
  - intros [= <-]. split; [done|]. split.
    { intros Hch. apply Hsave in Hch. done. }
    intros Hk Hsz Hdg. split; [done|]. intros Hcur Hr. rewrite Hmem2.
    assert (i1 = i) as Hi1.
    { unfold i1, addName. rewrite bool_decide_eq_true_2 by done. simpl.
      rewrite !insert_id by done. apply set_BigData_id. }
    rewrite Hi1 in Hrec. by apply (recomputeDigests_current order).
Qed.

(** ** Load *)

Lemma list_filter_ext_in {A} (P Q : A → Prop) `{∀ x, Decision (P x)} `{∀ x, Decision (Q x)}
    (l : list A) :
  (∀ x, x ∈ l → (P x ↔ Q x)) → filter P l = filter Q l.
Proof.
  induction l as [|x l IH]; intros Hext; [done|].
  rewrite !filter_cons. rewrite IH by (intros y Hy; apply Hext; by apply list_elem_of_further).
  destruct (decide (P x)) as [HP|HP], (decide (Q x)) as [HQ|HQ]; try done.
  - destruct HQ. by apply (Hext x); [apply list_elem_of_here|].
  - destruct HP. by apply (Hext x); [apply list_elem_of_here|].
Qed.

Lemma claimed_later_iff recs j k x :
  claimed_later recs j k x ↔ ∃ j', j < j' < k ∧ x ∈ Names (deref recs j').
Proof.
  unfold claimed_later. rewrite Exists_exists. split.
  - intros (j' & Hin & Hx). apply elem_of_seq in Hin. exists j'. split; [lia|done].
  - intros (j' & Hlt & Hx). exists j'. split; [|done]. apply elem_of_seq. lia.
Qed.

Lemma last_claimer_Some recs k x j :
  last_claimer recs k x = Some j ↔
  j < k ∧ x ∈ Names (deref recs j) ∧ ¬ claimed_later recs j k x.
Proof.
  rewrite claimed_later_iff. induction k as [|k IH]; simpl.
  - split; [done|]. intros [? _]. lia.
  - destruct (decide (x ∈ Names (deref recs k))) as [Hx|Hx].
    + split.
      * intros [= <-]. split; [lia|]. split; [done|]. intros (j' & ? & _). lia.
      * intros (Hlt & Hj & Hno). f_equal. destruct (decide (k = j)) as [|Hne]; [done|].
        destruct Hno. exists k. split; [lia|done].
    + rewrite IH. split.
      * intros (Hlt & Hj & Hno). split; [lia|]. split; [done|].
        intros (j' & Hj' & Hx'). destruct (decide (j' = k)) as [->|]; [done|].
        apply Hno. exists j'. split; [lia|done].
      * intros (Hlt & Hj & Hno). assert (j ≠ k) by (by intros ->).
        split; [lia|]. split; [done|]. intros (j' & Hj' & Hx').
        apply Hno. exists j'. split; [lia|done].
Qed.

Lemma last_claimer_is_Some recs k x :
  is_Some (last_claimer recs k x) ↔ ∃ j, j < k ∧ x ∈ Names (deref recs j).
Proof.
  induction k as [|k IH]; simpl.
  - split; [by intros [? ?]|]. intros (? & ? & _). lia.
  - destruct (decide (x ∈ Names (deref recs k))) as [Hx|Hx].
    + split; [|by eexists]. intros _. exists k. split; [lia|done].
    + rewrite IH. split; intros (j & Hlt & Hj).
      * exists j. split; [lia|done].
      * exists j. split; [|done]. assert (j ≠ k) by (by intros ->). lia.
Qed.

(** The first loop over the names of a record in [Load]. *)
Lemma Load_conflict_loop (names : gmap string loc) xs : ∀ m sv,
  length (foldl (Load_conflict names) (m, sv) xs).1 = length m ∧
  (∀ q, deref (foldl (Load_conflict names) (m, sv) xs).1 q =
        set_Names (filter (λ x, ¬ (x ∈ xs ∧ names !! x = Some q)) (Names (deref m q)))
                  (deref m q)) ∧
  (foldl (Load_conflict names) (m, sv) xs).2
  = sv || bool_decide (List.Exists (λ x, is_Some (names !! x)) xs).
Proof.
  induction xs as [|x xs IH]; intros m sv.
  - simpl. split; [done|]. split; [|by rewrite orb_false_r].
    intros q. rewrite list_filter_id, set_Names_id; [done|].
    apply Forall_forall. by intros n _ [?%elem_of_nil _].
  - simpl. destruct (names !! x) as [conflict|] eqn:Hx.
    + destruct (IH (removeName conflict x m) true) as (Hlen & Hmem & Hsv).
      split; [by rewrite Hlen; apply length_alter|]. split.
      * intros q. rewrite Hmem, deref_removeName. simpl.
        rewrite set_Names_set_Names. f_equal.
        rewrite list_filter_filter. apply list_filter_iff. intros n.
        rewrite elem_of_cons. split.
        -- intros [Hn Hc] [[->|Hin] Hq]; [|by apply Hn].
           apply Hc. split; [done|congruence].
        -- intros Hn. split.
           ++ intros [Hin Hq]. apply Hn. split; [by right|done].
           ++ intros [-> <-]. apply Hn. split; [by left|done].
      * rewrite Hsv. simpl.
        rewrite (bool_decide_eq_true_2 (List.Exists _ (x :: xs))); [by rewrite orb_true_r|].
        apply Exists_cons_hd. rewrite Hx. by eexists.
    + destruct (IH m sv) as (Hlen & Hmem & Hsv).
      split; [done|]. split.
      * intros q. rewrite Hmem. f_equal. apply list_filter_iff. intros n.
        rewrite elem_of_cons. split.
        -- intros Hn [[->|Hin] Hq]; [congruence|]. by apply Hn.
        -- intros Hn [Hin Hq]. apply Hn. split; [by right|done].
      * rewrite Hsv. f_equal. apply bool_decide_ext. rewrite Exists_cons, Hx.
        split; [by right|]. intros [[? ?]|?]; done.
Qed.

Lemma recomputeDigests_Names order i i' :
  recomputeDigests order i = Ok i' → Names i' = Names i ∧ ID i' = ID i ∧
  BigDataDigests i' = BigDataDigests i.
Proof.
  intros Hrec. destruct (recomputeDigests_spec _ _ _ Hrec) as (_ & _ & _ & _ & _ & _ & Heq).
  by rewrite Heq.
Qed.

(** One round of the loop of [Load] keeps [load_inv]. *)
Lemma Load_body_inv rw orders recs k st st' :
  load_inv rw orders recs k st →
  k < length recs →
  Load_body rw (orders k) st k = Ok st' →
  load_inv rw orders recs (S k) st'.
Proof.
  intros (HL & HU & HP & HN & HS) Hk. unfold Load_body.
  rewrite (HU k) by lia. set (rk := deref recs k).
  destruct (Load_conflict_loop (ld_names st) (Names rk) (ld_mem st) (ld_shouldSave st))
    as (Hlen1 & Hm1 & Hsv1).
  destruct (foldl (Load_conflict (ld_names st)) _ (Names rk)) as [m1 sv1]. simpl in *.
  assert (Hnames_lt : ∀ x j, ld_names st !! x = Some j → j < k).
  { intros x j. rewrite HN. intros Hj. apply last_claimer_Some in Hj. tauto. }
  assert (Hkeep : ∀ j, k ≤ j → deref m1 j = deref recs j).
  { intros j Hj. rewrite Hm1, list_filter_id, set_Names_id; [by apply HU|].
    apply Forall_forall. intros x _ [_ Hx]. apply Hnames_lt in Hx. lia. }
  rewrite (Hkeep k) by lia. fold rk.
  destruct (recomputeDigests (orders k) rk) as [image'|] eqn:Hrec; [|done]. simpl.
  destruct (recomputeDigests_Names _ _ _ Hrec) as (HNames & _).
  intros [= <-]. unfold load_inv. simpl. split_and!.
  - by rewrite length_alter, length_insert, Hlen1.
  - intros j Hj. rewrite deref_alter, decide_False by (intros [? _]; lia).
    rewrite deref_insert, decide_False by (intros [? _]; lia). apply Hkeep. lia.
  - intros j Hj. destruct (decide (j = k)) as [->|Hne].
    + exists image'. split; [done|].
      rewrite deref_alter, decide_True by (rewrite length_insert; split; [done|lia]).
      rewrite deref_insert, decide_True by (split; [done|lia]).
      rewrite list_filter_id.
      { fold rk. by rewrite <-HNames, set_Names_id. }
      apply Forall_forall. intros x _ Hc. apply claimed_later_iff in Hc as (j' & ? & _). lia.
    + destruct (HP j) as (i' & Hrecj & Hj'); [lia|]. exists i'. split; [done|].
      rewrite deref_alter, decide_False by (intros [? _]; done).
      rewrite deref_insert, decide_False by (intros [? _]; done).
      rewrite Hm1, Hj'. simpl. unfold set_ReadOnly, set_Names. simpl. f_equal.
      rewrite list_filter_filter. apply list_filter_ext_in. intros x Hx.
      rewrite HN, !claimed_later_iff. split.
      * intros [HA HB] (j' & Hj'' & Hx'). destruct (decide (j' = k)) as [->|].
        -- apply HA. split; [done|]. apply last_claimer_Some.
           split; [lia|]. split; [done|]. by rewrite claimed_later_iff.
        -- apply HB. exists j'. split; [lia|done].
      * intros Hno. split.
        -- intros [Hxk _]. apply Hno. exists k. split; [lia|done].
        -- intros (j' & Hj'' & Hx'). apply Hno. exists j'. split; [lia|done].
  - intros x. rewrite lookup_foldl_insert, HNames. fold rk.
    destruct (decide (x ∈ Names rk)); [done|apply HN].
  - rewrite Hsv1, orb_true_iff, HS, bool_decide_eq_true, Exists_exists. split.
    + intros [(j & j' & x & Hlt & Hx & Hx')|(x & Hx & Hs)].
      * exists j, j', x. split; [lia|done].
      * rewrite HN in Hs. apply last_claimer_is_Some in Hs as (j & Hj' & Hxj).
        exists j, k, x. split; [lia|done].
    + intros (j & j' & x & Hlt & Hx & Hx'). destruct (decide (j' = k)) as [->|].
      * right. exists x. split; [done|]. rewrite HN. apply last_claimer_is_Some.
        exists j. split; [lia|done].
      * left. exists j, j', x. split; [lia|done].
Qed.

(** A round of the loop fails only when the digests of its record do not
    validate. *)
Lemma Load_body_total rw orders recs k st :
  load_inv rw orders recs k st →
  k < length recs →
  (∃ st', Load_body rw (orders k) st k = Ok st') ∨
  (∃ e, Load_body rw (orders k) st k = Err e ∧
        recomputeDigests (orders k) (deref recs k) = Err e).
Proof.
  intros (HL & HU & HP & HN & HS) Hk. unfold Load_body.
  rewrite (HU k) by lia. set (rk := deref recs k).
  destruct (Load_conflict_loop (ld_names st) (Names rk) (ld_mem st) (ld_shouldSave st))
    as (Hlen1 & Hm1 & Hsv1).
  destruct (foldl (Load_conflict (ld_names st)) _ (Names rk)) as [m1 sv1]. simpl in *.
  assert (deref m1 k = rk) as ->.
  { rewrite Hm1, list_filter_id, set_Names_id; [by apply HU|].
    apply Forall_forall. intros x _ [_ Hx]. rewrite HN in Hx.
    apply last_claimer_Some in Hx. lia. }
  destruct (recomputeDigests (orders k) rk) as [image'|e]; simpl.
  - left. by eexists.
  - right. by eexists.
Qed.

Lemma recomputeDigests_total order i :
  digests_valid i →
  range_of (BigDataDigests i) order →
  ∃ i', recomputeDigests order i = Ok i'.
Proof.
  intros [Hd Hm] Hr. unfold recomputeDigests.
  assert (Hloop : ∀ acc, ∃ acc', foldM recomputeDigests_body acc order = Ok acc').
  { intros acc. apply recomputeDigests_loop_total. intros d Hd'. apply Hm.
    by apply (elem_of_manifestDigests _ order). }
  destruct (decide (Digest i ≠ "")) as [Hne|He].
  - rewrite (Hd Hne). simpl. destruct (Hloop ([Digest i], {[Digest i]})) as [acc' ->].
    simpl. by eexists.
  - simpl. destruct (Hloop ([], ∅)) as [acc' ->]. simpl. by eexists.
Qed.

Lemma digests_current_valid i : digests_current i → digests_valid i.
Proof.
  intros ((_ & Hval & Hhd) & Hset & _). rewrite Forall_forall in Hval. split.
  - intros Hne. apply Hval. specialize (Hhd Hne).
    destruct (Digests i); simplify_eq/=. apply list_elem_of_here.
  - intros d Hd. apply Hval.
    apply (elem_of_list_to_set (C := gset digest.Digest)). rewrite Hset.
    apply elem_of_union. by right.
Qed.

(** The records of a snapshot carry neither [Digests] nor [ReadOnly];
    recomputation does not read them. *)
Lemma recomputeDigests_jsonFields order i :
  recomputeDigests order (jsonFields i) = set_ReadOnly false <$> recomputeDigests order i.
Proof.
  unfold recomputeDigests, jsonFields. simpl.
  destruct (decide (Digest i ≠ "")) as [Hne|He]; simpl.
  - destruct (negb (Validate (Digest i))); simpl; [done|].
    destruct (foldM _ _ order) as [acc|]; simpl; [|done].
    destruct (decide (Digest i = "" ∧ 0 < length acc.1)); done.
  - destruct (foldM _ _ order) as [acc|]; simpl; [|done].
    destruct (decide (Digest i = "" ∧ 0 < length acc.1)); done.
Qed.

Lemma deref_fmap (f : Image → Image) (m : list Image) j :
  f zeroImage = zeroImage → deref (f <$> m) j = f (deref m j).
Proof.
  intros Hz. unfold deref. rewrite list_lookup_fmap. by destruct (m !! j).
Qed.

Lemma load_inv_init rw orders recs :
  load_inv rw orders recs 0 (mkLoad recs [] ∅ ∅ ∅ false).
Proof.
  unfold load_inv. simpl. split_and!; try done.
  - intros j Hj. lia.
  - split; [done|]. intros (j & j' & x & Hlt & _). lia.
Qed.

(** The loop of [Load] from the [k]-th record on. *)
Lemma Load_loop_inv rw orders recs len : ∀ k st st',
  load_inv rw orders recs k st →
  k + len = length recs →
  foldM (λ st n, Load_body rw (orders n) st n) st (seq k len) = Ok st' →
  load_inv rw orders recs (length recs) st'.
Proof.
  induction len as [|len IH]; intros k st st' Hinv Hlen; simpl.
  - intros [= <-]. by replace (length recs) with k by lia.
  - destruct (Load_body rw (orders k) st k) as [st1|] eqn:Hbody; [|done]. simpl.
    apply (IH (S k)); [|lia]. eapply Load_body_inv; [done|lia|done].
Qed.

(** The loop ends well when the digests of every record validate. *)
Lemma Load_loop_total rw orders recs len : ∀ k st,
  load_inv rw orders recs k st →
  k + len = length recs →
  (∀ j, j < length recs → ∃ i', recomputeDigests (orders j) (deref recs j) = Ok i') →
  ∃ st', foldM (λ st n, Load_body rw (orders n) st n) st (seq k len) = Ok st'.
Proof.
  induction len as [|len IH]; intros k st Hinv Hlen Hval; simpl; [by eexists|].
  destruct (Load_body_total _ _ _ _ _ Hinv) as [[st1 Hst1]|(e & _ & He)]; [lia| |].
  - rewrite Hst1. simpl. apply (IH (S k)); [|lia|done].
    eapply Load_body_inv; [done|lia|done].
  - destruct (Hval k) as [i' Hi']; [lia|]. congruence.
Qed.

(** [Load] on a snapshot that parses, once its loop has ended well. *)
Lemma Load_Document sys orders r records st :
  fails sys ReadSnapshot = false →
  imagesjson r = Document records →
  foldM (λ st n, Load_body (IsReadWrite (lockfile r)) (orders n) st n)
        (mkLoad (jsonFields <$> records) [] ∅ ∅ ∅ false)
        (seq 0 (length (jsonFields <$> records))) = Ok st →
  Load sys orders r =
    if ld_shouldSave st && (negb (IsReadWrite (lockfile r)) || negb (Locked (lockfile r)))
    then (r, Err ErrDuplicateImageNames)
    else
      let r1 := set_index (seq 0 (length (ld_mem st)))
                  (truncindex.NewTruncIndex (ld_idlist st))
                  (ld_ids st) (ld_names st) (ld_digests st) (ld_mem st) r in
      if ld_shouldSave st then Save sys r1 else (r1, Ok ()).
Proof.
  intros Hread Hfile Hloop. unfold Load. rewrite Hread, Hfile. simpl.
  rewrite Hloop. done.
Qed.

Lemma jsonFields_zero : jsonFields zeroImage = zeroImage.
Proof. done. Qed.

Lemma claimed_later_jsonFields records j k x :
  claimed_later (jsonFields <$> records) j k x ↔ claimed_later records j k x.
Proof.
  rewrite !claimed_later_iff. split; intros (j' & Hlt & Hx); exists j'; (split; [done|]).
  - by rewrite deref_fmap in Hx by done.
  - by rewrite deref_fmap by done.
Qed.

(** The only error of recomputation is the one of a digest that does not
    validate. *)
Lemma recomputeDigests_loop_error order : ∀ acc e,
  foldM recomputeDigests_body acc order = Err e → e = ErrInvalidDigest.
Proof.
  induction order as [|[name d] order IH]; intros [v s] e; simpl; [done|].
  destruct (negb (bigDataNameIsManifest name)); simpl; [apply IH|].
  destruct (negb (Validate d)); simpl; [by intros [= <-]|].
  destruct (decide (d ∈ s)); simpl; apply IH.
Qed.

Lemma recomputeDigests_error order i e :
  recomputeDigests order i = Err e → e = ErrInvalidDigest.
Proof.
  unfold recomputeDigests. destruct (decide (Digest i ≠ "")).
  - destruct (negb (Validate (Digest i))); simpl; [by intros [= <-]|].
    destruct (foldM _ _ _) eqn:Hloop; simpl; [done|]. intros [= <-].
    by eapply recomputeDigests_loop_error.
  - simpl. destruct (foldM _ _ _) eqn:Hloop; simpl; [done|]. intros [= <-].
    by eapply recomputeDigests_loop_error.
Qed.

(** Recomputation succeeds only on digests that validate. *)
Lemma recomputeDigests_valid order i i' :
  range_of (BigDataDigests i) order → recomputeDigests order i = Ok i' → digests_valid i.
Proof.
  intros Hr Hrec.
  destruct (recomputeDigests_spec _ _ _ Hrec) as (_ & Hval & Hd & _ & _ & Hmem & _).
  rewrite Forall_forall in Hval. split.
  - intros Hne. by destruct (Hd Hne).
  - intros d Hin. apply (elem_of_manifestDigests _ order) in Hin; [|done].
    apply Hval, Hmem. by right.
Qed.

(** The loop of [Load] fails only with the error of a digest that does not
    validate. *)
Lemma Load_loop_error rw orders recs len : ∀ k st e,
  load_inv rw orders recs k st →
  k + len = length recs →
  foldM (λ st n, Load_body rw (orders n) st n) st (seq k len) = Err e →
  e = ErrInvalidDigest.
Proof.
  induction len as [|len IH]; intros k st e Hinv Hlen; simpl; [done|].
  destruct (Load_body_total _ _ _ _ _ Hinv) as [[st1 Hst1]|(e' & He' & Hrec)]; [lia| |].
  - rewrite Hst1. simpl. apply (IH (S k)); [|lia]. eapply Load_body_inv; [done|lia|done].
  - rewrite He'. simpl. intros [= <-]. by eapply recomputeDigests_error.
Qed.

(** A record whose digests do not validate makes [Load] fail with that
    error; the store is as before. *)
Lemma Load_invalid_digest sys orders r records j :
  fails sys ReadSnapshot = false →
  imagesjson r = Document records →
  (∀ n, n < length records → range_of (BigDataDigests (deref records n)) (orders n)) →
  j < length records →
  ¬ digests_valid (deref records j) →
  Load sys orders r = (r, Err ErrInvalidDigest).
Proof.
  intros Hread Hfile Hr Hj Hbad. unfold Load. rewrite Hread, Hfile. simpl.
  set (recs := jsonFields <$> records).
  assert (Hn : length recs = length records) by apply length_fmap.
  destruct (foldM _ _ (seq 0 (length recs))) as [st|e] eqn:Hloop.
  - apply (Load_loop_inv (IsReadWrite (lockfile r)) orders recs (length recs) 0) in Hloop;
      [|apply load_inv_init|done].
    destruct Hloop as (_ & _ & HP & _). destruct (HP j) as (i' & Hrec & _); [lia|].
    unfold recs in Hrec. rewrite deref_fmap, recomputeDigests_jsonFields in Hrec by done.
    destruct (recomputeDigests (orders j) (deref records j)) as [i0|] eqn:Hrec0; [|done].
    destruct Hbad. eapply recomputeDigests_valid; [by apply Hr|done].
  - apply (Load_loop_error (IsReadWrite (lockfile r)) orders recs (length recs) 0) in Hloop;
      [|apply load_inv_init|done].
    by subst e.
Qed.

(** C2, as the code has it.  Let two records [a] and [b] of a snapshot claim
    the name [x], [b] being the last record that does.  If the store is not
    read-write or not locked for writing, [Load] returns an error and the
    store is as before.  If it is both, and the digests of every record
    validate, [Load] installs the records, and what it returns is what [Save]
    returns for them: [x] is bound to [b], it is a name of [b] and of no
    other record, and every record has lost exactly the names that a later
    record claims.  When no call of [Save] fails, the snapshot is rewritten
    from the installed records.  If the digests of some record do not
    validate, [Load] fails with the error of the validation, whatever the
    access mode, and the store is as before: nothing is installed and nothing
    is saved. *)
Theorem Load_duplicate_names sys orders r records a b x :
  fails sys ReadSnapshot = false →
  imagesjson r = Document records →
  a < b < length records →
  x ∈ Names (deref records a) →
  x ∈ Names (deref records b) →
  (∀ j, b < j < length records → x ∉ Names (deref records j)) →
  (IsReadWrite (lockfile r) = false ∨ Locked (lockfile r) = false →
   ∃ e, Load sys orders r = (r, Err e)) ∧
  ((∀ j, j < length records →
         digests_valid (deref records j) ∧
         range_of (BigDataDigests (deref records j)) (orders j)) →
   IsReadWrite (lockfile r) = true →
   Locked (lockfile r) = true →
   ∃ r1,
     Load sys orders r = Save sys r1 ∧
     images r1 = seq 0 (length records) ∧
     byname r1 !! x = Some b ∧
     x ∈ Names (deref (mem r1) b) ∧
     (∀ j, j ≠ b → x ∉ Names (deref (mem r1) j)) ∧
     (∀ j, j < length records →
           Names (deref (mem r1) j)
           = filter (λ y, ¬ claimed_later records j (length records) y)
                    (Names (deref records j))) ∧
     (fails sys MkdirStoreDir = false → fails sys Marshal = false →
      fails sys WriteSnapshot = false → fails sys Touch = false →
      Load sys orders r
      = (set_imagesjson (Document ((λ p, jsonRecord (deref (mem r1) p)) <$> images r1)) r1,
         Ok ()))) ∧
  ((∀ j, j < length records → range_of (BigDataDigests (deref records j)) (orders j)) →
   ∀ j, j < length records → ¬ digests_valid (deref records j) →
   Load sys orders r = (r, Err ErrInvalidDigest)).
Proof.
  intros Hread Hfile Hab Hxa Hxb Hlast.
  set (recs := jsonFields <$> records).
  assert (Hn : length recs = length records) by apply length_fmap.
  assert (Hnames : ∀ j, Names (deref recs j) = Names (deref records j)).
  { intros j. unfold recs. by rewrite deref_fmap. }
  assert (Hcl : ∀ j k y, claimed_later recs j k y ↔ claimed_later records j k y)
    by (intros; apply claimed_later_jsonFields).
  assert (Hconflict : name_conflict recs (length recs)).
  { exists a, b, x. rewrite !Hnames, Hn. done. }
  split; [|split].
  3:{ intros Hr j Hj Hbad. by eapply Load_invalid_digest. }
  - intros Hno. unfold Load. rewrite Hread, Hfile. simpl. fold recs.
    destruct (foldM _ _ (seq 0 (length recs))) as [st|e] eqn:Hloop; [|by eexists].
    apply (Load_loop_inv (IsReadWrite (lockfile r)) orders recs (length recs) 0) in Hloop;
      [|apply load_inv_init|done].
    destruct Hloop as (_ & _ & _ & _ & HS). rewrite (proj2 HS Hconflict). simpl.
    destruct Hno as [-> | ->]; simpl; [by eexists|].
    rewrite orb_true_r. by eexists.
  - intros Hvalid Hrw Hlk.
    destruct (Load_loop_total (IsReadWrite (lockfile r)) orders recs (length recs) 0
                (mkLoad recs [] ∅ ∅ ∅ false)) as [st Hloop];
      [apply load_inv_init|done| |].
    { intros j Hj. unfold recs. rewrite deref_fmap by done.
      rewrite recomputeDigests_jsonFields. rewrite Hn in Hj.
      destruct (Hvalid j Hj) as [Hv Hr].
      destruct (recomputeDigests_total _ _ Hv Hr) as [i' ->]. by eexists. }
    rewrite (Load_Document sys orders r records st Hread Hfile Hloop).
    apply (Load_loop_inv (IsReadWrite (lockfile r)) orders recs (length recs) 0) in Hloop;
      [|apply load_inv_init|done].
    destruct Hloop as (HL & HU & HP & HN & HS). rewrite (proj2 HS Hconflict).
    rewrite Hrw, Hlk. simpl.
    set (r1 := set_index _ _ _ _ _ _ r). exists r1.
    assert (HNames1 : ∀ j, j < length records →
              Names (deref (mem r1) j)
              = filter (λ y, ¬ claimed_later records j (length records) y)
                       (Names (deref records j))).
    { intros j Hj. destruct (HP j) as (i' & Hrec & Heq); [lia|].
      unfold r1. simpl. rewrite Heq. simpl.
      rewrite Hnames, Hn. apply list_filter_iff. intros y.
      by rewrite Hcl. }
    assert (Hb_last : ¬ claimed_later records b (length records) x).
    { rewrite claimed_later_iff. intros (j & Hj & Hx). by apply (Hlast j). }
    split_and!.
    + done.
    + simpl. by rewrite HL, Hn.
    + simpl. rewrite HN. apply last_claimer_Some. rewrite Hnames, Hn.
      split; [lia|]. split; [done|]. by rewrite Hcl.
    + rewrite HNames1 by lia. apply list_elem_of_filter. done.
    + intros j Hj Hx. destruct (decide (j < length records)) as [Hlt|Hge].
      * rewrite HNames1 in Hx by done. apply list_elem_of_filter in Hx as [Hno Hx].
        destruct (decide (j < b)).
        -- apply Hno. apply claimed_later_iff. exists b. split; [lia|done].
        -- apply (Hlast j); [lia|done].
      * simpl in Hx. rewrite HU, Hnames in Hx by lia.
        unfold deref in Hx. rewrite lookup_ge_None_2 in Hx by lia. simpl in Hx.
        by apply elem_of_nil in Hx.
    + done.
    + intros Hmk Hmar Hwr Htouch. unfold Save. simpl.
      rewrite Hrw, Hlk, Hmk, Hmar, Hwr, Htouch. done.
Qed.

(** ** Save, then Load *)

(** Recomputation reads no field of the image but [Digest]; the digest cache
    comes with the order of the [range]. *)
Lemma recomputeDigests_ext order i c :
  Digest c = Digest i →
  recomputeDigests order c
  = (λ i', set_Digests (Digests i') (set_Digest (Digest i') c)) <$> recomputeDigests order i.
Proof.
  intros Hd. unfold recomputeDigests. rewrite Hd.
  destruct (decide (Digest i ≠ "")) as [Hne|He]; simpl.
  - destruct (negb (Validate (Digest i))); simpl; [done|].
    destruct (foldM _ _ order) as [acc|]; simpl; [|done].
    rewrite !decide_False by (by intros [? _]). simpl.
    unfold set_Digests, set_Digest. simpl. by rewrite Hd.
  - destruct (foldM _ _ order) as [acc|]; simpl; [|done].
    destruct (decide (Digest i = "" ∧ 0 < length acc.1)); simpl; [done|].
    unfold set_Digests, set_Digest. simpl. by rewrite Hd.
Qed.

(** C8, as the code has it.  Let a well-formed store be saved, the digests of
    whose images are up to date and whose images keep their ID, their names
    and their digests when they are encoded as JSON and decoded, and let the
    snapshot be loaded by a store over the same directory, in any access
    mode.  [Load] succeeds and installs as many records as the store had
    images; the [j]-th record has the ID, the names and the [Digest] of the
    [j]-th image; its [Digests] are those of the image up to their order,
    which follows the order of the [range] over the digest cache, with the
    same first element; and its [ReadOnly] is set from the access mode of the
    loading store. *)
Theorem Save_Load_round_trip sys sys' orders r r1 r2 :
  store_wf r →
  Forall (λ p, digests_current (deref (mem r) p)) (images r) →
  Forall (λ p, json_faithful (deref (mem r) p)) (images r) →
  Save sys r = (r1, Ok ()) →
  imagesjson r2 = imagesjson r1 →
  fails sys' ReadSnapshot = false →
  (∀ j p, images r !! j = Some p →
          range_of (BigDataDigests (deref (mem r) p)) (orders j)) →
  ∃ r3,
    Load sys' orders r2 = (r3, Ok ()) ∧
    length (images r3) = length (images r) ∧
    ∀ j p p', images r !! j = Some p → images r3 !! j = Some p' →
      ID (deref (mem r3) p') = ID (deref (mem r) p) ∧
      Names (deref (mem r3) p') = Names (deref (mem r) p) ∧
      Digest (deref (mem r3) p') = Digest (deref (mem r) p) ∧
      Digests (deref (mem r3) p') ≡ₚ Digests (deref (mem r) p) ∧
      head (Digests (deref (mem r3) p')) = head (Digests (deref (mem r) p)) ∧
      ReadOnly (deref (mem r3) p') = negb (IsReadWrite (lockfile r2)).
Proof.
  intros Hwf Hcur Hjson Hsave Hfile Hread Horders.
  destruct Hwf as (Hmem & _ & _ & _ & Hown & Huniq & _).
  apply Save_ok in Hsave. subst r1. simpl in Hfile.
  set (records := (λ p, jsonRecord (deref (mem r) p)) <$> images r) in *.
  set (recs := jsonFields <$> records).
  assert (Hn : length recs = length (images r)).
  { unfold recs, records. by rewrite !length_fmap. }
  assert (Hrec_j : ∀ j p, images r !! j = Some p →
                          deref recs j = jsonFields (jsonRecord (deref (mem r) p))).
  { intros j p Hj. unfold recs, records, deref at 1.
    rewrite !list_lookup_fmap, Hj. done. }
  assert (Hkeep : ∀ j p, images r !! j = Some p → json_faithful (deref (mem r) p)).
  { intros j p Hj. rewrite Forall_forall in Hjson. apply Hjson.
    by eapply list_elem_of_lookup_2. }
  assert (Hnames_j : ∀ j p, images r !! j = Some p →
                            Names (deref recs j) = Names (deref (mem r) p)).
  { intros j p Hj. rewrite (Hrec_j _ _ Hj). simpl. by destruct (Hkeep _ _ Hj) as (_ & ? & _). }
  assert (Hnd : NoDup (images r)) by (by eapply NoDup_fmap_1).
  assert (Hnoconf : ¬ name_conflict recs (length recs)).
  { intros (j & j' & x & Hlt & Hx & Hx').
    destruct (lookup_lt_is_Some_2 (images r) j) as [p Hp]; [lia|].
    destruct (lookup_lt_is_Some_2 (images r) j') as [p' Hp']; [lia|].
    rewrite (Hnames_j _ _ Hp) in Hx. rewrite (Hnames_j _ _ Hp') in Hx'.
    unfold names_indexed in Hown. rewrite Forall_forall in Hown.
    pose proof (Hown p (list_elem_of_lookup_2 _ _ _ Hp)) as Ho.
    pose proof (Hown p' (list_elem_of_lookup_2 _ _ _ Hp')) as Ho'.
    rewrite Forall_forall in Ho, Ho'. specialize (Ho x Hx). specialize (Ho' x Hx').
    assert (p = p') by congruence. subst p'.
    pose proof (NoDup_lookup _ _ _ _ Hnd Hp Hp'). lia. }
  assert (Hrecompute : ∀ j p, images r !! j = Some p →
            ∃ i', recomputeDigests (orders j) (deref (mem r) p) = Ok i' ∧
                  recomputeDigests (orders j) (deref recs j)
                  = Ok (set_ReadOnly false
                          (set_Digests (Digests i')
                             (set_Digest (Digest i')
                                (jsonCoerce (jsonFields (deref (mem r) p))))))).
  { intros j p Hj. rewrite (Hrec_j _ _ Hj). unfold jsonRecord.
    rewrite !recomputeDigests_jsonFields.
    destruct (Hkeep _ _ Hj) as (_ & _ & HD & _).
    rewrite (recomputeDigests_ext (orders j) (deref (mem r) p)
               (jsonCoerce (jsonFields (deref (mem r) p))) HD).
    rewrite Forall_forall in Hcur.
    pose proof (Hcur p (list_elem_of_lookup_2 _ _ _ Hj)) as Hc.
    destruct (recomputeDigests_total (orders j) (deref (mem r) p)) as [i' Hi'];
      [by apply digests_current_valid|by eapply Horders|].
    exists i'. rewrite Hi'. split; [done|]. reflexivity. }
  destruct (Load_loop_total (IsReadWrite (lockfile r2)) orders recs (length recs) 0
              (mkLoad recs [] ∅ ∅ ∅ false)) as [st Hloop];
    [apply load_inv_init|done| |].
  { intros j Hj. destruct (lookup_lt_is_Some_2 (images r) j) as [p Hp]; [lia|].
    destruct (Hrecompute _ _ Hp) as (i' & _ & Hi'). by eexists. }
  rewrite (Load_Document sys' orders r2 records st Hread Hfile Hloop).
  apply (Load_loop_inv (IsReadWrite (lockfile r2)) orders recs (length recs) 0) in Hloop;
    [|apply load_inv_init|done].
  destruct Hloop as (HL & HU & HP & HN & HS).
  assert (ld_shouldSave st = false) as ->.
  { destruct (ld_shouldSave st); [|done]. destruct Hnoconf. by apply HS. }
  simpl. eexists. split; [done|]. simpl. rewrite HL, length_seq.
  split; [done|]. intros j p p' Hj Hj'.
  apply lookup_seq in Hj' as [-> Hlt]. simpl in *.
  destruct (HP j Hlt) as (i2 & Hrec2 & ->).
  destruct (Hrecompute _ _ Hj) as (i' & Hrec & Hrec').
  rewrite Hrec' in Hrec2. injection Hrec2 as <-.
  rewrite Forall_forall in Hcur.
  pose proof (Hcur p (list_elem_of_lookup_2 _ _ _ Hj)) as Hc.
  destruct (recomputeDigests_current _ _ _ Hc (Horders _ _ Hj) Hrec) as (Hi' & Hperm & Hhd).
  destruct (Hkeep _ _ Hj) as (HID & HNames & HDig & _).
  simpl. split_and!; try done.
  - rewrite list_filter_id; [by rewrite (Hnames_j _ _ Hj)|].
    apply Forall_forall. intros x Hx Hc'. apply Hnoconf.
    apply claimed_later_iff in Hc' as (j' & Hlt' & Hx').
    exists j, j', x. split; [lia|done].
  - by rewrite Hi'.
Qed.

(** ** The indices stay consistent *)

Lemma store_wf_set_imagesjson f r : store_wf (set_imagesjson f r) ↔ store_wf r.
Proof. done. Qed.

Lemma store_wf_set_files dirs blobs r : store_wf (set_files dirs blobs r) ↔ store_wf r.
Proof. done. Qed.

Lemma Save_wf sys r : store_wf r → store_wf (Save sys r).1.
Proof. intros Hwf. destruct (Save_store sys r) as [f ->]. done. Qed.

Lemma emptyStore_wf lk file dirs blobs : store_wf (emptyStore lk file dirs blobs).
Proof.
  unfold store_wf, mem_valid, byid_sound, byname_sound, ids_indexed, names_indexed,
    ids_unique, bydigest_sound. simpl.
  split_and!; try done; try apply map_Forall_empty. apply NoDup_nil_2.
Qed.

Lemma Forall_filter_keep {A} (P Q : A → Prop) `{∀ x, Decision (Q x)} (l : list A) :
  Forall P l → Forall P (filter Q l).
Proof.
  rewrite !Forall_forall. intros HP x [_ Hx]%list_elem_of_filter. by apply HP.
Qed.

(** Buckets under [index_digests]. *)
Lemma index_digests_Forall (Φ : digest.Digest → loc → Prop) image ds :
  ∀ m : gmap digest.Digest (list loc),
  map_Forall (λ d l, l ≠ [] ∧ Forall (Φ d) l) m →
  (∀ d, d ∈ ds → Φ d image) →
  map_Forall (λ d l, l ≠ [] ∧ Forall (Φ d) l) (index_digests image ds m).
Proof.
  unfold index_digests.
  induction ds as [|d ds IH]; intros m Hm Hds; simpl; [done|].
  apply IH; [|intros d' Hd'; apply Hds; by apply list_elem_of_further].
  apply map_Forall_insert_2; [|done]. split.
  - intros [_ ?]%app_eq_nil. done.
  - apply Forall_app. split.
    + destruct (m !! d) as [l|] eqn:Hl; simpl; [|done]. by destruct (Hm _ _ Hl).
    + apply Forall_singleton. apply Hds. apply list_elem_of_here.
Qed.

(** Buckets under [prune_digests]. *)
Lemma prune_digests_Forall (Φ : digest.Digest → loc → Prop) image ds :
  ∀ m : gmap digest.Digest (list loc),
  map_Forall (λ d l, l ≠ [] ∧ Forall (Φ d) l) m →
  map_Forall (λ d l, l ≠ [] ∧ Forall (Φ d) l) (prune_digests image ds m).
Proof.
  intros m Hm d l. rewrite prune_digests_lookup.
  destruct (decide (d ∈ ds)); [|apply Hm].
  unfold pruned, imageSliceWithoutValue.
  destruct (filter _ _) as [|q l'] eqn:Hf; [done|]. intros [= <-]. split; [done|].
  rewrite <-Hf. apply Forall_filter_keep.
  destruct (m !! d) as [l0|] eqn:Hl; simpl; [|done]. by destruct (Hm _ _ Hl).
Qed.

Lemma map_Forall_foldl_insert {V} (P : string → V → Prop) (m : gmap string V) names v :
  map_Forall P m → (∀ n, n ∈ names → P n v) →
  map_Forall P (foldl (λ m n, <[n := v]> m) m names).
Proof.
  revert m. induction names as [|x names IH]; intros m Hm Hv; simpl; [done|].
  apply IH; [|intros n Hn; apply Hv; by apply list_elem_of_further].
  apply map_Forall_insert_2; [|done]. apply Hv. apply list_elem_of_here.
Qed.

Lemma map_Forall_foldl_delete {V} (P : string → V → Prop) (m : gmap string V) names :
  map_Forall P m → map_Forall P (foldl (λ m n, delete n m) m names).
Proof.
  revert m. induction names as [|x names IH]; intros m Hm; simpl; [done|].
  apply IH. by apply map_Forall_delete.
Qed.

(** Appending a new image, with an unused ID and unbound names, to the heap,
    the list and the indices. *)
Lemma store_wf_append r image idx :
  store_wf r →
  byid r !! ID image = None →
  Forall (λ n, byname r !! n = None) (Names image) →
  store_wf (set_index (images r ++ [length (mem r)]) idx
              (<[ID image := length (mem r)]> (byid r))
              (foldl (λ m n, <[n := length (mem r)]> m) (byname r) (Names image))
              (index_digests (length (mem r)) (Digests image) (bydigest r))
              (mem r ++ [image]) r).
Proof.
  intros (Hmem & Hid & Hname & Hidx & Hown & Huniq & Hdig) Hfree Hunbound.
  set (p := length (mem r)).
  unfold mem_valid, byid_sound, byname_sound, ids_indexed, names_indexed, ids_unique,
    bydigest_sound in *.
  rewrite Forall_forall in Hmem. rewrite Forall_forall in Hidx.
  rewrite Forall_forall in Hown. rewrite Forall_forall in Hunbound.
  assert (Hold : ∀ q, q ∈ images r → deref (mem r ++ [image]) q = deref (mem r) q).
  { intros q Hq. apply deref_app_l. by apply Hmem. }
  assert (Hnew : deref (mem r ++ [image]) p = image) by apply deref_app_r.
  assert (Hne : ∀ q, q ∈ images r → ID (deref (mem r) q) ≠ ID image).
  { intros q Hq Heq. specialize (Hidx q Hq). rewrite Heq in Hidx. congruence. }
  unfold store_wf, mem_valid, byid_sound, byname_sound, ids_indexed, names_indexed,
    ids_unique, bydigest_sound. simpl. split_and!.
  - apply Forall_app. split.
    + apply Forall_forall. intros q Hq. rewrite length_app. specialize (Hmem q Hq). lia.
    + apply Forall_singleton. rewrite length_app. simpl. lia.
  - apply map_Forall_insert_2.
    + split; [apply elem_of_app; right; apply list_elem_of_here|]. by rewrite Hnew.
    + intros k q Hq. destruct (Hid _ _ Hq) as [Hin Hk]. split.
      * apply elem_of_app. by left.
      * by rewrite Hold.
  - apply map_Forall_foldl_insert.
    + intros n q Hq. destruct (Hname _ _ Hq) as [Hin Hn]. split.
      * apply elem_of_app. by left.
      * by rewrite Hold.
    + intros n Hn. split; [apply elem_of_app; right; apply list_elem_of_here|].
      by rewrite Hnew.
  - apply Forall_app. split.
    + apply Forall_forall. intros q Hq. rewrite Hold by done.
      rewrite lookup_insert_ne by (apply not_eq_sym; by apply Hne). by apply Hidx.
    + apply Forall_singleton. rewrite Hnew. apply lookup_insert_eq.
  - apply Forall_app. split.
    + apply Forall_forall. intros q Hq. rewrite Hold by done.
      apply Forall_forall. intros n Hn. rewrite lookup_foldl_insert.
      pose proof (Hown q Hq) as Ho. rewrite Forall_forall in Ho. specialize (Ho n Hn).
      rewrite decide_False; [done|]. intros Hin. specialize (Hunbound n Hin). congruence.
    + apply Forall_singleton. rewrite Hnew. apply Forall_forall. intros n Hn.
      rewrite lookup_foldl_insert. by rewrite decide_True.
  - rewrite fmap_app. simpl. rewrite Hnew.
    rewrite (proj1 (Forall_fmap_ext _ (λ q, ID (deref (mem r) q)) (images r))).
    2:{ apply Forall_forall. intros q Hq. by rewrite Hold. }
    apply NoDup_app. split; [done|]. split; [|apply NoDup_singleton].
    intros x [q [-> Hq]]%list_elem_of_fmap Heq%list_elem_of_singleton.
    by apply (Hne q).
  - apply index_digests_Forall.
    + intros d l Hl. destruct (Hdig _ _ Hl) as [Hnil Hall]. split; [done|].
      rewrite Forall_forall in Hall. apply Forall_forall. intros q Hq.
      destruct (Hall q Hq) as [Hin Hd]. split.
      * apply elem_of_app. by left.
      * by rewrite Hold.
    + intros d Hd. split; [apply elem_of_app; right; apply list_elem_of_here|].
      by rewrite Hnew.
Qed.

(** [Create] keeps the store well-formed, whatever its outcome. *)
Lemma Create_wf sys rand now id names layer metadata created searchableDigest r r' out :
  store_wf r →
  Create sys rand now id names layer metadata created searchableDigest r = Some (r', out) →
  store_wf r'.
Proof.
  intros Hwf. unfold Create.
  destruct (negb (IsReadWrite (lockfile r))); [by intros [= <- _]|].
  destruct (if decide (id = "") then _ else _) as [id'|]; [|done]. simpl.
  destruct (decide (is_Some (byid r !! id'))) as [|Hfree]; [by intros [= <- _]|].
  rewrite Create_names_check.
  destruct (decide (List.Exists _ (dedupeNames names))) as [|Hunbound]; [by intros [= <- _]|].
  set (image0 := mkImage _ _ _ _ _ _ _ _ _ _ _ _ _ _).
  destruct (recomputeDigests _ image0) as [image|] eqn:Hrec; [|by intros [= <- _]].
  destruct (recomputeDigests_Names _ _ _ Hrec) as (HN & HI & _). simpl in HN, HI.
  pose proof (store_wf_append r image (truncindex.Add (idindex r) id') Hwf) as Happ.
  rewrite HN, HI in Happ.
  destruct (Save sys _) as [r2 err] eqn:Hsave. intros [= <- _].
  change r2 with (r2, err).1. rewrite <-Hsave. apply Save_wf, Happ.
  - by apply eq_None_not_Some.
  - apply Forall_forall. intros n Hn. apply eq_None_not_Some. intros Hs.
    apply Hunbound. apply Exists_exists. by exists n.
Qed.

Lemma elem_of_delete_other {A} (l : list A) k p q :
  l !! k = Some p → q ∈ l → q ≠ p → q ∈ delete k l.
Proof.
  intros Hk [j Hj]%list_elem_of_lookup_1 Hne. apply list_elem_of_delete.
  exists j. split; [|done]. intros ->. congruence.
Qed.

(** Removing the image at index [k] from the list and the indices. *)
Lemma store_wf_remove r p k idx :
  store_wf r →
  images r !! k = Some p →
  store_wf (set_index (delete k (images r)) idx
              (delete (ID (deref (mem r) p)) (byid r))
              (foldl (λ bn name, delete name bn) (byname r) (Names (deref (mem r) p)))
              (prune_digests p (Digests (deref (mem r) p)) (bydigest r))
              (mem r) r).
Proof.
  intros (Hmem & Hid & Hname & Hidx & Hown & Huniq & Hdig) Hk.
  unfold mem_valid, byid_sound, byname_sound, ids_indexed, names_indexed, ids_unique,
    bydigest_sound in *.
  rewrite Forall_forall in Hmem. rewrite Forall_forall in Hidx.
  rewrite Forall_forall in Hown.
  assert (Hp : p ∈ images r) by (by eapply list_elem_of_lookup_2).
  assert (Hrest : ∀ q, q ∈ delete k (images r) →
                       q ∈ images r ∧ ID (deref (mem r) q) ≠ ID (deref (mem r) p)).
  { intros q (j & Hne & Hj)%list_elem_of_delete.
    split; [by eapply list_elem_of_lookup_2|].
    intros Heq. apply Hne.
    eapply (NoDup_lookup _ _ _ _ Huniq); rewrite list_lookup_fmap.
    - rewrite Hj. simpl. by rewrite Heq.
    - by rewrite Hk. }
  unfold store_wf, mem_valid, byid_sound, byname_sound, ids_indexed, names_indexed,
    ids_unique, bydigest_sound. simpl. split_and!.
  - apply Forall_forall. intros q Hq. apply Hmem. by destruct (Hrest q Hq).
  - intros x q [Hne Hx]%lookup_delete_Some. destruct (Hid _ _ Hx) as [Hin Hq].
    split; [|done]. apply (elem_of_delete_other _ _ p); [done..|]. intros ->. done.
  - intros n q. rewrite lookup_foldl_delete.
    destruct (decide (n ∈ Names (deref (mem r) p))) as [|Hn]; [done|].
    intros Hq. destruct (Hname _ _ Hq) as [Hin Hnq]. split; [|done].
    apply (elem_of_delete_other _ _ p); [done..|]. intros ->. done.
  - apply Forall_forall. intros q Hq. destruct (Hrest q Hq) as [Hin Hne].
    rewrite lookup_delete_ne by (by apply not_eq_sym). by apply Hidx.
  - apply Forall_forall. intros q Hq. destruct (Hrest q Hq) as [Hin Hne].
    apply Forall_forall. intros n Hn. rewrite lookup_foldl_delete.
    pose proof (Hown q Hin) as Ho. rewrite Forall_forall in Ho. specialize (Ho n Hn).
    rewrite decide_False; [done|]. intros Hnp.
    pose proof (Hown p Hp) as Ho'. rewrite Forall_forall in Ho'. specialize (Ho' n Hnp).
    assert (q = p) by congruence. subst q. done.
  - rewrite list_fmap_delete. eapply sublist_NoDup; [done|apply sublist_delete].
  - intros d l. rewrite prune_digests_lookup.
    assert (Hkeep : ∀ l0, bydigest r !! d = Some l0 → ∀ q, q ∈ l0 → q ≠ p →
                          q ∈ delete k (images r) ∧ d ∈ Digests (deref (mem r) q)).
    { intros l0 Hl0 q Hq Hne. destruct (Hdig _ _ Hl0) as [_ Hall].
      rewrite Forall_forall in Hall. destruct (Hall q Hq) as [Hin Hd].
      split; [|done]. by apply (elem_of_delete_other _ _ p). }
    destruct (decide (d ∈ Digests (deref (mem r) p))) as [Hd|Hd].
    + unfold pruned, imageSliceWithoutValue.
      destruct (filter _ _) as [|q0 l'] eqn:Hf; [done|]. intros [= <-]. split; [done|].
      rewrite <-Hf. apply Forall_forall. intros q [Hne Hq]%list_elem_of_filter.
      destruct (bydigest r !! d) as [l0|] eqn:Hl0; simpl in Hq; [|by apply elem_of_nil in Hq].
      by apply (Hkeep l0).
    + intros Hl. destruct (Hdig _ _ Hl) as [Hnil Hall]. split; [done|].
      rewrite Forall_forall in Hall. apply Forall_forall. intros q Hq.
      apply (Hkeep l Hl q Hq). intros ->. by destruct (Hall p Hq).
Qed.

(** [Delete] keeps the store well-formed, whatever its outcome. *)
Lemma Delete_wf sys id r r' res :
  store_wf r → Delete sys id r = (r', res) → store_wf r'.
Proof.
  intros Hwf. unfold Delete.
  destruct (negb (IsReadWrite (lockfile r))); [by intros [= <- _]|].
  destruct (lookup r id) as [p|] eqn:Hp; [|by intros [= <- _]].
  pose proof Hwf as (_ & Hid & Hname & _ & _ & Huniq & _).
  pose proof (lookup_sound _ _ _ Hid Hname Hp) as Hin.
  apply list_elem_of_lookup_1 in Hin as [k Hk].
  rewrite (toDeleteIndex_unique (λ q, ID (deref (mem r) q)) (images r) 0 None k p Huniq Hk).
  simpl.
  assert (Hims : (if decide (k = length (images r) - 1)
                  then take (length (images r) - 1) (images r)
                  else take k (images r) ++ drop (k + 1) (images r))
                 = delete k (images r)).
  { pose proof (lookup_lt_Some _ _ _ Hk) as Hlt.
    rewrite delete_take_drop. destruct (decide _) as [->|_].
    - replace (S (length (images r) - 1)) with (length (images r)) by lia.
      by rewrite drop_all, app_nil_r.
    - by rewrite Nat.add_1_r. }
  rewrite Hims.
  pose proof (store_wf_remove r p k
                (truncindex.Delete (idindex r) (ID (deref (mem r) p))) Hwf Hk) as Hwf1.
  apply (Save_wf sys) in Hwf1.
  destruct (Save sys _) as [r2 [[]|e]]; simpl in Hwf1; [|by intros [= <- _]].
  destruct (fails sys _); by intros [= <- _].
Qed.

Lemma names_only_refl i : names_only i i.
Proof. unfold names_only. by destruct i. Qed.

Lemma names_only_trans i1 i2 i3 : names_only i1 i2 → names_only i2 i3 → names_only i1 i3.
Proof. unfold names_only. intros -> ->. done. Qed.

Lemma names_only_set_Names ns i : names_only i (set_Names ns i).
Proof. unfold names_only. by destruct i. Qed.

Lemma names_only_addNameToHistory n i : names_only i (addNameToHistory n i).
Proof. unfold names_only, addNameToHistory. by destruct i. Qed.

Lemma names_only_fields i i' :
  names_only i i' → ID i' = ID i ∧ Digests i' = Digests i ∧ Digest i' = Digest i ∧
                    BigDataDigests i' = BigDataDigests i.
Proof. unfold names_only. by intros ->. Qed.

Lemma names_only_alter f (m : list Image) p q :
  (∀ i, names_only i (f i)) → names_only (deref m q) (deref (alter f p m) q).
Proof.
  intros Hf. rewrite deref_alter. destruct (decide _); [apply Hf|apply names_only_refl].
Qed.

(** The binding loop of [updateNames] changes names and histories only. *)
Lemma updateNames_bind_loop_names_only image names : ∀ m bn q,
  names_only (deref m q) (deref (foldl (updateNames_bind image) (m, bn) names).1 q).
Proof.
  induction names as [|x names IH]; intros m bn q; simpl; [apply names_only_refl|].
  eapply names_only_trans; [|apply IH].
  eapply names_only_trans; [|apply names_only_alter, names_only_addNameToHistory].
  destruct (bn !! x); [|apply names_only_refl].
  unfold removeName. apply names_only_alter. intros i. apply names_only_set_Names.
Qed.

(** [updateNames] keeps the store well-formed, whatever its outcome. *)
Lemma updateNames_wf sys id names op r r' res :
  store_wf r → updateNames sys id names op r = (r', res) → store_wf r'.
Proof.
  intros Hwf. unfold updateNames.
  destruct (negb (IsReadWrite (lockfile r))); [by intros [= <- _]|].
  destruct (lookup r id) as [p|] eqn:Hp; [|by intros [= <- _]].
  destruct (applyNameOperation _ names op) as [names'|]; [|by intros [= <- _]].
  pose proof (lookup_valid _ _ _ Hwf Hp) as Hvalid.
  pose proof Hwf as (Hmem & Hid & Hname & Hidx & Hown & Huniq & Hdig).
  pose proof (lookup_sound _ _ _ Hid Hname Hp) as Hin.
  set (oldNames := Names (deref (mem r) p)).
  set (bn0 := foldl (λ bn name, delete name bn) (byname r) oldNames).
  destruct (updateNames_bind_loop p names' (mem r) bn0) as (Hlen & Hother & _ & Hbn).
  pose proof (updateNames_bind_loop_names_only p names' (mem r) bn0) as Honly.
  destruct (foldl (updateNames_bind p) (mem r, bn0) names') as [m bn]. simpl in *.
  set (m' := alter (set_Names names') p m).
  intros Hsave. replace r' with (Save sys (set_mem m' (set_byname bn r))).1
    by (by rewrite Hsave).
  apply Save_wf. clear Hsave.
  unfold mem_valid, byid_sound, byname_sound, ids_indexed, names_indexed, ids_unique,
    bydigest_sound in *.
  rewrite Forall_forall in Hmem. rewrite Forall_forall in Hidx.
  rewrite Forall_forall in Hown.
  assert (Honly' : ∀ q, names_only (deref (mem r) q) (deref m' q)).
  { intros q. eapply names_only_trans; [apply Honly|]. unfold m'.
    apply names_only_alter. intros i. apply names_only_set_Names. }
  assert (HID : ∀ q, ID (deref m' q) = ID (deref (mem r) q)).
  { intros q. by destruct (names_only_fields _ _ (Honly' q)). }
  assert (HDs : ∀ q, Digests (deref m' q) = Digests (deref (mem r) q)).
  { intros q. by destruct (names_only_fields _ _ (Honly' q)) as (_ & ? & _). }
  assert (HNp : Names (deref m' p) = names').
  { unfold m'. rewrite deref_alter, decide_True by (split; [done|lia]). done. }
  assert (HNq : ∀ q, q ≠ p → Names (deref m' q)
              = filter (λ n, ¬ (n ∈ names' ∧ bn0 !! n = Some q)) (Names (deref (mem r) q))).
  { intros q Hq. unfold m'. rewrite deref_alter, decide_False by (intros [? _]; done).
    by rewrite Hother. }
  assert (Hbn0 : ∀ n, bn0 !! n = if decide (n ∈ oldNames) then None else byname r !! n)
    by (intros n; apply lookup_foldl_delete).
  assert (Hownp : ∀ n, n ∈ oldNames → byname r !! n = Some p).
  { intros n Hn. pose proof (Hown p Hin) as Ho. rewrite Forall_forall in Ho. by apply Ho. }
  unfold store_wf, mem_valid, byid_sound, byname_sound, ids_indexed, names_indexed,
    ids_unique, bydigest_sound. simpl. split_and!.
  - apply Forall_forall. intros q Hq. unfold m'. rewrite length_alter, Hlen. by apply Hmem.
  - intros x q Hx. destruct (Hid _ _ Hx) as [Hq Hx']. split; [done|]. by rewrite HID.
  - intros n q. rewrite Hbn. destruct (decide (n ∈ names')) as [Hn|Hn].
    + intros [= <-]. split; [done|]. by rewrite HNp.
    + rewrite Hbn0. destruct (decide (n ∈ oldNames)) as [|Ho]; [done|].
      intros Hq. destruct (Hname _ _ Hq) as [Hqin Hnq]. split; [done|].
      assert (q ≠ p) by (by intros ->). rewrite HNq by done.
      apply list_elem_of_filter. split; [|done]. by intros [? _].
  - apply Forall_forall. intros q Hq. rewrite HID. by apply Hidx.
  - apply Forall_forall. intros q Hq. apply Forall_forall. intros n Hn. rewrite Hbn.
    destruct (decide (q = p)) as [->|Hne].
    + rewrite HNp in Hn. by rewrite decide_True.
    + rewrite HNq in Hn by done. apply list_elem_of_filter in Hn as [Hno Hn].
      pose proof (Hown q Hq) as Ho. rewrite Forall_forall in Ho. specialize (Ho n Hn).
      assert (Hbq : bn0 !! n = Some q).
      { rewrite Hbn0, decide_False; [done|]. intros Hnp. specialize (Hownp n Hnp).
        congruence. }
      rewrite decide_False; [done|]. intros Hn'. by apply Hno.
  - rewrite (proj1 (Forall_fmap_ext _ (λ q, ID (deref (mem r) q)) (images r))); [done|].
    apply Forall_forall. intros q _. apply HID.
  - intros d l Hl. destruct (Hdig _ _ Hl) as [Hnil Hall]. split; [done|].
    rewrite Forall_forall in Hall. apply Forall_forall. intros q Hq.
    destruct (Hall q Hq) as [? ?]. split; [done|]. by rewrite HDs.
Qed.

Lemma store_wf_fields r r' :
  images r' = images r → byid r' = byid r → byname r' = byname r →
  bydigest r' = bydigest r → mem r' = mem r →
  store_wf r → store_wf r'.
Proof.
  unfold store_wf, mem_valid, byid_sound, byname_sound, ids_indexed, names_indexed,
    ids_unique, bydigest_sound.
  by intros -> -> -> -> ->.
Qed.

(** Replacing the object behind [p] by one with the same ID and names, and
    the by-digest map by one that is sound for the new heap. *)
Lemma store_wf_replace r p i' ds' :
  store_wf r →
  ID i' = ID (deref (mem r) p) →
  Names i' = Names (deref (mem r) p) →
  map_Forall (λ d l, l ≠ [] ∧
                Forall (λ q, q ∈ images r ∧ d ∈ Digests (deref (<[p := i']> (mem r)) q)) l)
             ds' →
  store_wf (set_bydigest ds' (set_mem (<[p := i']> (mem r)) r)).
Proof.
  intros (Hmem & Hid & Hname & Hidx & Hown & Huniq & Hdig) HID HN Hds.
  assert (HID' : ∀ q, ID (deref (<[p := i']> (mem r)) q) = ID (deref (mem r) q)).
  { intros q. rewrite deref_insert. destruct (decide _) as [[-> _]|]; done. }
  assert (HN' : ∀ q, Names (deref (<[p := i']> (mem r)) q) = Names (deref (mem r) q)).
  { intros q. rewrite deref_insert. destruct (decide _) as [[-> _]|]; done. }
  unfold store_wf, mem_valid, byid_sound, byname_sound, ids_indexed, names_indexed,
    ids_unique, bydigest_sound in *. simpl. split_and!.
  - by rewrite length_insert.
  - intros x q Hx. rewrite HID'. by apply Hid.
  - intros n q Hq. rewrite HN'. by apply Hname.
  - eapply Forall_impl; [exact Hidx|]. intros q Hq. by rewrite HID'.
  - eapply Forall_impl; [exact Hown|]. intros q Hq. by rewrite HN'.
  - rewrite (proj1 (Forall_fmap_ext _ (λ q, ID (deref (mem r) q)) (images r))); [done|].
    apply Forall_forall. intros q _. apply HID'.
  - done.
Qed.

(** After pruning the buckets of the digests of [p], no bucket holds [p]. *)
Lemma prune_digests_sound r p :
  bydigest_sound r →
  map_Forall (λ d l, l ≠ [] ∧
                Forall (λ q, q ≠ p ∧ q ∈ images r ∧ d ∈ Digests (deref (mem r) q)) l)
             (prune_digests p (Digests (deref (mem r) p)) (bydigest r)).
Proof.
  intros Hdig d l. rewrite prune_digests_lookup.
  destruct (decide (d ∈ Digests (deref (mem r) p))) as [Hd|Hd].
  - unfold pruned, imageSliceWithoutValue.
    destruct (filter _ _) as [|q0 l'] eqn:Hf; [done|]. intros [= <-]. split; [done|].
    rewrite <-Hf. apply Forall_forall. intros q [Hne Hq]%list_elem_of_filter.
    destruct (bydigest r !! d) as [l0|] eqn:Hl0; simpl in Hq; [|by apply elem_of_nil in Hq].
    destruct (Hdig _ _ Hl0) as [_ Hall]. rewrite Forall_forall in Hall.
    destruct (Hall q Hq). done.
  - intros Hl. destruct (Hdig _ _ Hl) as [Hnil Hall]. split; [done|].
    rewrite Forall_forall in Hall. apply Forall_forall. intros q Hq.
    destruct (Hall q Hq) as [? ?]. split; [|done]. by intros ->.
Qed.

(** The pruning loop of [SetBigData] is [prune_digests]. *)
Lemma SetBigData_prune image ds : ∀ m : gmap digest.Digest (list loc),
  foldl (λ m oldDigest,
           match m !! oldDigest with
           | Some list =>
             let prunedList := imageSliceWithoutValue list image in
             if decide (length prunedList = 0) then delete oldDigest m
             else <[oldDigest := prunedList]> m
           | None => m
           end) m ds
  = prune_digests image ds m.
Proof.
  unfold prune_digests. induction ds as [|d ds IH]; intros m; simpl; [done|].
  rewrite IH. f_equal. destruct (m !! d) eqn:Hd; simpl; [done|].
  by rewrite delete_id.
Qed.

(** Buckets under the loop of [SetBigData] that indexes the new digests. *)
Lemma SetBigData_index_Forall (Φ : digest.Digest → loc → Prop) image ds :
  ∀ m : gmap digest.Digest (list loc),
  map_Forall (λ d l, l ≠ [] ∧ Forall (Φ d) l) m →
  (∀ d, d ∈ ds → Φ d image) →
  map_Forall (λ d l, l ≠ [] ∧ Forall (Φ d) l)
    (foldl (λ m newDigest,
              let list := default [] (m !! newDigest) in
              if decide (length list = length (imageSliceWithoutValue list image))
              then <[newDigest := list ++ [image]]> m else m) m ds).
Proof.
  induction ds as [|d ds IH]; intros m Hm Hds; simpl; [done|].
  apply IH; [|intros d' Hd'; apply Hds; by apply list_elem_of_further].
  destruct (decide _); [|done].
  apply map_Forall_insert_2; [|done]. split.
  - intros [_ ?]%app_eq_nil. done.
  - apply Forall_app. split.
    + destruct (m !! d) as [l|] eqn:Hl; simpl; [|done]. by destruct (Hm _ _ Hl).
    + apply Forall_singleton. apply Hds. apply list_elem_of_here.
Qed.

(** [SetBigData] keeps the store well-formed, whatever its outcome. *)
Lemma SetBigData_wf sys order id key data digestManifest r r' res :
  store_wf r →
  SetBigData sys order id key data digestManifest r = (r', res) →
  store_wf r'.
Proof.
  intros Hwf. unfold SetBigData.
  destruct (decide (key = "")); [by intros [= <- _]|].
  destruct (negb (IsReadWrite (lockfile r))); [by intros [= <- _]|].
  destruct (lookup r id) as [p|] eqn:Hp; [|by intros [= <- _]].
  pose proof (lookup_valid _ _ _ Hwf Hp) as Hvalid.
  set (i := deref (mem r) p).
  destruct (fails sys (MkdirDataDir (ID i))); [by intros [= <- _]|].
  destruct (newDigest_of key data digestManifest) as [newDigest|]; [|by intros [= <- _]].
  destruct (fails sys (WriteBigData (ID i) key)); [by intros [= <- _]|].
  simpl. rewrite SetBigData_prune.
  set (i1 := set_BigData _ _ _ i).
  assert (Hwf1 : store_wf (set_bydigest (prune_digests p (Digests i) (bydigest r))
                             (set_mem (<[p := i1]> (mem r)) r))).
  { apply store_wf_replace; [done..|].
    eapply map_Forall_impl; [apply prune_digests_sound, Hwf|].
    intros d l [Hnil Hall]. split; [done|]. eapply Forall_impl; [exact Hall|].
    intros q (Hne & Hq & Hd). split; [done|].
    rewrite deref_insert, decide_False by (intros [? _]; done). done. }
  destruct (recomputeDigests order i1) as [i2|] eqn:Hrec.
  2:{ intros [= <- _]. revert Hwf1. by apply store_wf_fields. }
  destruct (recomputeDigests_Names _ _ _ Hrec) as (HN & HI & _).
  set (ds2 := foldl _ _ (Digests i2)).
  assert (Hwf2 : store_wf (set_bydigest ds2 (set_mem (<[p := i2]> (mem r)) r))).
  { apply store_wf_replace; [done|by rewrite HI|by rewrite HN|].
    apply SetBigData_index_Forall.
    - eapply map_Forall_impl; [apply prune_digests_sound, Hwf|].
      intros d l [Hnil Hall]. split; [done|]. eapply Forall_impl; [exact Hall|].
      intros q (Hne & Hq & Hd). split; [done|].
      rewrite deref_insert, decide_False by (intros [? _]; done). done.
    - intros d Hd. split.
      + destruct Hwf as (_ & Hid & Hname & _). by eapply lookup_sound.
      + rewrite deref_insert, decide_True by done. done. }
  set (r2 := set_bydigest ds2 _).
  assert (store_wf r2) as Hwf3.
  { revert Hwf2. apply store_wf_fields; try done.
    unfold r2. simpl. by rewrite list_insert_insert_eq. }
  destruct (_ || _); [|by intros [= <- _]].
  intros Hsave. replace r' with (Save sys r2).1 by (by rewrite Hsave). by apply Save_wf.
Qed.

(** One round of the loop of [Load] keeps [load_index_inv]. *)
Lemma Load_body_index_inv rw orders recs k st st' :
  load_inv rw orders recs k st →
  load_index_inv orders recs k st →
  k < length recs →
  Load_body rw (orders k) st k = Ok st' →
  load_index_inv orders recs (S k) st'.
Proof.
  intros (HL & HU & HP & HN & HS) (Hids & Hidx & Hdig) Hk. unfold Load_body.
  rewrite (HU k) by lia. set (rk := deref recs k).
  destruct (Load_conflict_loop (ld_names st) (Names rk) (ld_mem st) (ld_shouldSave st))
    as (Hlen1 & Hm1 & Hsv1).
  destruct (foldl (Load_conflict (ld_names st)) _ (Names rk)) as [m1 sv1]. simpl in *.
  assert (deref m1 k = rk) as ->.
  { rewrite Hm1, list_filter_id, set_Names_id; [by apply HU|].
    apply Forall_forall. intros x _ [_ Hx]. rewrite HN in Hx.
    apply last_claimer_Some in Hx. lia. }
  destruct (recomputeDigests (orders k) rk) as [image'|] eqn:Hrec; [|done]. simpl.
  intros [= <-]. unfold load_index_inv. simpl. split_and!.
  - apply map_Forall_insert_2; [split; [lia|done]|].
    intros x j Hj. destruct (Hids _ _ Hj). split; [lia|done].
  - intros Hnd j Hj. destruct (decide (j = k)) as [->|Hne]; [apply lookup_insert_eq|].
    rewrite lookup_insert_ne; [apply Hidx; [done|lia]|].
    fold rk. intros Heq. apply Hne. symmetry.
    assert (Hlook : ∀ j', j' < length recs → (ID <$> recs) !! j' = Some (ID (deref recs j'))).
    { intros j' Hj'. rewrite list_lookup_fmap. unfold deref.
      destruct (lookup_lt_is_Some_2 recs j' Hj') as [i ->]. done. }
    eapply (NoDup_lookup _ _ _ _ Hnd); [apply Hlook; lia|].
    unfold rk in Heq. rewrite Heq. apply Hlook. lia.
  - apply (index_digests_Forall
             (λ d q, q < S k ∧ ∃ i', recomputeDigests (orders q) (deref recs q) = Ok i' ∧
                                     d ∈ Digests i')).
    + eapply map_Forall_impl; [exact Hdig|]. intros d l [Hnil Hall]. split; [done|].
      eapply Forall_impl; [exact Hall|]. intros q [Hq Hi]. split; [lia|done].
    + intros d Hd. split; [lia|]. exists image'. done.
Qed.

Lemma load_index_inv_init orders recs :
  load_index_inv orders recs 0 (mkLoad recs [] ∅ ∅ ∅ false).
Proof.
  unfold load_index_inv. simpl. split_and!; try apply map_Forall_empty. intros _ j Hj. lia.
Qed.

Lemma Load_loop_index_inv rw orders recs len : ∀ k st st',
  load_inv rw orders recs k st →
  load_index_inv orders recs k st →
  k + len = length recs →
  foldM (λ st n, Load_body rw (orders n) st n) st (seq k len) = Ok st' →
  load_index_inv orders recs (length recs) st'.
Proof.
  induction len as [|len IH]; intros k st st' Hinv Hinv2 Hlen; simpl.
  - intros [= <-]. by replace (length recs) with k by lia.
  - destruct (Load_body rw (orders k) st k) as [st1|] eqn:Hbody; [|done]. simpl.
    apply (IH (S k)); [| |lia].
    + eapply Load_body_inv; [done|lia|done].
    + eapply Load_body_index_inv; [done|done|lia|done].
Qed.

(** The store that [Load] installs is well-formed when no two records of
    the snapshot share an ID, and the digests of its images are up to date
    when each [range] enumerates the digest cache it visits. *)
Lemma Load_installs_wf rw orders recs st r idx :
  NoDup (ID <$> recs) →
  load_inv rw orders recs (length recs) st →
  load_index_inv orders recs (length recs) st →
  store_wf (set_index (seq 0 (length (ld_mem st))) idx
              (ld_ids st) (ld_names st) (ld_digests st) (ld_mem st) r) ∧
  ((∀ j, j < length recs → range_of (BigDataDigests (deref recs j)) (orders j)) →
   Forall (λ p, digests_current (deref (ld_mem st) p)) (seq 0 (length (ld_mem st)))).
Proof.
  intros Hnd (HL & HU & HP & HN & HS) (Hids & Hidx & Hdig).
  assert (Himg : ∀ j, j < length recs →
            ∃ i', recomputeDigests (orders j) (deref recs j) = Ok i' ∧
                  ID (deref (ld_mem st) j) = ID (deref recs j) ∧
                  Digests (deref (ld_mem st) j) = Digests i' ∧
                  Names (deref (ld_mem st) j)
                  = filter (λ x, ¬ claimed_later recs j (length recs) x)
                           (Names (deref recs j)) ∧
                  deref (ld_mem st) j
                  = set_ReadOnly (negb rw) (set_Names (Names (deref (ld_mem st) j)) i')).
  { intros j Hj. destruct (HP j Hj) as (i' & Hrec & ->). exists i'.
    destruct (recomputeDigests_Names _ _ _ Hrec) as (_ & HI & _). done. }
  split.
  - unfold store_wf, mem_valid, byid_sound, byname_sound, ids_indexed, names_indexed,
      ids_unique, bydigest_sound. simpl. rewrite HL. split_and!.
    + apply Forall_forall. intros j Hj%elem_of_seq. lia.
    + intros x j Hj. destruct (Hids _ _ Hj) as [Hlt Hx]. split; [apply elem_of_seq; lia|].
      destruct (Himg j Hlt) as (i' & _ & HI & _). congruence.
    + intros x j. rewrite HN. intros (Hlt & Hx & Hno)%last_claimer_Some.
      split; [apply elem_of_seq; lia|]. destruct (Himg j Hlt) as (i' & _ & _ & _ & -> & _).
      apply list_elem_of_filter. done.
    + apply Forall_forall. intros j Hj%elem_of_seq.
      destruct (Himg j) as (i' & _ & -> & _); [lia|]. apply Hidx; [done|lia].
    + apply Forall_forall. intros j Hj%elem_of_seq.
      destruct (Himg j) as (i' & _ & _ & _ & -> & _); [lia|].
      apply Forall_forall. intros x [Hno Hx]%list_elem_of_filter.
      rewrite HN. apply last_claimer_Some. split; [lia|done].
    + replace ((λ q, ID (deref (ld_mem st) q)) <$> seq 0 (length recs)) with (ID <$> recs);
        [done|].
      apply list_eq. intros j. rewrite !list_lookup_fmap.
      destruct (decide (j < length recs)) as [Hj|Hj].
      * rewrite lookup_seq_lt by done. simpl.
        destruct (Himg j Hj) as (i' & _ & -> & _). unfold deref.
        destruct (lookup_lt_is_Some_2 recs j Hj) as [i ->]. done.
      * rewrite lookup_seq_ge by lia. by rewrite lookup_ge_None_2 by lia.
    + eapply map_Forall_impl; [exact Hdig|]. intros d l [Hnil Hall]. split; [done|].
      eapply Forall_impl; [exact Hall|]. intros q (Hq & i' & Hrec & Hd).
      split; [apply elem_of_seq; lia|].
      destruct (Himg q Hq) as (i'' & Hrec' & _ & -> & _). congruence.
  - intros Hranges. rewrite HL. apply Forall_forall. intros j Hj%elem_of_seq.
    destruct (Himg j) as (i' & Hrec & _ & _ & _ & Heq); [lia|].
    pose proof (recomputeDigests_makes_current _ _ _ (Hranges j ltac:(lia)) Hrec) as Hc.
    rewrite Heq. revert Hc. unfold digests_current, digests_ok. done.
Qed.

(** [Load] keeps the store well-formed, whatever its outcome, when the
    snapshot is absent or is a document no two records of which share an
    ID. *)
Lemma Load_wf sys orders r r' res :
  store_wf r → snapshot_ok r → Load sys orders r = (r', res) → store_wf r'.
Proof.
  intros Hwf Hsnap. unfold Load.
  destruct (fails sys ReadSnapshot); [by intros [= <- _]|].
  unfold snapshot_ok in Hsnap.
  assert (∃ records, NoDup (ID <$> records) ∧
            (match imagesjson r with
             | NoFile => ([], true)
             | Unparseable partial => (jsonFields <$> partial, false)
             | Document records => (jsonFields <$> records, true)
             end) = (jsonFields <$> records, true)) as (records & Hnd & ->).
  { destruct (imagesjson r) as [| |records]; [|done|].
    - exists []. split; [apply NoDup_nil_2|done].
    - by exists records. }
  set (recs := jsonFields <$> records).
  assert (Hnd' : NoDup (ID <$> recs)).
  { unfold recs. by rewrite <-list_fmap_compose. }
  destruct (foldM _ _ (seq 0 (length recs))) as [st|] eqn:Hloop; [|by intros [= <- _]].
  pose proof Hloop as Hloop2.
  apply (Load_loop_inv (IsReadWrite (lockfile r)) orders recs (length recs) 0) in Hloop;
    [|apply load_inv_init|done].
  apply (Load_loop_index_inv (IsReadWrite (lockfile r)) orders recs (length recs) 0)
    in Hloop2; [|apply load_inv_init|apply load_index_inv_init|done].
  destruct (Load_installs_wf _ _ _ _ r (truncindex.NewTruncIndex (ld_idlist st))
              Hnd' Hloop Hloop2) as [Hwf1 _].
  destruct (ld_shouldSave st && _); [by intros [= <- _]|].
  destruct (ld_shouldSave st); [|by intros [= <- _]].
  intros Hsave. replace r' with (Save sys (set_index (seq 0 (length (ld_mem st)))
    (truncindex.NewTruncIndex (ld_idlist st)) (ld_ids st) (ld_names st) (ld_digests st)
    (ld_mem st) r)).1 by (by rewrite Hsave).
  by apply Save_wf.
Qed.


(** ** The digests of the images of a store *)

Lemma digests_ok_ext i i' :
  Digest i' = Digest i → Digests i' = Digests i → digests_ok i → digests_ok i'.
Proof. unfold digests_ok. by intros -> ->. Qed.

Lemma Save_digests_ok sys r : store_digests_ok r → store_digests_ok (Save sys r).1.
Proof. intros Hok. destruct (Save_store sys r) as [f ->]. done. Qed.







Lemma updateNames_digests_ok sys id names op r r' res :
  store_digests_ok r → updateNames sys id names op r = (r', res) → store_digests_ok r'.
Proof.
  intros Hok. unfold updateNames.
  destruct (negb (IsReadWrite (lockfile r))); [by intros [= <- _]|].
  destruct (lookup r id) as [p|]; [|by intros [= <- _]].
  destruct (applyNameOperation _ names op) as [names'|]; [|by intros [= <- _]].
  set (bn0 := foldl _ (byname r) _).
  pose proof (updateNames_bind_loop_names_only p names' (mem r) bn0) as Honly.
  destruct (foldl (updateNames_bind p) (mem r, bn0) names') as [m bn]. simpl in *.
  intros Hsave. replace r' with (r', res).1 by done. rewrite <-Hsave.
  apply Save_digests_ok. unfold store_digests_ok in *. simpl.
  eapply Forall_impl; [exact Hok|]. intros q Hq.
  assert (names_only (deref (mem r) q) (deref (alter (set_Names names') p m) q)) as Hn.
  { eapply names_only_trans; [apply Honly|].
    apply names_only_alter. intros i. apply names_only_set_Names. }
  destruct (names_only_fields _ _ Hn) as (_ & ? & ? & _). by eapply digests_ok_ext.
Qed.

Lemma Delete_digests_ok sys id r r' res :
  store_digests_ok r → Delete sys id r = (r', res) → store_digests_ok r'.
Proof.
  intros Hok. unfold Delete.
  destruct (negb (IsReadWrite (lockfile r))); [by intros [= <- _]|].
  destruct (lookup r id) as [p|]; [|by intros [= <- _]].
  simpl. set (ims := match foldl _ None _ with Some _ => _ | None => _ end).
  assert (Hims : Forall (λ q, digests_ok (deref (mem r) q)) ims).
  { unfold ims, store_digests_ok in *. destruct (foldl _ None _) as [k|]; [|done].
    destruct (decide _); [by apply Forall_take|].
    apply Forall_app. split; [by apply Forall_take|by apply Forall_drop]. }
  set (r1 := set_index ims _ _ _ _ _ r).
  assert (store_digests_ok (Save sys r1).1) as Hs by (by apply Save_digests_ok).
  destruct (Save sys r1) as [r2 [[]|e]]; simpl in Hs; [|by intros [= <- _]].
  destruct (fails sys _); by intros [= <- _].
Qed.

(** * Properties of the other operations *)

(** ** Resolution of IDs and names *)

(** [Get] and [Images] return the images that the store holds. *)
Lemma Get_deref r id :
  Get r id = match lookup r id with
             | Some image => Ok (deref (mem r) image)
             | None => Err ErrImageUnknown
             end.
Proof. unfold Get. destruct (lookup r id); [|done]. by rewrite copyImage_deref. Qed.

Lemma Images_deref r : Images r = Ok (deref (mem r) <$> images r).
Proof.
  unfold Images. f_equal. apply list_fmap_ext. intros j p _. apply copyImage_deref.
Qed.

Lemma store_wf_byid r p :
  store_wf r → p ∈ images r → byid r !! ID (deref (mem r) p) = Some p.
Proof.
  intros (_ & _ & _ & Hids & _) Hp. unfold ids_indexed in Hids.
  rewrite Forall_forall in Hids. by apply Hids.
Qed.

Lemma store_wf_byname r p n :
  store_wf r → p ∈ images r → n ∈ Names (deref (mem r) p) → byname r !! n = Some p.
Proof.
  intros (_ & _ & _ & _ & Hnames & _) Hp Hn. unfold names_indexed in Hnames.
  rewrite Forall_forall in Hnames. specialize (Hnames p Hp).
  rewrite Forall_forall in Hnames. by apply Hnames.
Qed.

Lemma store_wf_byid_None r n :
  store_wf r → (∀ q, q ∈ images r → ID (deref (mem r) q) ≠ n) → byid r !! n = None.
Proof.
  intros (_ & Hid & _) Hno. destruct (byid r !! n) as [q|] eqn:Hq; [|done].
  destruct (Hid _ _ Hq) as [Hin Heq]. by destruct (Hno q Hin).
Qed.

(** X1.  In a well-formed store an ID resolves to the image that has it, whether
    or not it is also a name or a prefix of another ID; a name that is no ID
    resolves to the image that has it; and whatever [lookup] finds is an image
    of the list that has the argument as its ID or as a name, or whose ID the
    prefix index gives for the argument. *)
Theorem lookup_spec r :
  store_wf r →
  (∀ p, p ∈ images r → lookup r (ID (deref (mem r) p)) = Some p) ∧
  (∀ p n, p ∈ images r → n ∈ Names (deref (mem r) p) →
          (∀ q, q ∈ images r → ID (deref (mem r) q) ≠ n) → lookup r n = Some p) ∧
  (∀ id p, lookup r id = Some p →
           p ∈ images r ∧
           (ID (deref (mem r) p) = id ∨ id ∈ Names (deref (mem r) p) ∨
            truncindex.Get (idindex r) id = Some (ID (deref (mem r) p)))).
Proof.
  intros Hwf. split; [|split].
  - intros p Hp. unfold lookup. by rewrite (store_wf_byid _ _ Hwf Hp).
  - intros p n Hp Hn Hno. unfold lookup.
    rewrite (store_wf_byid_None _ _ Hwf Hno). by rewrite (store_wf_byname _ _ _ Hwf Hp Hn).
  - intros id p. destruct Hwf as (_ & Hid & Hname & _). unfold lookup.
    destruct (byid r !! id) as [q|] eqn:Hq.
    { intros [= <-]. destruct (Hid _ _ Hq). auto. }
    destruct (byname r !! id) as [q|] eqn:Hn.
    { intros [= <-]. destruct (Hname _ _ Hn). auto. }
    destruct (truncindex.Get (idindex r) id) as [longid|]; [|done].
    intros Hl. destruct (Hid _ _ Hl) as [? ->]. auto.
Qed.

(** X2.  [Images] never fails.  It returns one image for each image of the
    list, in the order of the list, and the [j]-th is, field by field, the
    [j]-th image of the list.  In a well-formed store no two of them have the
    same ID, and [Get] with the ID of one of them returns it. *)
Theorem Images_Get r :
  (∃ l, Images r = Ok l) ∧
  ∀ l, Images r = Ok l →
    l = deref (mem r) <$> images r ∧
    (∀ j p, images r !! j = Some p → l !! j = Some (deref (mem r) p)) ∧
    length l = length (images r) ∧
    (store_wf r → NoDup (ID <$> l) ∧ Forall (λ i, Get r (ID i) = Ok i) l).
Proof.
  split; [by eexists|]. intros l [= <-].
  assert (Hcopy : copyImage (mem r) <$> images r = deref (mem r) <$> images r).
  { apply list_fmap_ext. intros j p _. apply copyImage_deref. }
  rewrite Hcopy. split; [done|]. split.
  { intros j p Hj. by rewrite list_lookup_fmap, Hj. }
  split; [by rewrite length_fmap|]. intros Hwf. split.
  - destruct Hwf as (_ & _ & _ & _ & _ & Huniq & _). unfold ids_unique in Huniq.
    by rewrite <-list_fmap_compose.
  - apply Forall_fmap, Forall_forall. intros p Hp. simpl. unfold Get, lookup.
    by rewrite (store_wf_byid _ _ Hwf Hp), copyImage_deref.
Qed.

(** ** What [Save] returns *)

Lemma Save_result sys r :
  (Save sys r).2 = Ok () ∨ (Save sys r).2 = Err ErrStoreIsReadOnly ∨
  (Save sys r).2 = Err ErrNotLockedForWriting ∨ (Save sys r).2 = Err ErrIO ∨
  (Save sys r).2 = Err ErrMarshal.
Proof.
  unfold Save. destruct (negb (IsReadWrite _)); [auto|]. destruct (negb (Locked _)); [auto|].
  destruct (fails sys MkdirStoreDir); [auto|]. destruct (fails sys Marshal); [auto 6|].
  destruct (fails sys WriteSnapshot); [auto|]. destruct (fails sys Touch); auto.
Qed.

Lemma Save_succeeds sys r :
  IsReadWrite (lockfile r) = true → Locked (lockfile r) = true →
  fails sys MkdirStoreDir = false → fails sys Marshal = false →
  fails sys WriteSnapshot = false → fails sys Touch = false →
  Save sys r
  = (set_imagesjson (Document ((λ p, jsonRecord (deref (mem r) p)) <$> images r)) r, Ok ()).
Proof. intros Hrw Hlk Hm Hj Hw Ht. unfold Save. by rewrite Hrw, Hlk, Hm, Hj, Hw, Ht. Qed.

Lemma Save_fields sys r :
  images (Save sys r).1 = images r ∧ byid (Save sys r).1 = byid r ∧
  byname (Save sys r).1 = byname r ∧ bydigest (Save sys r).1 = bydigest r ∧
  mem (Save sys r).1 = mem r ∧ idindex (Save sys r).1 = idindex r ∧
  lockfile (Save sys r).1 = lockfile r ∧ datadirs (Save sys r).1 = datadirs r ∧
  bigdata (Save sys r).1 = bigdata r.
Proof. destruct (Save_store sys r) as [f ->]. done. Qed.

(** ** Create *)

(** Recomputation for an image without big data. *)
Lemma recomputeDigests_nil i :
  recomputeDigests [] i =
  if decide (Digest i = "") then Ok (set_Digests [] i)
  else if Validate (Digest i) then Ok (set_Digests [Digest i] i)
       else Err ErrInvalidDigest.
Proof.
  unfold recomputeDigests. destruct (decide (Digest i = "")) as [He|Hne].
  - rewrite decide_False by (by intros ?). simpl.
    rewrite decide_False by (simpl; intros [_ ?]; lia). done.
  - rewrite decide_True by done. destruct (Validate (Digest i)); simpl; [|done].
    rewrite decide_False by (by intros [? _]). done.
Qed.

(** The two ways in which a [Create] goes: it fails before it changes
    anything, or it puts the image into the store and calls [Save]. *)
Lemma Create_inv sys rand now id names layer metadata created searchableDigest r r' o res :
  Create sys rand now id names layer metadata created searchableDigest r = Some (r', (o, res)) →
  (o = None ∧ r' = r ∧
   (res = Err ErrStoreIsReadOnly ∨ res = Err ErrDuplicateID ∨ res = Err ErrDuplicateName ∨
    res = Err ErrInvalidDigest)) ∨
  (∃ id',
     let image := Create_image now id' names layer metadata created searchableDigest in
     let p := length (mem r) in
     let r1 := set_index (images r ++ [p]) (truncindex.Add (idindex r) id')
                 (<[id' := p]> (byid r))
                 (foldl (λ m name, <[name := p]> m) (byname r) (dedupeNames names))
                 (index_digests p (Digests image) (bydigest r))
                 (mem r ++ [image]) r in
     o = Some image ∧
     IsReadWrite (lockfile r) = true ∧
     (if decide (id = "") then GenerateUnusedID (byid r) rand = Some id' else id' = id) ∧
     byid r !! id' = None ∧
     Forall (λ n, byname r !! n = None) (dedupeNames names) ∧
     (searchableDigest ≠ "" → Validate searchableDigest = true) ∧
     Save sys r1 = (r', res)).
Proof.
  unfold Create.
  destruct (IsReadWrite (lockfile r)) eqn:Hrw; simpl; [|intros [= <- <- <-]; left; auto].
  destruct (if decide (id = "") then _ else _) as [id'|] eqn:Hid; [|done]. simpl.
  destruct (decide (is_Some (byid r !! id'))) as [|Hfree]; [intros [= <- <- <-]; left; auto|].
  rewrite Create_names_check.
  destruct (decide (List.Exists _ (dedupeNames names))) as [|Hunbound];
    [intros [= <- <- <-]; left; auto 6|].
  rewrite map_to_list_empty, recomputeDigests_nil. simpl.
  assert (Hnames : Forall (λ n, byname r !! n = None) (dedupeNames names)).
  { apply Forall_forall. intros n Hn. apply eq_None_not_Some. intros Hs.
    apply Hunbound. apply Exists_exists. by exists n. }
  apply eq_None_not_Some in Hfree.
  assert (Hgen : if decide (id = "") then GenerateUnusedID (byid r) rand = Some id'
                 else id' = id).
  { destruct (decide (id = "")); [done|]. by injection Hid. }
  assert (Hcopy : ∀ i r2 err, Save sys
      (set_index (images r ++ [length (mem r)]) (truncindex.Add (idindex r) id')
         (<[id' := length (mem r)]> (byid r))
         (foldl (λ m name, <[name := length (mem r)]> m) (byname r) (dedupeNames names))
         (index_digests (length (mem r)) (Digests i) (bydigest r))
         (mem r ++ [i]) r) = (r2, err) → copyImage (mem r2) (length (mem r)) = i).
  { intros i r2 err Hsave. replace r2 with (r2, err).1 by done. rewrite <-Hsave.
    destruct (Save_fields sys (set_index (images r ++ [length (mem r)])
      (truncindex.Add (idindex r) id') (<[id' := length (mem r)]> (byid r))
      (foldl (λ m name, <[name := length (mem r)]> m) (byname r) (dedupeNames names))
      (index_digests (length (mem r)) (Digests i) (bydigest r)) (mem r ++ [i]) r))
      as (_ & _ & _ & _ & -> & _).
    simpl. rewrite copyImage_deref. apply deref_app_r. }
  destruct (decide (searchableDigest = "")) as [->|Hne].
  - destruct (Save sys _) as [r2 err] eqn:Hsave. intros [= <- <- <-].
    right. exists id'. unfold Create_image. rewrite decide_True by done.
    rewrite (Hcopy _ _ _ Hsave). split_and!; try done.
  - destruct (Validate searchableDigest) eqn:Hval; [|intros [= <- <- <-]; left; auto 6].
    destruct (Save sys _) as [r2 err] eqn:Hsave. intros [= <- <- <-].
    right. exists id'. unfold Create_image. rewrite decide_False by done.
    rewrite (Hcopy _ _ _ Hsave). split_and!; try done.
Qed.

(** What a [Create] does that finds the ID unused and the names unbound. *)
Lemma Create_fresh sys rand now id names layer metadata created searchableDigest r :
  store_wf r →
  IsReadWrite (lockfile r) = true →
  id ≠ "" →
  byid r !! id = None →
  (∀ n, n ∈ names → byname r !! n = None) →
  (searchableDigest ≠ "" → Validate searchableDigest = true) →
  let image := Create_image now id names layer metadata created searchableDigest in
  ∃ r' res,
    Create sys rand now id names layer metadata created searchableDigest r
      = Some (r', (Some image, res)) ∧
    Get r' id = Ok image ∧
    (∀ n, n ∈ names → (∀ q, q ∈ images r' → ID (deref (mem r') q) ≠ n) →
          Get r' n = Ok image) ∧
    (∀ l, Images r = Ok l → Images r' = Ok (l ++ [image])) ∧
    (∀ q, q ∈ images r →
          Get r' (ID (deref (mem r) q)) = Get r (ID (deref (mem r) q))) ∧
    (Locked (lockfile r) = true → fails sys MkdirStoreDir = false →
     fails sys Marshal = false → fails sys WriteSnapshot = false →
     fails sys Touch = false → res = Ok ()).
Proof.
  intros Hwf Hrw Hid Hfree Hunbound Hvalid image.
  destruct (Create sys rand now id names layer metadata created searchableDigest r)
    as [[r' [o res]]|] eqn:Hcreate.
  2:{ unfold Create in Hcreate. rewrite Hrw in Hcreate. simpl in Hcreate.
      by destruct (decide (id = "")). }
  pose proof (Create_wf _ _ _ _ _ _ _ _ _ _ _ _ Hwf Hcreate) as Hwf'.
  destruct (Create_inv _ _ _ _ _ _ _ _ _ _ _ _ _ Hcreate)
    as [(-> & _ & _)|(id' & -> & _ & Hgen & _ & _ & _ & Hsave)].
  { exfalso. unfold Create in Hcreate. rewrite Hrw in Hcreate. simpl in Hcreate.
    destruct (decide (id = "")); [done|]. simpl in Hcreate.
    destruct (decide (is_Some (byid r !! id))) as [[? Hs]|_];
      [by rewrite Hfree in Hs|].
    rewrite Create_names_check in Hcreate.
    destruct (decide (List.Exists _ (dedupeNames names))) as [Hex|_].
    { apply Exists_exists in Hex as (x & Hx & [q Hq]).
      apply (proj1 (elem_of_dedupeNames _ _)) in Hx.
      rewrite (Hunbound x Hx) in Hq. done. }
    rewrite map_to_list_empty, recomputeDigests_nil in Hcreate. simpl in Hcreate.
    destruct (decide (searchableDigest = "")) as [->|Hne].
    - by destruct (Save sys _).
    - rewrite (Hvalid Hne) in Hcreate. by destruct (Save sys _). }
  rewrite decide_False in Hgen by done. subst id'. fold image in Hsave.
  set (p := length (mem r)) in Hsave.
  set (r1 := set_index _ _ _ _ _ _ _) in Hsave.
  destruct (Save_fields sys r1) as (Him & Hbi & Hbn & _ & Hm & _).
  rewrite Hsave in Him, Hbi, Hbn, Hm. simpl in Him, Hbi, Hbn, Hm.
  assert (Hp : deref (mem r') p = image).
  { rewrite Hm. apply deref_app_r. }
  assert (Hold : ∀ q, q ∈ images r → deref (mem r') q = deref (mem r) q).
  { intros q Hq. rewrite Hm. apply deref_app_l.
    destruct Hwf as (Hmem & _). unfold mem_valid in Hmem.
    rewrite Forall_forall in Hmem. by apply Hmem. }
  exists r', res. split; [done|]. split_and!.
  - rewrite ?Get_deref. unfold lookup. rewrite Hbi, lookup_insert_eq. by rewrite Hp.
  - intros n Hn Hno. rewrite ?Get_deref. unfold lookup.
    rewrite (store_wf_byid_None _ _ Hwf' Hno), Hbn, lookup_foldl_insert.
    rewrite decide_True by (by apply elem_of_dedupeNames). by rewrite Hp.
  - intros l [= <-]. unfold Images. rewrite Him, Hm, fmap_app. simpl. f_equal. f_equal.
    + apply list_fmap_ext. intros k q Hq. rewrite !copyImage_deref. apply deref_app_l.
      destruct Hwf as (Hmem & _). unfold mem_valid in Hmem.
      rewrite Forall_forall in Hmem. apply Hmem. by eapply list_elem_of_lookup_2.
    + rewrite copyImage_deref. f_equal. apply deref_app_r.
  - intros q Hq. rewrite ?Get_deref. unfold lookup.
    rewrite (store_wf_byid _ _ Hwf Hq), Hbi, lookup_insert_ne.
    2:{ intros Heq. rewrite Heq, (store_wf_byid _ _ Hwf Hq) in Hfree. done. }
    rewrite (store_wf_byid _ _ Hwf Hq). by rewrite Hold.
  - intros Hlk Hmk Hj Hw Ht. rewrite Save_succeeds in Hsave by done. by injection Hsave.
Qed.

(** X3.  On a writable, well-formed store a [Create] with an unused ID,
    unbound names and a digest that validates (or none) puts the image made
    of its arguments into the store: [Create] returns it, [Get] finds it
    under its ID and under each of its names that is not the ID of an image,
    [Images] lists it last, and the images that were there are found under
    their IDs as before.  The error is [nil] when the store is locked for
    writing, the encoding of the snapshot does not fail and no system call of
    [Save] does. *)
Theorem Create_Get sys rand now id names layer metadata created searchableDigest r :
  store_wf r →
  IsReadWrite (lockfile r) = true →
  id ≠ "" →
  byid r !! id = None →
  (∀ n, n ∈ names → byname r !! n = None) →
  (searchableDigest ≠ "" → Validate searchableDigest = true) →
  let image := Create_image now id names layer metadata created searchableDigest in
  ∃ r' res,
    Create sys rand now id names layer metadata created searchableDigest r
      = Some (r', (Some image, res)) ∧
    Get r' id = Ok image ∧
    (∀ n, n ∈ names → (∀ q, q ∈ images r' → ID (deref (mem r') q) ≠ n) →
          Get r' n = Ok image) ∧
    (∀ l, Images r = Ok l → Images r' = Ok (l ++ [image])) ∧
    (∀ q, q ∈ images r →
          Get r' (ID (deref (mem r) q)) = Get r (ID (deref (mem r) q))) ∧
    (Locked (lockfile r) = true → fails sys MkdirStoreDir = false →
     fails sys Marshal = false → fails sys WriteSnapshot = false →
     fails sys Touch = false → res = Ok ()).
Proof. apply Create_fresh. Qed.


(** The retry loop returns the first ID of the generator that is not in
    use. *)
Lemma GenerateUnusedID_first (ids : gmap string loc) rand id :
  GenerateUnusedID ids rand = Some id →
  ∃ tried rest, rand = tried ++ id :: rest ∧ Forall (λ x, is_Some (ids !! x)) tried ∧
                ids !! id = None.
Proof.
  induction rand as [|x rand IH]; simpl; [done|].
  destruct (decide (is_Some (ids !! x))) as [Hx|Hx].
  - intros (tried & rest & -> & Htried & Hfree)%IH.
    exists (x :: tried), rest. split; [done|]. split; [by constructor|done].
  - intros [= <-]. exists [], rand. split; [done|]. split; [done|].
    by apply eq_None_not_Some.
Qed.

(** X5.  A [Create] without ID draws IDs from the generator until one is not in
    use: it returns as soon as the generator yields such an ID, it never
    fails with the duplicate-ID error, and the image that it returns has the
    first ID drawn that was not in use. *)
Theorem Create_generated_ID sys rand now names layer metadata created searchableDigest r :
  List.Exists (λ x, byid r !! x = None) rand →
  ∃ r' o res,
    Create sys rand now "" names layer metadata created searchableDigest r
      = Some (r', (o, res)) ∧
    res ≠ Err ErrDuplicateID ∧
    (∀ image, o = Some image →
       ∃ tried rest, rand = tried ++ ID image :: rest ∧
                     Forall (λ x, is_Some (byid r !! x)) tried ∧
                     byid r !! ID image = None).
Proof.
  intros Hrand.
  destruct (Create sys rand now "" names layer metadata created searchableDigest r)
    as [[r' [o res]]|] eqn:Hcreate.
  2:{ unfold Create in Hcreate. destruct (negb _); [done|].
      destruct (decide ("" = "")); [|done].
      destruct (GenerateUnusedID_total _ _ Hrand) as [id' Hgen].
      by rewrite Hgen in Hcreate. }
  exists r', o, res. split; [done|].
  destruct (Create_inv _ _ _ _ _ _ _ _ _ _ _ _ _ Hcreate)
    as [(-> & -> & Hres)|(id' & -> & Hrw & Hgen & Hfree & _ & _ & Hsave)].
  - split; [|done]. intros ->. unfold Create in Hcreate.
    destruct (negb _); [done|]. destruct (decide ("" = "")); [|done].
    destruct (GenerateUnusedID _ _) as [id'|] eqn:Hgen; [|done]. simpl in Hcreate.
    apply GenerateUnusedID_unused in Hgen.
    destruct (decide (is_Some (byid r !! id'))) as [[? Hs]|_]; [by rewrite Hgen in Hs|].
    rewrite Create_names_check in Hcreate.
    destruct (decide (List.Exists _ _)); [done|].
    rewrite map_to_list_empty, recomputeDigests_nil in Hcreate. simpl in Hcreate.
    destruct (decide (searchableDigest = "")); [by destruct (Save sys _)|].
    destruct (Validate searchableDigest); [by destruct (Save sys _)|done].
  - rewrite decide_True in Hgen by done. split.
    + set (r1 := set_index _ _ _ _ _ _ _) in Hsave.
      pose proof (Save_result sys r1) as Hres. rewrite Hsave in Hres. simpl in Hres.
      destruct Hres as [-> | [-> | [-> | [-> | ->]]]]; done.
    + intros image [= <-]. simpl. by apply GenerateUnusedID_first.
Qed.

(** ** SetBigData *)

(** [SetBigData] on an image [p] that it finds, step by step. *)
Lemma SetBigData_unfold sys order id key data digestManifest r p :
  key ≠ "" →
  IsReadWrite (lockfile r) = true →
  lookup r id = Some p →
  SetBigData sys order id key data digestManifest r =
    let i := deref (mem r) p in
    if fails sys (MkdirDataDir (ID i)) then (r, Err ErrIO)
    else
      match newDigest_of key data digestManifest with
      | Err e => (set_files ({[ID i]} ∪ datadirs r) (bigdata r) r, Err e)
      | Ok newDigest =>
        if fails sys (WriteBigData (ID i) key)
        then (set_files ({[ID i]} ∪ datadirs r) (bigdata r) r, Err ErrIO)
        else
          let rf := set_files ({[ID i]} ∪ datadirs r)
                      (<[(ID i, key) := data]> (bigdata r)) r in
          let i1 := SetBigData_image key data newDigest i in
          let ds1 := prune_digests p (Digests i) (bydigest r) in
          match recomputeDigests order i1 with
          | Err e => (set_bydigest ds1 (set_mem (<[p := i1]> (mem r)) rf), Err e)
          | Ok i2 =>
            let r2 := set_bydigest (SetBigData_index p (Digests i2) ds1)
                        (set_mem (<[p := i2]> (mem r)) rf) in
            if SetBigData_save key data newDigest i then Save sys r2 else (r2, Ok ())
          end
      end.
Proof.
  intros Hkey Hrw Hp. unfold SetBigData. rewrite decide_False by done.
  rewrite Hrw, Hp. simpl.
  destruct (fails sys (MkdirDataDir _)); [done|].
  destruct (newDigest_of key data digestManifest) as [newDigest|]; [|done].
  destruct (fails sys (WriteBigData _ key)); [done|]. simpl.
  rewrite SetBigData_prune. fold (SetBigData_image key data newDigest (deref (mem r) p)).
  destruct (recomputeDigests order _) as [i2|]; [|done].
  simpl. rewrite list_insert_insert_eq. done.
Qed.

Lemma bigdata_only_refl key i : bigdata_only key i i.
Proof. split; [by destruct i|]. split; [by left|]. done. Qed.

Lemma SetBigData_image_only key data newDigest i :
  bigdata_only key i (SetBigData_image key data newDigest i).
Proof.
  split; [by destruct i|]. split.
  - unfold SetBigData_image. simpl. destruct (negb _); auto.
  - split; intros k Hk; simpl; by rewrite lookup_insert_ne.
Qed.

Lemma recomputeDigests_fields order i i' :
  recomputeDigests order i = Ok i' →
  i' = set_Digests (Digests i') (set_Digest (Digest i') i).
Proof. intros Hrec. by destruct (recomputeDigests_spec _ _ _ Hrec) as (_&_&_&_&_&_&?). Qed.

Lemma bigdata_only_recompute key order i i1 i2 :
  bigdata_only key i i1 → recomputeDigests order i1 = Ok i2 → bigdata_only key i i2.
Proof.
  intros (Heq & Hn & Hs & Hd) Hrec. apply recomputeDigests_fields in Hrec.
  assert (Hb : BigDataNames i2 = BigDataNames i1 ∧ BigDataSizes i2 = BigDataSizes i1 ∧
               BigDataDigests i2 = BigDataDigests i1) by (by rewrite Hrec).
  destruct Hb as (Hb1 & Hb2 & Hb3). unfold bigdata_only. rewrite Hb1, Hb2, Hb3.
  split; [|done]. rewrite Hrec at 1. rewrite Heq at 1. done.
Qed.

(** What [SetBigData] keeps, whatever it returns. *)
Lemma SetBigData_kept sys order id key data digestManifest r r' res :
  store_wf r →
  SetBigData sys order id key data digestManifest r = (r', res) →
  images r' = images r ∧ byid r' = byid r ∧ byname r' = byname r ∧
  idindex r' = idindex r ∧
  (∀ x, lookup r' x = lookup r x) ∧
  (∀ q, lookup r id ≠ Some q → deref (mem r') q = deref (mem r) q) ∧
  (∀ p, lookup r id = Some p → bigdata_only key (deref (mem r) p) (deref (mem r') p)).
Proof.
  intros Hwf Hset.
  assert (Hsame : r' = r →
    images r' = images r ∧ byid r' = byid r ∧ byname r' = byname r ∧
    idindex r' = idindex r ∧
    (∀ x, lookup r' x = lookup r x) ∧
    (∀ q, lookup r id ≠ Some q → deref (mem r') q = deref (mem r) q) ∧
    (∀ p, lookup r id = Some p → bigdata_only key (deref (mem r) p) (deref (mem r') p))).
  { intros ->. split_and!; try done. intros p _. apply bigdata_only_refl. }
  destruct (decide (key = "")) as [Hk|Hk].
  { unfold SetBigData in Hset. rewrite decide_True in Hset by done.
    apply Hsame. by injection Hset. }
  destruct (IsReadWrite (lockfile r)) eqn:Hrw.
  2:{ unfold SetBigData in Hset. rewrite decide_False, Hrw in Hset by done.
      apply Hsame. by injection Hset. }
  destruct (lookup r id) as [p|] eqn:Hp.
  2:{ unfold SetBigData in Hset. rewrite decide_False, Hrw, Hp in Hset by done.
      apply Hsame. by injection Hset. }
  pose proof (lookup_valid _ _ _ Hwf Hp) as Hvalid.
  rewrite (SetBigData_unfold _ _ _ _ _ _ _ p) in Hset by done. simpl in Hset.
  set (i := deref (mem r) p) in *.
  destruct (fails sys (MkdirDataDir (ID i))); [apply Hsame; by injection Hset|].
  assert (Hfiles : ∀ r0, images r0 = images r → byid r0 = byid r → byname r0 = byname r →
    idindex r0 = idindex r → mem r0 = mem r →
    images r0 = images r ∧ byid r0 = byid r ∧ byname r0 = byname r ∧
    idindex r0 = idindex r ∧
    (∀ x, lookup r0 x = lookup r x) ∧
    (∀ q, Some p ≠ Some q → deref (mem r0) q = deref (mem r) q) ∧
    (∀ p0, Some p = Some p0 → bigdata_only key (deref (mem r) p0) (deref (mem r0) p0))).
  { intros r0 Him Hbi Hbn Hix Hm. split_and!; try done.
    - intros x. unfold lookup. by rewrite Hbi, Hbn, Hix.
    - intros q _. by rewrite Hm.
    - intros p0 [= <-]. rewrite Hm. apply bigdata_only_refl. }
  destruct (newDigest_of key data digestManifest) as [newDigest|].
  2:{ injection Hset as <- _. by apply Hfiles. }
  destruct (fails sys (WriteBigData (ID i) key)).
  { injection Hset as <- _. by apply Hfiles. }
  assert (Hmem : ∀ r0 i', images r0 = images r → byid r0 = byid r → byname r0 = byname r →
    idindex r0 = idindex r → mem r0 = <[p := i']> (mem r) →
    bigdata_only key i i' →
    images r0 = images r ∧ byid r0 = byid r ∧ byname r0 = byname r ∧
    idindex r0 = idindex r ∧
    (∀ x, lookup r0 x = lookup r x) ∧
    (∀ q, Some p ≠ Some q → deref (mem r0) q = deref (mem r) q) ∧
    (∀ p0, Some p = Some p0 → bigdata_only key (deref (mem r) p0) (deref (mem r0) p0))).
  { intros r0 i' Him Hbi Hbn Hix Hm Honly. split_and!; try done.
    - intros x. unfold lookup. by rewrite Hbi, Hbn, Hix.
    - intros q Hq. rewrite Hm, deref_insert, decide_False; [done|].
      intros [-> _]. done.
    - intros p0 [= <-]. by rewrite Hm, deref_insert, decide_True by done. }
  pose proof (SetBigData_image_only key data newDigest i) as Honly1.
  destruct (recomputeDigests order _) as [i2|] eqn:Hrec.
  2:{ injection Hset as <- _. by eapply Hmem. }
  pose proof (bigdata_only_recompute _ _ _ _ _ Honly1 Hrec) as Honly2.
  set (r2 := set_bydigest _ _) in Hset.
  destruct (SetBigData_save key data newDigest i).
  - destruct (Save_fields sys r2) as (Him & Hbi & Hbn & _ & Hm & Hix & _).
    rewrite Hset in Him, Hbi, Hbn, Hm, Hix. simpl in *. by eapply Hmem.
  - injection Hset as <- _. by eapply Hmem.
Qed.

(** X6.  Whatever it returns, [SetBigData] on a well-formed store changes no
    image but the one that it finds: the list, the ID and name indices and
    every other image are as before, so that every ID and name resolves as
    before; and of the image it changes only the digests and the record of
    the item under the key. *)
Theorem SetBigData_frame sys order id key data digestManifest r r' res :
  store_wf r →
  SetBigData sys order id key data digestManifest r = (r', res) →
  images r' = images r ∧ byid r' = byid r ∧ byname r' = byname r ∧
  idindex r' = idindex r ∧
  (∀ x, lookup r' x = lookup r x) ∧
  (∀ q, lookup r id ≠ Some q → deref (mem r') q = deref (mem r) q) ∧
  (∀ p, lookup r id = Some p → bigdata_only key (deref (mem r) p) (deref (mem r') p)).
Proof. apply SetBigData_kept. Qed.

(** X7.  After a successful [SetBigData] the item can be read back under the same
    ID or name: [BigData] returns the bytes written (when the read does not
    fail), [BigDataSize] their number and [BigDataDigest] the digest that was
    computed for them, both from the record of the image and so whatever the
    read does, and [BigDataNames] lists the key, once if it listed no key
    twice before. *)
Theorem SetBigData_BigData rd sys order id key data digestManifest r r' :
  store_wf r →
  SetBigData sys order id key data digestManifest r = (r', Ok ()) →
  ∃ p newDigest names,
    lookup r id = Some p ∧
    newDigest_of key data digestManifest = Ok newDigest ∧
    BigDataSize rd r' id key = Ok (Z.of_nat (length data)) ∧
    BigDataDigest r' id key = Ok newDigest ∧
    imageStore_BigDataNames r' id = Ok names ∧
    key ∈ names ∧
    (NoDup (BigDataNames (deref (mem r) p)) → NoDup names) ∧
    (read_fails rd (ID (deref (mem r) p)) key = false → BigData rd r' id key = Ok data).
Proof.
  intros Hwf Hset.
  destruct (SetBigData_kept _ _ _ _ _ _ _ _ _ Hwf Hset) as (_ & _ & _ & _ & Hlook & _).
  destruct (decide (key = "")) as [Hk|Hk].
  { unfold SetBigData in Hset. by rewrite decide_True in Hset by done. }
  destruct (IsReadWrite (lockfile r)) eqn:Hrw.
  2:{ unfold SetBigData in Hset. by rewrite decide_False, Hrw in Hset by done. }
  destruct (lookup r id) as [p|] eqn:Hp.
  2:{ unfold SetBigData in Hset. by rewrite decide_False, Hrw, Hp in Hset by done. }
  pose proof (lookup_valid _ _ _ Hwf Hp) as Hvalid.
  rewrite (SetBigData_unfold _ _ _ _ _ _ _ p) in Hset by done. simpl in Hset.
  set (i := deref (mem r) p) in *.
  destruct (fails sys (MkdirDataDir (ID i))); [done|].
  destruct (newDigest_of key data digestManifest) as [newDigest|]; [|done].
  destruct (fails sys (WriteBigData (ID i) key)); [done|].
  destruct (recomputeDigests order _) as [i2|] eqn:Hrec; [|done].
  set (r2 := set_bydigest _ _) in Hset.
  assert (Hr' : mem r' = mem r2 ∧ bigdata r' = bigdata r2).
  { destruct (SetBigData_save key data newDigest i).
    - destruct (Save_fields sys r2) as (_ & _ & _ & _ & Hm & _ & _ & _ & Hb).
      by rewrite Hset in Hm, Hb.
    - by injection Hset as <-. }
  destruct Hr' as [Hm Hb].
  assert (Hi2 : deref (mem r') p = i2).
  { rewrite Hm. simpl. by rewrite deref_insert, decide_True. }
  apply recomputeDigests_fields in Hrec.
  assert (Hf : ID i2 = ID i ∧
               BigDataSizes i2 = <[key := Z.of_nat (length data)]> (BigDataSizes i) ∧
               BigDataDigests i2 = <[key := newDigest]> (BigDataDigests i) ∧
               BigDataNames i2 = (if negb (bool_decide (key ∈ BigDataNames i))
                                  then BigDataNames i ++ [key] else BigDataNames i))
    by (by rewrite Hrec).
  destruct Hf as (Hid & Hsz & Hdg & Hnm).
  exists p, newDigest, (BigDataNames i2). split; [done|]. split; [done|].
  unfold BigDataSize, BigDataDigest, imageStore_BigDataNames, BigData.
  rewrite !decide_False, !Hlook, Hp by done. simpl.
  rewrite Hi2, Hsz, Hdg, Hid, !lookup_insert_eq.
  split; [done|]. split; [done|]. split; [done|]. rewrite Hnm. split; [|split].
  - destruct (bool_decide (key ∈ BigDataNames i)) eqn:Hin; simpl.
    + by apply bool_decide_eq_true in Hin.
    + apply elem_of_app. right. by apply list_elem_of_singleton.
  - intros Hnd. destruct (bool_decide (key ∈ BigDataNames i)) eqn:Hin; simpl; [done|].
    apply bool_decide_eq_false in Hin. apply NoDup_app. split; [done|].
    split; [|apply NoDup_singleton].
    intros x Hx ->%list_elem_of_singleton. done.
  - intros Hrd. fold i in Hrd. rewrite Hrd, Hb. simpl. by rewrite lookup_insert_eq.
Qed.

(** ** Operations on one field of an image *)

(** What [Save] returns depends on the lock and on the system calls only. *)
Lemma Save_result_mem sys m r : (Save sys (set_mem m r)).2 = (Save sys r).2.
Proof.
  unfold Save. simpl. destruct (negb (IsReadWrite _)); [done|].
  destruct (negb (Locked _)); [done|]. destruct (fails sys MkdirStoreDir); [done|].
  destruct (fails sys Marshal); [done|].
  destruct (fails sys WriteSnapshot); [done|]. by destruct (fails sys Touch).
Qed.

Lemma Save_synced sys r r' : Save sys r = (r', Ok ()) → synced r'.
Proof. intros ->%Save_ok. done. Qed.

(** An assignment to a field of the image [p], followed by [Save]. *)
Lemma update_Save sys f r p r' res :
  p < length (mem r) →
  Save sys (set_mem (alter f p (mem r)) r) = (r', res) →
  res = (Save sys r).2 ∧
  deref (mem r') p = f (deref (mem r) p) ∧
  (∀ q, q ≠ p → deref (mem r') q = deref (mem r) q) ∧
  (∀ x, lookup r' x = lookup r x) ∧
  images r' = images r ∧
  (res = Ok () → synced r').
Proof.
  intros Hp Hsave.
  destruct (Save_fields sys (set_mem (alter f p (mem r)) r))
    as (Him & Hbi & Hbn & _ & Hm & Hix & _).
  rewrite Hsave in Him, Hbi, Hbn, Hm, Hix. simpl in *.
  split_and!.
  - rewrite <-(Save_result_mem sys (alter f p (mem r)) r). by rewrite Hsave.
  - by rewrite Hm, deref_alter, decide_True.
  - intros q Hq. rewrite Hm, deref_alter, decide_False; [done|]. by intros [-> _].
  - intros x. unfold lookup. by rewrite Hbi, Hbn, Hix.
  - done.
  - intros ->. by eapply Save_synced.
Qed.

(** X8.  [SetMetadata] on an image that it finds in a writable store replaces the
    metadata of that image, and of no other, before it calls [Save], so that
    [Metadata] returns the new value whatever [Save] returns; the error is
    the one of [Save], and when there is none the snapshot holds the list of
    the store. *)
Theorem SetMetadata_Metadata sys id metadata r p :
  store_wf r →
  IsReadWrite (lockfile r) = true →
  lookup r id = Some p →
  ∃ r',
    SetMetadata sys id metadata r = (r', (Save sys r).2) ∧
    imageStore_Metadata r' id = Ok metadata ∧
    Get r' id = Ok (set_Metadata metadata (deref (mem r) p)) ∧
    (∀ x q, lookup r x = Some q → q ≠ p → Get r' x = Get r x) ∧
    ((Save sys r).2 = Ok () → synced r').
Proof.
  intros Hwf Hrw Hp. pose proof (lookup_valid _ _ _ Hwf Hp) as Hvalid.
  unfold SetMetadata. rewrite Hrw, Hp. simpl.
  destruct (Save sys _) as [r' res] eqn:Hsave.
  destruct (update_Save _ _ _ _ _ _ Hvalid Hsave) as (-> & Hi & Hother & Hlook & _ & Hsync).
  exists r'. split; [done|]. rewrite ?Get_deref. unfold imageStore_Metadata.
  rewrite Hlook, Hp, Hi. split; [done|]. split; [done|]. split; [|done].
  intros x q Hx Hq. rewrite !Get_deref, Hlook, Hx. by rewrite Hother.
Qed.

(** X9.  [SetFlag] sets the flag of the image that it finds in a writable store,
    and a [ClearFlag] after it removes the flag again: the image is then as
    before if it did not have the flag, and has lost the flag otherwise.  No
    other image changes. *)
Theorem SetFlag_ClearFlag sys sys' id flag value r p :
  store_wf r →
  IsReadWrite (lockfile r) = true →
  lookup r id = Some p →
  let i := deref (mem r) p in
  ∃ r1 r2,
    SetFlag sys id flag value r = (r1, (Save sys r).2) ∧
    ClearFlag sys' id flag r1 = (r2, (Save sys' r).2) ∧
    Get r1 id = Ok (set_Flags (<[flag := value]> (Flags i)) i) ∧
    Get r2 id = Ok (set_Flags (delete flag (Flags i)) i) ∧
    (Flags i !! flag = None → Get r2 id = Get r id) ∧
    (∀ x q, lookup r x = Some q → q ≠ p → Get r1 x = Get r x ∧ Get r2 x = Get r x).
Proof.
  intros Hwf Hrw Hp i. pose proof (lookup_valid _ _ _ Hwf Hp) as Hvalid.
  destruct (SetFlag sys id flag value r) as [r1 res1] eqn:Hcall1.
  pose proof Hcall1 as Hset1. unfold SetFlag in Hset1. rewrite Hrw, Hp in Hset1. simpl in Hset1.
  destruct (update_Save _ _ _ _ _ _ Hvalid Hset1) as (-> & Hi1 & Hother1 & Hlook1 & _).
  destruct (Save_store sys (set_mem (alter (λ i, set_Flags (<[flag:=value]> (Flags i)) i)
    p (mem r)) r)) as [f Hf].
  rewrite Hset1 in Hf. simpl in Hf.
  assert (Hrw1 : IsReadWrite (lockfile r1) = true) by (by rewrite Hf).
  assert (Hvalid1 : p < length (mem r1)) by (rewrite Hf; simpl; by rewrite length_alter).
  assert (Hres : (Save sys' r1).2 = (Save sys' r).2).
  { rewrite Hf. unfold Save. simpl.
    destruct (negb (IsReadWrite _)); [done|].
    destruct (negb (Locked _)); [done|]. destruct (fails sys' MkdirStoreDir); [done|].
    destruct (fails sys' Marshal); [done|].
    destruct (fails sys' WriteSnapshot); [done|]. by destruct (fails sys' Touch). }
  destruct (ClearFlag sys' id flag r1) as [r2 res2] eqn:Hcall2.
  pose proof Hcall2 as Hset2. unfold ClearFlag in Hset2. rewrite Hrw1, Hlook1, Hp in Hset2. simpl in Hset2.
  destruct (update_Save _ _ _ _ _ _ Hvalid1 Hset2) as (-> & Hi2 & Hother2 & Hlook2 & _).
  exists r1, r2. rewrite <-Hres. split; [done|]. split; [done|].
  rewrite ?Get_deref. rewrite Hlook2, Hlook1, Hp, Hi2, Hi1. simpl.
  fold i. split; [done|]. rewrite delete_insert_eq. split; [done|]. split.
  - intros Hnone. rewrite delete_id by done. by destruct i.
  - intros x q Hx Hq. rewrite !Get_deref, Hlook2, !Hlook1, Hx, Hother2, Hother1 by done. done.
Qed.

(** X10.  [addMappedTopLayer] has no check of its own that the store is writable:
    it appends the layer to the mapped layers of the image that it finds, of
    no other, and calls [Save], whose error it returns.  The layer is there
    whatever [Save] returns, also on a store that is not read-write, where
    the error is the read-only error. *)
Theorem addMappedTopLayer_spec sys id layer r p :
  store_wf r →
  lookup r id = Some p →
  let i := deref (mem r) p in
  ∃ r',
    addMappedTopLayer sys id layer r = (r', (Save sys r).2) ∧
    Get r' id = Ok (set_MappedTopLayers (MappedTopLayers i ++ [layer]) i) ∧
    (∀ x q, lookup r x = Some q → q ≠ p → Get r' x = Get r x) ∧
    (IsReadWrite (lockfile r) = false → (Save sys r).2 = Err ErrStoreIsReadOnly).
Proof.
  intros Hwf Hp i. pose proof (lookup_valid _ _ _ Hwf Hp) as Hvalid.
  unfold addMappedTopLayer. rewrite Hp.
  destruct (Save sys _) as [r' res] eqn:Hsave.
  destruct (update_Save _ _ _ _ _ _ Hvalid Hsave) as (-> & Hi & Hother & Hlook & _).
  exists r'. split; [done|]. rewrite ?Get_deref. rewrite Hlook, Hp, Hi.
  split; [done|]. split.
  - intros x q Hx Hq. rewrite !Get_deref, Hlook, Hx. by rewrite Hother.
  - intros Hro. unfold Save. by rewrite Hro.
Qed.

(** ** More on digest recomputation *)

(** X11.  Recomputation succeeds exactly when the explicit digest, if there is
    one, and the digest of every item with the manifest prefix validate; the
    digests of the other items are not looked at.  Its only error is the one
    of a digest that does not validate. *)
Theorem recomputeDigests_succeeds_iff order i :
  range_of (BigDataDigests i) order →
  ((∃ i', recomputeDigests order i = Ok i') ↔
   (Digest i ≠ "" → Validate (Digest i) = true) ∧
   (∀ name d, BigDataDigests i !! name = Some d → bigDataNameIsManifest name = true →
              Validate d = true)) ∧
  (∀ e, recomputeDigests order i = Err e → e = ErrInvalidDigest).
Proof.
  intros Hr. split; [split|].
  - intros [i' Hrec].
    destruct (recomputeDigests_spec _ _ _ Hrec) as (_ & Hval & Hd & _ & _ & Hmem & _).
    split; [intros Hne; by destruct (Hd Hne)|].
    intros name d Hlk Hm. rewrite Forall_forall in Hval. apply Hval, Hmem. right.
    exists name. split; [|done]. unfold range_of in Hr. rewrite Hr.
    by apply elem_of_map_to_list.
  - intros [Hd Hm]. apply recomputeDigests_total; [|done]. split; [done|].
    intros d Hin. apply (elem_of_manifestDigests _ order) in Hin as (name & Hin & Hman);
      [|done].
    unfold range_of in Hr. rewrite Hr in Hin. apply elem_of_map_to_list in Hin.
    by eapply Hm.
  - intros e. unfold recomputeDigests.
    destruct (decide (Digest i ≠ "")).
    + destruct (negb (Validate (Digest i))); simpl; [by intros [= <-]|].
      destruct (foldM _ _ _) eqn:Hloop; simpl; [done|]. intros [= <-].
      by eapply recomputeDigests_loop_error.
    + simpl. destruct (foldM _ _ _) eqn:Hloop; simpl; [done|]. intros [= <-].
      by eapply recomputeDigests_loop_error.
Qed.

(** A loop that has found its first digest goes on as a loop that was given
    that digest to start with. *)
Lemma recomputeDigests_loop_head order : ∀ d0 w s,
  foldM recomputeDigests_body ([], ∅) order = Ok (d0 :: w, s) →
  foldM recomputeDigests_body ([d0], {[d0]}) order = Ok (d0 :: w, s).
Proof.
  induction order as [|[name d] order IH]; intros d0 w s; simpl; [done|].
  destruct (bigDataNameIsManifest name) eqn:Hm; simpl; [|apply IH].
  destruct (Validate d) eqn:Hv; simpl; [|done].
  rewrite decide_False by set_solver. simpl. intros Hloop.
  assert (d = d0) as ->.
  { apply recomputeDigests_loop_inv in Hloop as (_ & [k Hk] & _); simpl in *.
    - by injection Hk.
    - split_and!; simpl; [apply NoDup_singleton|set_solver|by apply Forall_singleton]. }
  rewrite decide_True by set_solver. simpl.
  by rewrite (right_id_L ∅ (∪)) in Hloop.
Qed.

(** X12.  Recomputation is idempotent: recomputing the digests of an image whose
    digests have just been recomputed, with the same order over the digest
    cache, returns that image; with another order it returns an image with
    the same [Digest] and the same [Digests] up to the order behind the
    first. *)
Theorem recomputeDigests_idempotent order i i' :
  recomputeDigests order i = Ok i' →
  recomputeDigests order i' = Ok i' ∧
  (∀ order', range_of (BigDataDigests i) order → range_of (BigDataDigests i) order' →
     ∃ i'', recomputeDigests order' i' = Ok i'' ∧ Digest i'' = Digest i' ∧
            Digests i'' ≡ₚ Digests i' ∧ head (Digests i'') = head (Digests i')).
Proof.
  intros Hrec. split.
  - pose proof (recomputeDigests_fields _ _ _ Hrec) as Hf.
    destruct (recomputeDigests_spec _ _ _ Hrec) as (_ & Hval & _ & _ & _ & _ & _).
    revert Hrec Hf Hval. unfold recomputeDigests.
    destruct (decide (Digest i ≠ "")) as [Hne|He].
    + destruct (Validate (Digest i)) eqn:Hv; simpl; [|done].
      destruct (foldM _ _ _) as [[v s]|] eqn:Hloop; simpl; [|done].
      rewrite decide_False by (by intros [? _]). intros [= <-] _ _. simpl.
      rewrite decide_True by done. rewrite Hv. simpl. rewrite Hloop. simpl.
      rewrite decide_False by (by intros [? _]). done.
    + apply dec_stable in He. simpl.
      destruct (foldM _ _ _) as [[v s]|] eqn:Hloop; simpl; [|done].
      destruct v as [|d0 w]; simpl.
      * rewrite decide_False by (intros [_ ?]; lia). intros [= <-] _ _. simpl.
        rewrite decide_False by (by intros ?). simpl. rewrite Hloop. simpl.
        rewrite decide_False by (simpl; intros [_ ?]; lia). done.
      * rewrite decide_True by (split; [done|lia]). intros [= <-] _ Hval. simpl in *.
        apply Forall_cons in Hval as [Hv0 _].
        assert (d0 ≠ "") as Hne0 by (intros ->; by rewrite Validate_empty in Hv0).
        rewrite decide_True by done. rewrite Hv0. simpl.
        rewrite (recomputeDigests_loop_head _ _ _ _ Hloop). simpl.
        rewrite decide_False by (by intros [? _]). done.
  - intros order' Hr Hr'.
    pose proof (recomputeDigests_makes_current _ _ _ Hr Hrec) as Hcur.
    destruct (recomputeDigests_Names _ _ _ Hrec) as (_ & _ & Hbd).
    rewrite <-Hbd in Hr'.
    destruct (recomputeDigests_total order' i' (digests_current_valid _ Hcur) Hr')
      as [i'' Hrec'].
    destruct (recomputeDigests_current _ _ _ Hcur Hr' Hrec') as (Heq & Hperm & Hhd).
    exists i''. split; [done|]. split; [by rewrite Heq|]. done.
Qed.

(** ** Delete *)

(** [Delete] on an image [p] that it finds in a writable, well-formed store,
    step by step. *)
Lemma Delete_unfold sys id r p :
  store_wf r →
  IsReadWrite (lockfile r) = true →
  lookup r id = Some p →
  ∃ k, images r !! k = Some p ∧
    Delete sys id r =
      match Save sys (Delete_removed r p k) with
      | (r2, Err e) => (r2, Err e)
      | (r2, Ok _) =>
        if fails sys (RemoveDataDir (ID (deref (mem r) p)))
        then (set_files (datadirs r2)
                (filter (λ kv, ¬ (kv.1.1 = ID (deref (mem r) p) ∧
                                  removed sys (ID (deref (mem r) p)) kv.1.2 = true))
                        (bigdata r2)) r2, Err ErrIO)
        else (set_files (datadirs r2 ∖ {[ID (deref (mem r) p)]})
                (filter (λ kv, kv.1.1 ≠ ID (deref (mem r) p)) (bigdata r2)) r2, Ok ())
      end.
Proof.
  intros Hwf Hrw Hp. unfold Delete. rewrite Hrw, Hp. simpl.
  destruct Hwf as (Hmem & Hid & Hname & Hidx & Hown & Huniq & Hdig).
  pose proof (lookup_sound _ _ _ Hid Hname Hp) as Hin.
  apply list_elem_of_lookup_1 in Hin as [k Hk]. exists k. split; [done|].
  rewrite (toDeleteIndex_unique (λ q, ID (deref (mem r) q)) (images r) 0 None k p Huniq Hk).
  simpl.
  assert (Hims : (if decide (k = length (images r) - 1)
                  then take (length (images r) - 1) (images r)
                  else (take k (images r) ++ drop (k + 1) (images r)))
                 = delete k (images r)).
  { pose proof (lookup_lt_Some _ _ _ Hk) as Hlt.
    rewrite delete_take_drop. destruct (decide _) as [->|_].
    - replace (S (length (images r) - 1)) with (length (images r)) by lia.
      by rewrite drop_all, app_nil_r.
    - by rewrite Nat.add_1_r. }
  rewrite Hims. done.
Qed.

Lemma store_wf_NoDup r : store_wf r → NoDup (images r).
Proof.
  intros (_ & _ & _ & _ & _ & Huniq & _). unfold ids_unique in Huniq.
  by apply NoDup_fmap_1 in Huniq.
Qed.

Lemma delete_NoDup_filter (l : list loc) k p :
  NoDup l → l !! k = Some p → delete k l = filter (λ q, q ≠ p) l.
Proof.
  revert k. induction l as [|x l IH]; intros k Hnd Hk; [done|].
  apply NoDup_cons in Hnd as [Hx Hnd]. destruct k as [|k]; simpl in *.
  - injection Hk as ->. rewrite filter_cons_False by (by intros ?).
    symmetry. apply list_filter_id. apply Forall_forall. by intros q Hq ->.
  - rewrite filter_cons_True.
    + f_equal. by apply IH.
    + intros ->. apply Hx. by eapply list_elem_of_lookup_2.
Qed.

(** What [Delete] has done to the store when it calls [Save]. *)
Lemma Delete_removed_spec r p k :
  store_wf r →
  images r !! k = Some p →
  images (Delete_removed r p k) = filter (λ q, q ≠ p) (images r) ∧
  (p ∉ images (Delete_removed r p k)) ∧
  store_wf (Delete_removed r p k) ∧
  byid (Delete_removed r p k) = delete (ID (deref (mem r) p)) (byid r).
Proof.
  intros Hwf Hk. pose proof (store_wf_NoDup _ Hwf) as Hnd.
  assert (Him : images (Delete_removed r p k) = filter (λ q, q ≠ p) (images r)).
  { simpl. by apply delete_NoDup_filter. }
  split; [done|]. split; [|split; [|done]].
  - rewrite Him. intros [? _]%list_elem_of_filter. done.
  - by apply store_wf_remove.
Qed.

(** X13.  A successful [Delete] on a well-formed store takes one image out of
    the list, the one that it finds, and no other: the others are in the list
    in the order in which they were, unchanged, each found under its ID and
    bound to each of its names.  The data directory of the image is gone,
    with the blob files in it. *)
Theorem Delete_frame sys id r r' :
  store_wf r →
  Delete sys id r = (r', Ok ()) →
  ∃ p, lookup r id = Some p ∧
    images r' = filter (λ q, q ≠ p) (images r) ∧
    mem r' = mem r ∧
    (∀ q, q ∈ images r → q ≠ p →
          byid r' !! ID (deref (mem r) q) = Some q ∧
          ∀ n, n ∈ Names (deref (mem r) q) → byname r' !! n = Some q) ∧
    (ID (deref (mem r) p) ∉ datadirs r') ∧
    (∀ k, bigdata r' !! (ID (deref (mem r) p), k) = None).
Proof.
  intros Hwf Hdel. pose proof (Delete_wf _ _ _ _ _ Hwf Hdel) as Hwf'.
  destruct (IsReadWrite (lockfile r)) eqn:Hrw.
  2:{ unfold Delete in Hdel. by rewrite Hrw in Hdel. }
  destruct (lookup r id) as [p|] eqn:Hp.
  2:{ unfold Delete in Hdel. by rewrite Hrw, Hp in Hdel. }
  exists p. split; [done|].
  destruct (Delete_unfold sys _ _ _ Hwf Hrw Hp) as (k & Hk & Heq).
  rewrite Heq in Hdel. clear Heq.
  destruct (Delete_removed_spec _ _ _ Hwf Hk) as (Him & _ & _ & _).
  destruct (Save sys _) as [r2 [[]|e]] eqn:Hsave; [|done].
  apply Save_ok in Hsave.
  destruct (fails sys (RemoveDataDir _)); [done|]. injection Hdel as <-.
  subst r2. simpl in *.
  split; [done|]. split; [done|]. split; [|split].
  - intros q Hq Hne.
    assert (q ∈ filter (λ q, q ≠ p) (images r)) as Hq'.
    { by apply list_elem_of_filter. }
    rewrite <-Him in Hq'. split.
    + by apply (store_wf_byid _ _ Hwf' Hq').
    + intros n Hn. by apply (store_wf_byname _ _ _ Hwf' Hq').
  - intros [_ Hn]%elem_of_difference. apply Hn. by apply elem_of_singleton.
  - intros k'. apply map_lookup_filter_None. right. intros data _. simpl. by intros ?.
Qed.

(** X14.  On a well-formed, writable store a [Delete] that fails once it has
    found the image is not rolled back: although the call returns an error,
    which is one of [Save] or the one of a system call, the image is out of
    the list, its ID out of the by-ID map and its names out of the by-name
    map, and the other images are in the list as before. *)
Theorem Delete_not_rolled_back sys id r p r' e :
  store_wf r →
  IsReadWrite (lockfile r) = true →
  lookup r id = Some p →
  Delete sys id r = (r', Err e) →
  (e = ErrNotLockedForWriting ∨ e = ErrIO ∨ e = ErrMarshal) ∧
  (p ∉ images r') ∧
  images r' = filter (λ q, q ≠ p) (images r) ∧
  byid r' !! ID (deref (mem r) p) = None ∧
  (∀ n, n ∈ Names (deref (mem r) p) → byname r' !! n = None).
Proof.
  intros Hwf Hrw Hp Hdel.
  destruct (Delete_unfold sys _ _ _ Hwf Hrw Hp) as (k & Hk & Heq).
  rewrite Heq in Hdel. clear Heq.
  destruct (Delete_removed_spec _ _ _ Hwf Hk) as (Hfilter & Hnot & _ & Hbi).
  destruct (Save_fields sys (Delete_removed r p k)) as (Him & Hbi' & Hbn' & _).
  pose proof (Save_result sys (Delete_removed r p k)) as Hres.
  assert (Hrw1 : IsReadWrite (lockfile (Delete_removed r p k)) = true) by done.
  destruct (Save sys _) as [r2 res] eqn:Hsave. simpl in Him, Hbi', Hbn', Hres.
  assert (Hgone : byid r2 !! ID (deref (mem r) p) = None).
  { rewrite Hbi'. apply lookup_delete_eq. }
  assert (Hnot2 : p ∉ images r2) by (by rewrite Him).
  assert (Hlist : images r2 = filter (λ q, q ≠ p) (images r)) by (by rewrite Him).
  assert (Hnames : ∀ n, n ∈ Names (deref (mem r) p) → byname r2 !! n = None).
  { intros n Hn. rewrite Hbn'. simpl. rewrite lookup_foldl_delete. by rewrite decide_True. }
  destruct res as [[]|e'].
  - destruct (fails sys (RemoveDataDir _)); [|done]. injection Hdel as <- <-.
    split; [auto|]. done.
  - injection Hdel as <- <-. split; [|done].
    destruct Hres as [?|[Hro|[[= ->]|[[= ->]|[= ->]]]]]; [done| |auto..]. exfalso.
    unfold Save in Hsave. rewrite Hrw1 in Hsave. simpl in Hsave.
    destruct (negb (Locked _)); [by simplify_eq|].
    destruct (fails sys MkdirStoreDir); [by simplify_eq|].
    destruct (fails sys Marshal); [by simplify_eq|].
    destruct (fails sys WriteSnapshot); [by simplify_eq|].
    destruct (fails sys Touch); by simplify_eq.
Qed.

(** ** Wipe *)

(** A store that is well-formed and has nothing in its by-ID map is empty. *)
Lemma store_wf_empty r :
  store_wf r → byid r = ∅ → images r = [] ∧ byname r = ∅ ∧ bydigest r = ∅.
Proof.
  intros Hwf Hbi.
  assert (Him : images r = []).
  { destruct (images r) as [|q l] eqn:Hl; [done|].
    assert (q ∈ images r) as Hq by (rewrite Hl; apply list_elem_of_here).
    pose proof (store_wf_byid _ _ Hwf Hq) as Hlk. by rewrite Hbi in Hlk. }
  destruct Hwf as (_ & _ & Hname & _ & _ & _ & Hdig).
  split; [done|]. split.
  - apply map_empty. intros n. destruct (byname r !! n) as [q|] eqn:Hn; [|done].
    destruct (Hname _ _ Hn) as [Hq _]. rewrite Him in Hq. by apply elem_of_nil in Hq.
  - apply map_empty. intros d. destruct (bydigest r !! d) as [l|] eqn:Hd; [|done].
    destruct (Hdig _ _ Hd) as [Hne Hall]. destruct l as [|q l]; [done|].
    apply Forall_cons in Hall as [[Hq _] _]. rewrite Him in Hq. by apply elem_of_nil in Hq.
Qed.

(** The loop of [Wipe] over the IDs of the by-ID map. *)
Lemma Wipe_loop_spec sys ids : ∀ r,
  store_wf r →
  IsReadWrite (lockfile r) = true →
  NoDup ids →
  (∀ x, x ∈ ids ↔ is_Some (byid r !! x)) →
  ∃ r' res,
    Wipe_loop sys ids r = (r', res) ∧
    store_wf r' ∧
    (res = Ok () → byid r' = ∅) ∧
    (Locked (lockfile r) = true → (∀ c, fails sys c = false) → res = Ok ()).
Proof.
  induction ids as [|id ids IH]; intros r Hwf Hrw Hnd Hids; simpl.
  { exists r, (Ok ()). split; [done|]. split; [done|]. split; [|done]. intros _.
    apply map_empty. intros x. apply eq_None_not_Some. intros Hx%Hids.
    by apply elem_of_nil in Hx. }
  apply NoDup_cons in Hnd as [Hid Hnd].
  destruct (proj1 (Hids id) (list_elem_of_here _ _)) as [p Hbyid].
  assert (Hp : lookup r id = Some p) by (unfold lookup; by rewrite Hbyid).
  assert (HID : ID (deref (mem r) p) = id).
  { destruct Hwf as (_ & Hsound & _). by destruct (Hsound _ _ Hbyid). }
  destruct (Delete_unfold sys _ _ _ Hwf Hrw Hp) as (k & Hk & ->). rewrite HID.
  destruct (Delete_removed_spec _ _ _ Hwf Hk) as (_ & _ & Hwf1 & Hbi1).
  rewrite HID in Hbi1.
  pose proof (Save_wf sys _ Hwf1) as Hwf2.
  destruct (Save_fields sys (Delete_removed r p k))
    as (_ & Hbi2 & _ & _ & _ & _ & Hlf2 & _).
  destruct (Save sys (Delete_removed r p k)) as [r2 [[]|e]] eqn:Hsave;
    simpl in Hwf2, Hbi2, Hlf2; rewrite HID in Hbi2.
  2:{ exists r2, (Err e). split; [done|]. split; [done|]. split; [done|].
      intros Hlk Hsys. rewrite Save_succeeds in Hsave by done. done. }
  destruct (fails sys (RemoveDataDir id)) eqn:Hrm.
  { eexists _, (Err ErrIO). split; [done|]. split; [done|]. split; [done|].
    intros _ Hsys. by rewrite Hsys in Hrm. }
  set (r3 := set_files _ _ r2).
  destruct (IH r3) as (r' & res & Hloop & Hwf' & Hok & Hgood).
  - done.
  - simpl. by rewrite Hlf2.
  - done.
  - intros x. simpl. rewrite Hbi2. rewrite lookup_delete_is_Some, <-Hids.
    rewrite elem_of_cons. split; [intros Hx; split; [by intros ->|by right]|].
    intros [Hne [->|Hx]]; done.
  - exists r', res. split; [done|]. split; [done|]. split; [done|].
    intros Hlk Hsys. apply Hgood; [|done]. simpl. by rewrite Hlf2.
Qed.

(** X15.  [Wipe] on a writable, well-formed store deletes the images one by one,
    in the order in which it finds their IDs in the by-ID map.  When it
    returns no error, the list and the three maps are empty; and it returns no
    error when the store is locked for writing and neither a system call nor
    the encoding of the snapshot fails. *)
Theorem Wipe_empties sys order r :
  store_wf r →
  IsReadWrite (lockfile r) = true →
  range_of (byid r) order →
  ∃ r' res,
    Wipe sys order r = (r', res) ∧
    (res = Ok () →
       images r' = [] ∧ byid r' = ∅ ∧ byname r' = ∅ ∧ bydigest r' = ∅ ∧
       Images r' = Ok [] ∧ (∀ x, Get r' x = Err ErrImageUnknown) ∧
       (∀ d, ByDigest r' d = Err ErrImageUnknown)) ∧
    (Locked (lockfile r) = true → (∀ c, fails sys c = false) → res = Ok ()).
Proof.
  intros Hwf Hrw Hr. unfold Wipe. rewrite Hrw. simpl.
  unfold range_of in Hr.
  destruct (Wipe_loop_spec sys (order.*1) r Hwf Hrw)
    as (r' & res & Hloop & Hwf' & Hok & Hgood).
  { rewrite Hr. apply NoDup_fst_map_to_list. }
  { intros x. rewrite Hr. rewrite list_elem_of_fmap. split.
    - intros ([x' q] & -> & Hin). apply elem_of_map_to_list in Hin. by exists q.
    - intros [q Hq]. exists (x, q). split; [done|]. by apply elem_of_map_to_list. }
  exists r', res. split; [done|]. split; [|done].
  intros Hres. specialize (Hok Hres).
  destruct (store_wf_empty _ Hwf' Hok) as (Him & Hbn & Hbd).
  split_and!; try done.
  - unfold Images. by rewrite Him.
  - intros x. unfold Get, lookup. rewrite Hok, Hbn, !lookup_empty.
    destruct (truncindex.Get _ x); [by rewrite lookup_empty|done].
  - intros d. unfold ByDigest. by rewrite Hbd, lookup_empty.
Qed.

(** ** Load *)

Lemma index_digests_elem p ds : ∀ (m : gmap digest.Digest (list loc)) d q,
  q ∈ default [] (index_digests p ds m !! d) ↔
  q ∈ default [] (m !! d) ∨ (q = p ∧ d ∈ ds).
Proof.
  unfold index_digests. induction ds as [|d0 ds IH]; intros m d q; simpl.
  - split; [auto|]. intros [?|[_ ?%elem_of_nil]]; done.
  - rewrite IH. destruct (decide (d = d0)) as [->|Hne].
    + rewrite lookup_insert_eq. simpl. rewrite elem_of_app, list_elem_of_singleton.
      rewrite elem_of_cons. split.
      * intros [[?| ->]|[-> ?]]; auto.
      * intros [?|[-> [_|?]]]; auto.
    + rewrite lookup_insert_ne by done. rewrite elem_of_cons. split.
      * intros [?|[-> ?]]; auto.
      * intros [?|[-> [?|?]]]; auto. done.
Qed.

(** One round of the loop of [Load] keeps [load_complete_inv]. *)
Lemma Load_body_complete_inv rw orders recs k st st' :
  load_inv rw orders recs k st →
  load_complete_inv orders recs k st →
  k < length recs →
  Load_body rw (orders k) st k = Ok st' →
  load_complete_inv orders recs (S k) st'.
Proof.
  intros (HL & HU & HP & HN & HS) Hcomp Hk. unfold Load_body.
  rewrite (HU k) by lia. set (rk := deref recs k).
  destruct (Load_conflict_loop (ld_names st) (Names rk) (ld_mem st) (ld_shouldSave st))
    as (Hlen1 & Hm1 & Hsv1).
  destruct (foldl (Load_conflict (ld_names st)) _ (Names rk)) as [m1 sv1]. simpl in *.
  assert (deref m1 k = rk) as ->.
  { rewrite Hm1, list_filter_id, set_Names_id; [by apply HU|].
    apply Forall_forall. intros x _ [_ Hx]. rewrite HN in Hx.
    apply last_claimer_Some in Hx. lia. }
  destruct (recomputeDigests (orders k) rk) as [image'|] eqn:Hrec; [|done]. simpl.
  intros [= <-]. unfold load_complete_inv. simpl. intros j i' d Hj Hrec' Hd.
  apply (index_digests_elem k (Digests image') (ld_digests st)).
  destruct (decide (j = k)) as [->|Hne].
  - right. split; [done|]. fold rk in Hrec'. congruence.
  - left. eapply Hcomp; [|done..]. lia.
Qed.

Lemma Load_loop_complete_inv rw orders recs len : ∀ k st st',
  load_inv rw orders recs k st →
  load_complete_inv orders recs k st →
  k + len = length recs →
  foldM (λ st n, Load_body rw (orders n) st n) st (seq k len) = Ok st' →
  load_complete_inv orders recs (length recs) st'.
Proof.
  induction len as [|len IH]; intros k st st' Hinv Hinv2 Hlen; simpl.
  - intros [= <-]. by replace (length recs) with k by lia.
  - destruct (Load_body rw (orders k) st k) as [st1|] eqn:Hbody; [|done]. simpl.
    apply (IH (S k)); [| |lia].
    + eapply Load_body_inv; [done|lia|done].
    + eapply Load_body_complete_inv; [done|done|lia|done].
Qed.

(** The ways in which a [Load] goes: it fails and leaves the store as it
    was; or the snapshot does not parse, and it installs what was decoded,
    with empty indices, and returns no error; or it goes through the records,
    installs them, and saves them if two of them shared a name. *)
Lemma Load_cases sys orders r r' res :
  Load sys orders r = (r', res) →
  (r' = r ∧ res ≠ Ok ()) ∨
  (∃ partial, imagesjson r = Unparseable partial ∧ res = Ok () ∧
     r' = set_index (seq 0 (length partial)) (truncindex.NewTruncIndex []) ∅ ∅ ∅
            (jsonFields <$> partial) r) ∨
  (∃ recs st, snapshot_records r = Some recs ∧
     fails sys ReadSnapshot = false ∧
     load_inv (IsReadWrite (lockfile r)) orders recs (length recs) st ∧
     load_index_inv orders recs (length recs) st ∧
     load_complete_inv orders recs (length recs) st ∧
     ((ld_shouldSave st = true ∧ IsReadWrite (lockfile r) = true ∧
       Locked (lockfile r) = true ∧ Save sys (Load_installed r st) = (r', res)) ∨
      (ld_shouldSave st = false ∧ r' = Load_installed r st ∧ res = Ok ()))).
Proof.
  unfold Load. destruct (fails sys ReadSnapshot) eqn:Hread; [intros [= <- <-]; by left|].
  destruct (imagesjson r) as [|partial|records] eqn:Hfile.
  - simpl. intros [= <- <-]. right. right. exists [], (mkLoad [] [] ∅ ∅ ∅ false).
    unfold snapshot_records. rewrite Hfile. split; [done|]. split; [done|].
    split; [apply load_inv_init|]. split; [apply load_index_inv_init|].
    split; [intros j ? ? Hj; simpl in Hj; lia|]. right. done.
  - simpl. intros [= <- <-]. right. left. exists partial.
    split; [done|]. split; [done|]. by rewrite length_fmap.
  - set (recs := jsonFields <$> records).
    destruct (foldM _ _ (seq 0 (length recs))) as [st|] eqn:Hloop;
      [|intros [= <- <-]; by left].
    pose proof (Load_loop_inv (IsReadWrite (lockfile r)) orders recs (length recs) 0 _ _
                  (load_inv_init _ _ _) eq_refl Hloop) as Hinv.
    pose proof (Load_loop_index_inv (IsReadWrite (lockfile r)) orders recs (length recs) 0
                  _ _ (load_inv_init _ _ _) (load_index_inv_init _ _) eq_refl Hloop) as Hidx.
    assert (Hcomp : load_complete_inv orders recs (length recs) st).
    { eapply (Load_loop_complete_inv _ _ _ (length recs) 0); [apply load_inv_init| |done|done].
      intros j ? ? Hj. lia. }
    destruct (ld_shouldSave st) eqn:Hsv; simpl.
    + destruct (IsReadWrite (lockfile r)) eqn:Hrw; simpl; [|intros [= <- <-]; by left].
      destruct (Locked (lockfile r)) eqn:Hlk; simpl; [|intros [= <- <-]; by left].
      intros Hsave. right. right. exists recs, st.
      unfold snapshot_records. rewrite Hfile. split_and!; try done. by left.
    + intros [= <- <-]. right. right. exists recs, st.
      unfold snapshot_records. rewrite Hfile. split_and!; try done. by right.
Qed.

Lemma deref_seq (m : list Image) : deref m <$> seq 0 (length m) = m.
Proof.
  apply list_eq. intros j. rewrite list_lookup_fmap.
  destruct (decide (j < length m)) as [Hlt|Hge].
  - rewrite lookup_seq_lt by done. simpl. unfold deref.
    by destruct (lookup_lt_is_Some_2 m j Hlt) as [i ->].
  - rewrite lookup_seq_ge by lia. simpl. symmetry. apply lookup_ge_None. lia.
Qed.

(** X16.  [Load] drops the error of [json.Unmarshal].  When the snapshot file is
    there and does not parse, [Load] returns no error: it installs the records
    that were decoded before the error as the list of the store, with empty
    indices, so that [Images] lists them and [Get] finds none of them, and it
    leaves the file as it is. *)
Theorem Load_unparseable sys orders r partial :
  fails sys ReadSnapshot = false →
  imagesjson r = Unparseable partial →
  ∃ r',
    Load sys orders r = (r', Ok ()) ∧
    Images r' = Ok (jsonFields <$> partial) ∧
    byid r' = ∅ ∧ byname r' = ∅ ∧ bydigest r' = ∅ ∧
    (∀ x, Get r' x = Err ErrImageUnknown) ∧
    (∀ d, ByDigest r' d = Err ErrImageUnknown) ∧
    imagesjson r' = Unparseable partial.
Proof.
  intros Hread Hfile. unfold Load. rewrite Hread, Hfile. simpl.
  eexists. split; [done|]. simpl. split_and!; try done.
  - rewrite Images_deref. simpl. f_equal. rewrite length_fmap.
    rewrite <-(length_fmap jsonFields partial). apply deref_seq.
  - intros x. unfold Get, lookup. simpl. rewrite !lookup_empty.
    by destruct (truncindex.Get _ x).
Qed.

(** ** Stores that are not read-write *)

(** X17.  The methods that check [IsReadWrite] first return the read-only error on
    a store that is not read-write, and leave the store as it is, whatever
    their arguments. *)
Theorem read_only_unchanged r :
  IsReadWrite (lockfile r) = false →
  (∀ sys rand now id names layer metadata created searchableDigest,
     Create sys rand now id names layer metadata created searchableDigest r
     = Some (r, (None, Err ErrStoreIsReadOnly))) ∧
  (∀ sys id, Delete sys id r = (r, Err ErrStoreIsReadOnly)) ∧
  (∀ sys order, Wipe sys order r = (r, Err ErrStoreIsReadOnly)) ∧
  (∀ sys id names op, updateNames sys id names op r = (r, Err ErrStoreIsReadOnly)) ∧
  (∀ sys order id key data digestManifest, key ≠ "" →
     SetBigData sys order id key data digestManifest r = (r, Err ErrStoreIsReadOnly)) ∧
  (∀ sys id metadata, SetMetadata sys id metadata r = (r, Err ErrStoreIsReadOnly)) ∧
  (∀ sys id flag value, SetFlag sys id flag value r = (r, Err ErrStoreIsReadOnly)) ∧
  (∀ sys id flag, ClearFlag sys id flag r = (r, Err ErrStoreIsReadOnly)) ∧
  (∀ sys, Save sys r = (r, Err ErrStoreIsReadOnly)).
Proof.
  intros Hro. split_and!; intros.
  - unfold Create. by rewrite Hro.
  - unfold Delete. by rewrite Hro.
  - unfold Wipe. by rewrite Hro.
  - unfold updateNames. by rewrite Hro.
  - unfold SetBigData. rewrite decide_False by done. by rewrite Hro.
  - unfold SetMetadata. by rewrite Hro.
  - unfold SetFlag. by rewrite Hro.
  - unfold ClearFlag. by rewrite Hro.
  - unfold Save. by rewrite Hro.
Qed.

(** X18.  A snapshot no two records of which claim the same name, and the digests
    of whose records validate, is loaded in every access mode, also by a
    store that is not read-write or not locked: [Load] returns no error,
    leaves the file as it is, and installs the records in their order, each
    with its digests recomputed and with [ReadOnly] telling that the store is
    not read-write. *)
Theorem Load_without_conflict sys orders r records :
  fails sys ReadSnapshot = false →
  imagesjson r = Document records →
  (∀ j, j < length records →
        digests_valid (deref records j) ∧
        range_of (BigDataDigests (deref records j)) (orders j)) →
  (∀ j j' x, j < j' < length records →
             x ∈ Names (deref records j) → x ∉ Names (deref records j')) →
  ∃ r',
    Load sys orders r = (r', Ok ()) ∧
    imagesjson r' = Document records ∧
    images r' = seq 0 (length records) ∧
    (∀ j, j < length records →
          ∃ i', recomputeDigests (orders j) (deref records j) = Ok i' ∧
                deref (mem r') j = set_ReadOnly (negb (IsReadWrite (lockfile r))) i').
Proof.
  intros Hread Hfile Hvalid Hdisjoint.
  set (recs := jsonFields <$> records).
  assert (Hn : length recs = length records) by apply length_fmap.
  assert (Hnames : ∀ j, Names (deref recs j) = Names (deref records j)).
  { intros j. unfold recs. by rewrite deref_fmap. }
  destruct (Load_loop_total (IsReadWrite (lockfile r)) orders recs (length recs) 0
              (mkLoad recs [] ∅ ∅ ∅ false)) as [st Hloop];
    [apply load_inv_init|done| |].
  { intros j Hj. unfold recs. rewrite deref_fmap by done.
    rewrite recomputeDigests_jsonFields. rewrite Hn in Hj.
    destruct (Hvalid j Hj) as [Hv Hr].
    destruct (recomputeDigests_total _ _ Hv Hr) as [i' ->]. by eexists. }
  rewrite (Load_Document sys orders r records st Hread Hfile Hloop).
  apply (Load_loop_inv (IsReadWrite (lockfile r)) orders recs (length recs) 0) in Hloop;
    [|apply load_inv_init|done].
  destruct Hloop as (HL & HU & HP & HN & HS).
  assert (Hsv : ld_shouldSave st = false).
  { destruct (ld_shouldSave st); [|done].
    destruct (proj1 HS eq_refl) as (j & j' & x & Hlt & Hx & Hx').
    rewrite Hnames in Hx. rewrite Hnames in Hx'. rewrite Hn in Hlt.
    by destruct (Hdisjoint j j' x Hlt Hx). }
  rewrite Hsv. simpl. eexists. split; [done|]. simpl. split; [done|].
  split; [by rewrite HL, Hn|].
  intros j Hj. destruct (HP j) as (i' & Hrec & Heq); [lia|].
  unfold recs in Hrec. rewrite deref_fmap, recomputeDigests_jsonFields in Hrec by done.
  destruct (recomputeDigests (orders j) (deref records j)) as [i0|] eqn:Hrec0; [|done].
  injection Hrec as <-. exists i0. split; [done|]. rewrite Heq.
  rewrite list_filter_id.
  - destruct (recomputeDigests_Names _ _ _ Hrec0) as (HN0 & _).
    rewrite Hnames, <-HN0. by destruct i0.
  - apply Forall_forall. intros x Hx Hcl. apply claimed_later_iff in Hcl as (j' & Hlt & Hx').
    rewrite Hnames in Hx. rewrite Hnames in Hx'. rewrite Hn in Hlt.
    by apply (Hdisjoint j j' x).
Qed.

(** X19.  A store that [newROImageStore] returns for a snapshot that is absent or
    parses is not read-write, has left the directory as it was, and every
    image in it has [ReadOnly] set; one that [newImageStore] returns is
    read-write, and no image in it has [ReadOnly] set. *)
Theorem newImageStore_ReadOnly sys orders file dirs blobs r :
  (∀ partial, file ≠ Unparseable partial) →
  (newROImageStore sys orders file dirs blobs = Ok r →
   IsReadWrite (lockfile r) = false ∧
   imagesjson r = file ∧ datadirs r = dirs ∧ bigdata r = blobs ∧
   ∀ p, p ∈ images r → ReadOnly (deref (mem r) p) = true) ∧
  (newImageStore sys orders file dirs blobs = Ok r →
   IsReadWrite (lockfile r) = true ∧
   ∀ p, p ∈ images r → ReadOnly (deref (mem r) p) = false).
Proof.
  intros Hparsed.
  assert (Hload : ∀ lk r', Load sys orders (emptyStore lk file dirs blobs) = (r', Ok ()) →
    lockfile r' = lk ∧ datadirs r' = dirs ∧ bigdata r' = blobs ∧
    (IsReadWrite lk = false → imagesjson r' = file) ∧
    ∀ p, p ∈ images r' → ReadOnly (deref (mem r') p) = negb (IsReadWrite lk)).
  { intros lk r' Hl.
    destruct (Load_cases _ _ _ _ _ Hl)
      as [[_ ?]|[(partial & Hfile & _)|(recs & st & _ & _ & Hinv & _ & _ & Hend)]].
    - done.
    - by destruct (Hparsed partial).
    - destruct Hinv as (HL & _ & HP & _).
      assert (Hro : ∀ p, p ∈ seq 0 (length (ld_mem st)) →
                ReadOnly (deref (ld_mem st) p) = negb (IsReadWrite lk)).
      { intros p Hp%elem_of_seq. destruct (HP p) as (i' & _ & ->); [lia|]. done. }
      destruct Hend as [(_ & Hrw & _ & Hsave)|(_ & -> & _)].
      + destruct (Save_store sys (Load_installed (emptyStore lk file dirs blobs) st))
          as [f Hf].
        rewrite Hsave in Hf. simpl in Hf. subst r'. simpl in *.
        split_and!; try done. intros Hro'. by rewrite Hro' in Hrw.
      + simpl. split_and!; try done. } 
  split.
  - unfold newROImageStore. destruct (fails sys GetLockfile); [done|].
    destruct (Load sys orders _) as [r' [[]|e]] eqn:Hl; [|done]. intros [= <-].
    destruct (Hload _ _ Hl) as (Hlk & Hd & Hb & Hf & Hro). simpl. rewrite Hlk. simpl.
    split; [done|]. split; [by apply Hf|]. split; [done|]. split; [done|]. apply Hro.
  - unfold newImageStore. destruct (fails sys MkdirStoreDir); [done|].
    destruct (fails sys GetLockfile); [done|].
    destruct (Load sys orders _) as [r' [[]|e]] eqn:Hl; [|done]. intros [= <-].
    destruct (Hload _ _ Hl) as (Hlk & _ & _ & _ & Hro). simpl. rewrite Hlk. simpl.
    split; [done|]. apply Hro.
Qed.

(** ** What the calls keep *)

Lemma index_fields_refl i : index_fields i i.
Proof. by unfold index_fields. Qed.

Lemma index_fields_alter f (m : list Image) p q :
  (∀ i, index_fields i (f i)) → index_fields (deref m q) (deref (alter f p m) q).
Proof.
  intros Hf. rewrite deref_alter. destruct (decide _); [apply Hf|apply index_fields_refl].
Qed.

Lemma names_only_index_free i i' :
  names_only i i' →
  Digest i' = Digest i ∧ Digests i' = Digests i ∧ BigDataDigests i' = BigDataDigests i.
Proof. intros Hn. destruct (names_only_fields _ _ Hn) as (_ & ? & ? & ?). done. Qed.

Lemma digests_valid_ext i i' :
  Digest i' = Digest i → BigDataDigests i' = BigDataDigests i →
  digests_valid i' → digests_valid i.
Proof. unfold digests_valid. by intros -> ->. Qed.

Lemma digests_current_ext i i' :
  Digest i' = Digest i → Digests i' = Digests i → BigDataDigests i' = BigDataDigests i →
  digests_current i → digests_current i'.
Proof. unfold digests_current, digests_ok. by intros -> -> ->. Qed.

(** A heap whose images have the fields that the indices are built on keeps
    the store well-formed. *)
Lemma store_wf_mem r m :
  length m = length (mem r) →
  (∀ q, index_fields (deref (mem r) q) (deref m q)) →
  store_wf r → store_wf (set_mem m r).
Proof.
  intros Hlen Hf (Hmem & Hid & Hname & Hidx & Hown & Huniq & Hdig).
  unfold store_wf, mem_valid, byid_sound, byname_sound, ids_indexed, names_indexed,
    ids_unique, bydigest_sound in *. simpl.
  split_and!.
  - by rewrite Hlen.
  - eapply map_Forall_impl; [exact Hid|]. intros k q [Hq Hk]. split; [done|].
    destruct (Hf q) as (-> & _). done.
  - eapply map_Forall_impl; [exact Hname|]. intros n q [Hq Hn]. split; [done|].
    destruct (Hf q) as (_ & -> & _). done.
  - eapply Forall_impl; [exact Hidx|]. intros q Hq. simpl in *.
    destruct (Hf q) as (-> & _). done.
  - eapply Forall_impl; [exact Hown|]. intros q Hq. simpl in *.
    destruct (Hf q) as (_ & -> & _). done.
  - replace ((λ q, ID (deref m q)) <$> images r)
      with ((λ q, ID (deref (mem r) q)) <$> images r); [done|].
    apply list_fmap_ext. intros j q _. by destruct (Hf q) as (-> & _).
  - eapply map_Forall_impl; [exact Hdig|]. intros d l [Hne Hall]. split; [done|].
    eapply Forall_impl; [exact Hall|]. intros q [Hq Hd]. split; [done|].
    destruct (Hf q) as (_ & _ & _ & -> & _). done.
Qed.

(** How [digest_index_current] passes from a store to another: an image of
    the new list is an image of the old one with the same digests, in at
    least the buckets in which it was, or it is up to date and in its
    buckets. *)
Lemma digest_index_current_intro r r' :
  digest_index_current r →
  (∀ q, q ∈ images r' →
     (q ∈ images r ∧ Digest (deref (mem r') q) = Digest (deref (mem r) q) ∧
      Digests (deref (mem r') q) = Digests (deref (mem r) q) ∧
      BigDataDigests (deref (mem r') q) = BigDataDigests (deref (mem r) q) ∧
      ∀ d, q ∈ default [] (bydigest r !! d) → q ∈ default [] (bydigest r' !! d)) ∨
     (digests_valid (deref (mem r') q) →
      digests_current (deref (mem r') q) ∧
      Forall (λ d, q ∈ default [] (bydigest r' !! d)) (Digests (deref (mem r') q)))) →
  digest_index_current r'.
Proof.
  unfold digest_index_current. intros Hcur Hstep. rewrite Forall_forall in Hcur.
  apply Forall_forall. intros q Hq.
  destruct (Hstep q Hq) as [(Hin & HD & HDs & HB & Hbuckets)|Hnew]; [|done].
  intros Hvalid. destruct (Hcur q Hin) as [Hc Hall]; [by eapply digests_valid_ext|].
  split; [by eapply digests_current_ext|]. rewrite HDs.
  eapply Forall_impl; [exact Hall|]. intros d. apply Hbuckets.
Qed.

Lemma digest_index_current_fields r r' :
  images r' = images r → bydigest r' = bydigest r → mem r' = mem r →
  digest_index_current r → digest_index_current r'.
Proof. unfold digest_index_current. by intros -> -> ->. Qed.

Lemma Save_digest_index_current sys r :
  digest_index_current r → digest_index_current (Save sys r).1.
Proof. destruct (Save_store sys r) as [f ->]. done. Qed.

(** An assignment to a field on which no index is built keeps the list and
    the indices in agreement, whether or not [Save] follows. *)
Lemma field_update_inv f p r :
  (∀ i, index_fields i (f i)) →
  store_wf r → digest_index_current r →
  store_wf (set_mem (alter f p (mem r)) r) ∧
  digest_index_current (set_mem (alter f p (mem r)) r).
Proof.
  intros Hf Hwf Hcur. split.
  - apply store_wf_mem; [by rewrite length_alter| |done].
    intros q. by apply index_fields_alter.
  - apply (digest_index_current_intro r); [done|]. intros q Hq. left. simpl in *.
    destruct (index_fields_alter f (mem r) p q Hf) as (_ & _ & ? & ? & ?). done.
Qed.

Lemma field_update_Save_inv sys f p r r' res :
  (∀ i, index_fields i (f i)) →
  store_inv r →
  Save sys (set_mem (alter f p (mem r)) r) = (r', res) →
  store_inv r'.
Proof.
  intros Hf (Hwf & Hcur) Hsave.
  destruct (field_update_inv f p r Hf Hwf Hcur) as [Hwf1 Hcur1].
  replace r' with (Save sys (set_mem (alter f p (mem r)) r)).1 by (by rewrite Hsave).
  split; [by apply Save_wf|by apply Save_digest_index_current].
Qed.

Lemma default_pruned image o :
  default [] (pruned image o) = imageSliceWithoutValue (default [] o) image.
Proof. unfold pruned. by destruct (imageSliceWithoutValue _ _). Qed.

Lemma prune_digests_keeps image ds (m : gmap digest.Digest (list loc)) d q :
  q ≠ image → q ∈ default [] (m !! d) → q ∈ default [] (prune_digests image ds m !! d).
Proof.
  intros Hne Hq. rewrite prune_digests_lookup. destruct (decide (d ∈ ds)); [|done].
  rewrite default_pruned. by apply list_elem_of_filter.
Qed.

Lemma Load_digest_index_current sys orders r r' res :
  snapshot_ok r →
  Load_orders r orders →
  digest_index_current r →
  Load sys orders r = (r', res) →
  digest_index_current r'.
Proof.
  intros Hsnap Horders Hcur Hload.
  destruct (Load_cases _ _ _ _ _ Hload)
    as [[-> _]|[(partial & Hfile & _)|(recs & st & Hrecs & _ & Hinv & _ & Hcomp & Hend)]].
  - done.
  - unfold snapshot_ok in Hsnap. by rewrite Hfile in Hsnap.
  - assert (Hinst : digest_index_current (Load_installed r st)).
    { destruct Hinv as (HL & _ & HP & _).
      unfold digest_index_current. simpl. apply Forall_forall. intros p Hp%elem_of_seq.
      destruct (HP p) as (i' & Hrec & Heq); [lia|]. intros _.
      assert (Hr : range_of (BigDataDigests (deref recs p)) (orders p)).
      { unfold snapshot_records in Hrecs. unfold Load_orders in Horders.
        destruct (imagesjson r) as [| |records]; [|done|].
        - injection Hrecs as <-. simpl in HL. lia.
        - injection Hrecs as <-. rewrite deref_fmap by apply jsonFields_zero. simpl.
          apply Horders. rewrite length_fmap in HL. lia. }
      pose proof (recomputeDigests_makes_current _ _ _ Hr Hrec) as Hc.
      rewrite Heq. split.
      - revert Hc. by apply digests_current_ext.
      - simpl. apply Forall_forall. intros d Hd. apply (Hcomp p i' d); [lia|done|done]. }
    destruct Hend as [(_ & _ & _ & Hsave)|(_ & -> & _)]; [|done].
    replace r' with (Save sys (Load_installed r st)).1 by (by rewrite Hsave).
    by apply Save_digest_index_current.
Qed.

Lemma Create_image_current now id names layer metadata created searchableDigest :
  (searchableDigest ≠ "" → Validate searchableDigest = true) →
  digests_current (Create_image now id names layer metadata created searchableDigest).
Proof.
  intros Hvalid.
  set (image0 := mkImage id searchableDigest [] (dedupeNames names) [] layer [] metadata
                   [] ∅ ∅ (if decide (created = 0%Z) then now else created) false ∅).
  apply (recomputeDigests_makes_current [] image0).
  - unfold range_of. simpl. by rewrite map_to_list_empty.
  - rewrite recomputeDigests_nil. simpl. unfold Create_image.
    destruct (decide (searchableDigest = "")) as [->|Hne]; [done|].
    by rewrite (Hvalid Hne).
Qed.

Lemma Create_digest_index_current sys rand now id names layer metadata created
    searchableDigest r r' o res :
  store_wf r → digest_index_current r →
  Create sys rand now id names layer metadata created searchableDigest r
    = Some (r', (o, res)) →
  digest_index_current r'.
Proof.
  intros Hwf Hcur Hcreate.
  destruct (Create_inv _ _ _ _ _ _ _ _ _ _ _ _ _ Hcreate)
    as [(_ & -> & _)|(id' & _ & _ & _ & _ & _ & Hvalid & Hsave)]; [done|].
  set (image := Create_image now id' names layer metadata created searchableDigest) in *.
  set (r1 := set_index _ _ _ _ _ _ r) in Hsave.
  replace r' with (Save sys r1).1 by (by rewrite Hsave).
  apply Save_digest_index_current.
  apply (digest_index_current_intro r); [done|].
  intros q [Hq| ->%list_elem_of_singleton]%elem_of_app.
  - left. split; [done|]. simpl.
    assert (q < length (mem r)) as Hlt.
    { destruct Hwf as (Hmem & _). unfold mem_valid in Hmem.
      rewrite Forall_forall in Hmem. by apply Hmem. }
    rewrite deref_app_l by done. split_and!; try done.
    intros d Hd. apply index_digests_elem. by left.
  - right. intros _. simpl. rewrite deref_app_r. split.
    + by apply Create_image_current.
    + apply Forall_forall. intros d Hd. apply index_digests_elem. by right.
Qed.

Lemma Delete_removed_digest_index_current r p k :
  store_wf r → images r !! k = Some p →
  digest_index_current r → digest_index_current (Delete_removed r p k).
Proof.
  intros Hwf Hk Hcur. destruct (Delete_removed_spec _ _ _ Hwf Hk) as (Him & _).
  apply (digest_index_current_intro r); [done|]. intros q Hq.
  rewrite Him in Hq. apply list_elem_of_filter in Hq as [Hne Hq].
  left. split; [done|]. simpl. split_and!; try done.
  intros d Hd. by apply prune_digests_keeps.
Qed.

Lemma Delete_inv sys id r r' res :
  store_inv r → Delete sys id r = (r', res) → store_inv r'.
Proof.
  intros (Hwf & Hcur) Hdel.
  pose proof (Delete_wf _ _ _ _ _ Hwf Hdel) as Hwf'.
  split; [done|].
  destruct (IsReadWrite (lockfile r)) eqn:Hrw.
  2:{ unfold Delete in Hdel. rewrite Hrw in Hdel. by injection Hdel as <-. }
  destruct (lookup r id) as [p|] eqn:Hp.
  2:{ unfold Delete in Hdel. rewrite Hrw, Hp in Hdel. by injection Hdel as <-. }
  destruct (Delete_unfold sys _ _ _ Hwf Hrw Hp) as (k & Hk & Heq).
  rewrite Heq in Hdel. clear Heq.
  pose proof (Delete_removed_digest_index_current _ _ _ Hwf Hk Hcur) as Hcur1.
  apply (Save_digest_index_current sys) in Hcur1.
  destruct (Save sys _) as [r2 [[]|e]]; simpl in Hcur1.
  - destruct (fails sys _); by injection Hdel as <-.
  - by injection Hdel as <-.
Qed.

Lemma updateNames_digest_index_current sys id names op r r' res :
  digest_index_current r → updateNames sys id names op r = (r', res) →
  digest_index_current r'.
Proof.
  intros Hcur. unfold updateNames.
  destruct (negb (IsReadWrite (lockfile r))); [by intros [= <- _]|].
  destruct (lookup r id) as [p|]; [|by intros [= <- _]].
  destruct (applyNameOperation _ names op) as [names'|]; [|by intros [= <- _]].
  set (bn0 := foldl _ (byname r) _).
  pose proof (updateNames_bind_loop_names_only p names' (mem r) bn0) as Honly.
  destruct (foldl (updateNames_bind p) (mem r, bn0) names') as [m bn]. simpl in *.
  intros Hsave. replace r' with (r', res).1 by done. rewrite <-Hsave.
  apply Save_digest_index_current.
  apply (digest_index_current_intro r); [done|]. intros q Hq. left. simpl in *.
  assert (names_only (deref (mem r) q) (deref (alter (set_Names names') p m) q)) as Hn.
  { eapply names_only_trans; [apply Honly|].
    apply names_only_alter. intros i. apply names_only_set_Names. }
  destruct (names_only_index_free _ _ Hn) as (? & ? & ?). done.
Qed.

Lemma filter_length_eq (l : list loc) p :
  length l = length (imageSliceWithoutValue l p) ↔ p ∉ l.
Proof.
  unfold imageSliceWithoutValue. induction l as [|x l IH]; simpl.
  - split; [intros _ ?%elem_of_nil; done|done].
  - destruct (decide (x = p)) as [->|Hne].
    + rewrite filter_cons_False by (by intros ?). split.
      * intros Hlen. pose proof (length_filter (λ v, v ≠ p) l). lia.
      * intros Hnot. destruct Hnot. apply list_elem_of_here.
    + rewrite filter_cons_True by done. simpl. rewrite not_elem_of_cons. split.
      * intros Hlen. split; [by intros ->|]. apply IH. lia.
      * intros [_ Hnot]. f_equal. by apply IH.
Qed.

(** The buckets after the loop of [SetBigData] that indexes the new digests:
    the image is in the bucket of each of them, and nothing else has
    changed. *)
Lemma SetBigData_index_elem p ds : ∀ (m : gmap digest.Digest (list loc)) d q,
  q ∈ default [] (SetBigData_index p ds m !! d) ↔
  q ∈ default [] (m !! d) ∨ (q = p ∧ d ∈ ds).
Proof.
  unfold SetBigData_index. induction ds as [|d0 ds IH]; intros m d q; simpl.
  - split; [auto|]. intros [?|[_ ?%elem_of_nil]]; done.
  - rewrite IH. rewrite elem_of_cons.
    destruct (decide (length (default [] (m !! d0))
                      = length (imageSliceWithoutValue (default [] (m !! d0)) p)))
      as [Hlen|Hlen].
    + destruct (decide (d = d0)) as [->|Hne].
      * rewrite lookup_insert_eq. simpl. rewrite elem_of_app, list_elem_of_singleton.
        split.
        -- intros [[?| ->]|[-> ?]]; auto.
        -- intros [?|[-> [_|?]]]; auto.
      * rewrite lookup_insert_ne by done. split.
        -- intros [?|[-> ?]]; auto.
        -- intros [?|[-> [?|?]]]; auto. done.
    + assert (p ∈ default [] (m !! d0)) as Hin.
      { destruct (decide (p ∈ default [] (m !! d0))) as [|Hnot]; [done|].
        apply filter_length_eq in Hnot. done. }
      split.
      * intros [?|[-> ?]]; auto.
      * intros [?|[-> [->|?]]]; auto.
Qed.

Lemma SetBigData_digest_index_current sys order id key data digestManifest r r' res :
  store_wf r →
  digest_index_current r →
  SetBigData_order r order id key data digestManifest →
  SetBigData sys order id key data digestManifest r = (r', res) →
  digest_index_current r'.
Proof.
  intros Hwf Hcur Horder Hset.
  destruct (decide (key = "")) as [Hk|Hk].
  { unfold SetBigData in Hset. rewrite decide_True in Hset by done.
    by injection Hset as <-. }
  destruct (IsReadWrite (lockfile r)) eqn:Hrw.
  2:{ unfold SetBigData in Hset. rewrite decide_False, Hrw in Hset by done.
      by injection Hset as <-. }
  destruct (lookup r id) as [p|] eqn:Hp.
  2:{ unfold SetBigData in Hset. rewrite decide_False, Hrw, Hp in Hset by done.
      by injection Hset as <-. }
  pose proof (lookup_valid _ _ _ Hwf Hp) as Hvalid.
  rewrite (SetBigData_unfold _ _ _ _ _ _ _ p) in Hset by done. simpl in Hset.
  set (i := deref (mem r) p) in *.
  destruct (fails sys (MkdirDataDir (ID i))); [by injection Hset as <-|].
  destruct (newDigest_of key data digestManifest) as [newDigest|] eqn:Hnew.
  2:{ injection Hset as <- _. revert Hcur. by apply digest_index_current_fields. }
  destruct (fails sys (WriteBigData (ID i) key)).
  { injection Hset as <- _. revert Hcur. by apply digest_index_current_fields. }
  specialize (Horder p newDigest Hp Hnew). fold i in Horder.
  set (i1 := SetBigData_image key data newDigest i) in *.
  assert (Hr1 : range_of (BigDataDigests i1) order) by done.
  assert (Hother : ∀ (i' : Image) q, q ≠ p → deref (<[p := i']> (mem r)) q = deref (mem r) q).
  { intros i' q Hq. rewrite deref_insert, decide_False; [done|]. by intros [-> _]. }
  destruct (recomputeDigests order i1) as [i2|] eqn:Hrec.
  - set (r2 := set_bydigest _ _) in Hset.
    assert (Hcur2 : digest_index_current r2).
    { apply (digest_index_current_intro r); [done|]. intros q Hq.
      destruct (decide (q = p)) as [->|Hne].
      - right. intros _. simpl. rewrite deref_insert, decide_True by done. split.
        + by eapply recomputeDigests_makes_current.
        + apply Forall_forall. intros d Hd. apply SetBigData_index_elem. by right.
      - left. split; [done|]. simpl. rewrite Hother by done. split_and!; try done.
        intros d Hd. apply SetBigData_index_elem. left. by apply prune_digests_keeps. }
    destruct (SetBigData_save key data newDigest i).
    + replace r' with (Save sys r2).1 by (by rewrite Hset).
      by apply Save_digest_index_current.
    + by injection Hset as <-.
  - injection Hset as <- _.
    apply (digest_index_current_intro r); [done|]. intros q Hq.
    destruct (decide (q = p)) as [->|Hne].
    + right. simpl. rewrite deref_insert, decide_True by done. intros Hv.
      destruct (recomputeDigests_total order i1 Hv Hr1) as [i2 Hi2]. congruence.
    + left. split; [done|]. simpl. rewrite Hother by done. split_and!; try done.
      intros d Hd. by apply prune_digests_keeps.
Qed.

Lemma Wipe_loop_inv sys ids : ∀ r r' res,
  store_inv r → Wipe_loop sys ids r = (r', res) → store_inv r'.
Proof.
  induction ids as [|id ids IH]; intros r r' res Hinv; simpl; [by intros [= <- _]|].
  destruct (Delete sys id r) as [r1 [[]|e]] eqn:Hdel.
  - apply IH. by eapply Delete_inv.
  - intros [= <- _]. by eapply Delete_inv.
Qed.

(** Every call that does not read the snapshot keeps the list and the
    indices in agreement, whatever it returns. *)
Lemma op_call_inv r r' res : store_inv r → op_call r r' res → store_inv r'.
Proof.
  intros Hinv Hcall. pose proof Hinv as (Hwf & Hcur).
  assert (Hfield : ∀ sys f p r' res, (∀ i, index_fields i (f i)) →
            Save sys (set_mem (alter f p (mem r)) r) = (r', res) → store_inv r').
  { intros sys f p r1 res1 Hf Hs. by eapply field_update_Save_inv. }
  destruct Hcall as [sys r r' res Hop
    |sys rand now id names layer metadata created d r r' image res Hop
    |sys id names op r r' res Hop
    |sys id r r' res Hop
    |sys order id key data dm r r' res Horder Hop
    |sys id flag value r r' res Hop
    |sys id flag r r' res Hop
    |sys id metadata r r' res Hop
    |sys id layer r r' res Hop
    |RemoveFromSlice sys id layer r r' res Hop
    |sys order r r' res Horder Hop].
  - replace r' with (Save sys r).1 by (by rewrite Hop).
    split; [by apply Save_wf|by apply Save_digest_index_current].
  - split; [by eapply Create_wf|].
    eapply Create_digest_index_current; [exact Hwf|exact Hcur|exact Hop].
  - split; [by eapply updateNames_wf|by eapply updateNames_digest_index_current].
  - by eapply Delete_inv.
  - split; [by eapply SetBigData_wf|].
    eapply SetBigData_digest_index_current; [exact Hwf|exact Hcur|exact Horder|exact Hop].
  - unfold SetFlag in Hop. destruct (negb _); [by injection Hop as <-|].
    destruct (lookup r id) as [p|]; [|by injection Hop as <-].
    eapply Hfield; [|exact Hop]. done.
  - unfold ClearFlag in Hop. destruct (negb _); [by injection Hop as <-|].
    destruct (lookup r id) as [p|]; [|by injection Hop as <-].
    eapply Hfield; [|exact Hop]. done.
  - unfold SetMetadata in Hop. destruct (negb _); [by injection Hop as <-|].
    destruct (lookup r id) as [p|]; [|by injection Hop as <-].
    eapply Hfield; [|exact Hop]. done.
  - unfold addMappedTopLayer in Hop.
    destruct (lookup r id) as [p|]; [|by injection Hop as <-].
    eapply Hfield; [|exact Hop]. done.
  - unfold removeMappedTopLayer in Hop.
    destruct (lookup r id) as [p|]; [|by injection Hop as <-].
    destruct (decide _).
    + injection Hop as <- _.
      by apply (field_update_inv
                  (set_MappedTopLayers
                     (RemoveFromSlice (MappedTopLayers (deref (mem r) p)) layer)) p r).
    + eapply Hfield; [|exact Hop]. done.
  - unfold Wipe in Hop. destruct (negb _); [by injection Hop as <-|].
    by eapply Wipe_loop_inv.
Qed.

Lemma Load_orders_Document r orders records :
  imagesjson r = Document records →
  (∀ n, n < length records → range_of (BigDataDigests (deref records n)) (orders n)) →
  Load_orders r orders.
Proof. unfold Load_orders. by intros ->. Qed.

(** A [Load] keeps them when the snapshot file is absent or is a document no
    two records of which share an ID. *)
Lemma load_call_inv r r' res :
  store_inv r → snapshot_ok r → load_call r r' res → store_inv r'.
Proof.
  intros (Hwf & Hcur) Hsnap Hcall.
  assert (Hload : ∀ sys orders r' res, Load_orders r orders →
            Load sys orders r = (r', res) → store_inv r').
  { intros sys orders r1 res1 Horders Hl.
    split; [by eapply Load_wf|by eapply Load_digest_index_current]. }
  destruct Hcall as [sys orders r r' res Horders Hop
    |modified sys orders r r' res Horders Hop].
  - by eapply Hload.
  - unfold ReloadIfChanged in Hop. destruct modified as [[|]|e].
    + by eapply Hload.
    + by injection Hop as <-.
    + by injection Hop as <-.
Qed.

(** X20.  The calls keep the list and the indices of a store in agreement.  Let
    the store be well-formed (the images of the list are objects of the heap
    with pairwise distinct IDs, each found in the by-ID map under its ID and
    in the by-name map under each of its names; the three maps lead to images
    of the list only, which have the ID, the name or the digest in question;
    no bucket of the by-digest map is empty), and let every image whose
    digests validate have its [Digests] up to date and be in the bucket of
    each of them.  Then the store is so again after a call of any method that
    does not read the snapshot, whatever the call returns, and after taking or
    releasing the lock; and it is so after a [Load] or a [ReloadIfChanged]
    provided the snapshot file is absent or is a document no two records of
    which share an ID.  A store over a directory that is just opened is so. *)
Theorem calls_keep_store_wf r :
  store_wf r →
  digest_index_current r →
  (∀ r' res, op_call r r' res → store_wf r' ∧ digest_index_current r') ∧
  (∀ r' res, snapshot_ok r → load_call r r' res → store_wf r' ∧ digest_index_current r') ∧
  (∀ b, store_wf (set_Locked b r) ∧ digest_index_current (set_Locked b r)) ∧
  (∀ lk, store_wf (emptyStore lk (imagesjson r) (datadirs r) (bigdata r)) ∧
         digest_index_current (emptyStore lk (imagesjson r) (datadirs r) (bigdata r))).
Proof.
  intros Hwf Hcur. split_and!.
  - intros r' res Hcall. by apply (op_call_inv r r' res).
  - intros r' res Hsnap Hcall. by apply (load_call_inv r r' res).
  - intros b. split.
    + revert Hwf. by apply store_wf_fields.
    + revert Hcur. by apply digest_index_current_fields.
  - intros lk. split; [apply emptyStore_wf|apply Forall_nil_2].
Qed.

(** X21.  In a well-formed store in which every image whose digests validate
    has its [Digests] up to date and is in the bucket of each of them,
    [ByDigest] does what its interface says.  What it returns for a digest is
    a non-empty list of images of the store, field by field, that have the
    digest among their [Digests]; and an image of the store whose digests
    validate, and which has the digest as its explicit [Digest] or as the
    digest of a big-data item with the manifest prefix, is in the list that
    [ByDigest] returns for it. *)
Theorem ByDigest_exact r d :
  store_wf r →
  digest_index_current r →
  (∀ l, ByDigest r d = Ok l →
        l ≠ [] ∧
        ∀ i, i ∈ l → ∃ q, q ∈ images r ∧ i = deref (mem r) q ∧ d ∈ Digests i) ∧
  (∀ q, q ∈ images r →
        digests_valid (deref (mem r) q) →
        (d ≠ "" ∧ Digest (deref (mem r) q) = d) ∨
        (∃ name, bigDataNameIsManifest name = true ∧
                 BigDataDigests (deref (mem r) q) !! name = Some d) →
        ∃ l, ByDigest r d = Ok l ∧ deref (mem r) q ∈ l).
Proof.
  intros Hwf Hcur. split.
  - intros l. unfold ByDigest. destruct (bydigest r !! d) as [l0|] eqn:Hl0; [|done].
    destruct Hwf as (_ & _ & _ & _ & _ & _ & Hdig).
    destruct (Hdig _ _ Hl0) as [Hne Hall]. unfold copyImageSlice.
    rewrite decide_True by (destruct l0; simpl; [done|lia]).
    intros [= <-]. split; [by destruct l0|].
    intros i (q & -> & Hq)%list_elem_of_fmap. rewrite Forall_forall in Hall.
    destruct (Hall q Hq) as [Hin Hd]. exists q. by rewrite copyImage_deref.
  - intros q Hq Hvalid Hhas. unfold digest_index_current in Hcur.
    rewrite Forall_forall in Hcur.
    destruct (Hcur q Hq Hvalid) as [((_ & _ & _) & Hset & _) Hbuckets].
    set (i := deref (mem r) q) in *.
    assert (Hd : d ∈ Digests i).
    { apply (elem_of_list_to_set (C := gset digest.Digest)). rewrite Hset.
      apply elem_of_union. destruct Hhas as [[Hne Heq]|(name & Hman & Hlk)].
      - left. rewrite decide_False by (by rewrite Heq). by apply elem_of_singleton.
      - right. apply (elem_of_manifestDigests _ (map_to_list (BigDataDigests i)));
          [by unfold range_of|].
        exists name. split; [|done]. by apply elem_of_map_to_list. }
    rewrite Forall_forall in Hbuckets. specialize (Hbuckets d Hd).
    unfold ByDigest. destruct (bydigest r !! d) as [l0|]; simpl in Hbuckets.
    + eexists. split; [done|]. unfold copyImageSlice.
      rewrite decide_True by (destruct l0; simpl; [by apply elem_of_nil in Hbuckets|lia]).
      unfold i. rewrite <-copyImage_deref.
      by apply (list_elem_of_fmap_2 (copyImage (mem r))).
    + by apply elem_of_nil in Hbuckets.
Qed.

(** ** No bucket is empty *)

Lemma buckets_nonempty_Forall (m : gmap digest.Digest (list loc)) :
  map_Forall (λ _ (l : list loc), l ≠ []) m ↔
  map_Forall (λ (_ : digest.Digest) (l : list loc), l ≠ [] ∧ Forall (λ _, True) l) m.
Proof.
  split; intros Hm d l Hl.
  - split; [by eapply Hm|]. by apply Forall_true.
  - by destruct (Hm d l Hl).
Qed.

Lemma buckets_nonempty_bydigest r r' :
  bydigest r' = bydigest r → buckets_nonempty r → buckets_nonempty r'.
Proof. unfold buckets_nonempty. by intros ->. Qed.

Lemma Save_buckets_nonempty sys r r' res :
  buckets_nonempty r → Save sys r = (r', res) → buckets_nonempty r'.
Proof.
  intros Hb Hsave. destruct (Save_fields sys r) as (_ & _ & _ & Hbd & _).
  rewrite Hsave in Hbd. revert Hb. by apply buckets_nonempty_bydigest.
Qed.

Lemma Delete_buckets_nonempty sys id r r' res :
  buckets_nonempty r → Delete sys id r = (r', res) → buckets_nonempty r'.
Proof.
  intros Hb. unfold Delete. destruct (negb _); [by intros [= <- _]|].
  destruct (lookup r id) as [p|]; [|by intros [= <- _]].
  simpl. set (r1 := set_index _ _ _ _ _ _ r).
  assert (Hb1 : buckets_nonempty r1).
  { unfold buckets_nonempty, r1. simpl.
    apply buckets_nonempty_Forall, prune_digests_Forall. by apply buckets_nonempty_Forall. }
  pose proof (Save_buckets_nonempty sys r1) as Hs.
  destruct (Save sys r1) as [r2 [[]|e]].
  - specialize (Hs r2 (Ok ()) Hb1 eq_refl). destruct (fails sys _); by intros [= <- _].
  - specialize (Hs r2 (Err e) Hb1 eq_refl). by intros [= <- _].
Qed.

Lemma Wipe_loop_buckets_nonempty sys ids : ∀ r r' res,
  buckets_nonempty r → Wipe_loop sys ids r = (r', res) → buckets_nonempty r'.
Proof.
  induction ids as [|id ids IH]; intros r r' res Hb; simpl; [by intros [= <- _]|].
  destruct (Delete sys id r) as [r1 [[]|e]] eqn:Hdel.
  - apply IH. by eapply Delete_buckets_nonempty.
  - intros [= <- _]. by eapply Delete_buckets_nonempty.
Qed.

Lemma Create_buckets_nonempty sys rand now id names layer metadata created searchableDigest
    r r' o res :
  buckets_nonempty r →
  Create sys rand now id names layer metadata created searchableDigest r
    = Some (r', (o, res)) →
  buckets_nonempty r'.
Proof.
  intros Hb Hcreate.
  destruct (Create_inv _ _ _ _ _ _ _ _ _ _ _ _ _ Hcreate)
    as [(_ & -> & _)|(id' & _ & _ & _ & _ & _ & _ & Hsave)]; [done|].
  eapply Save_buckets_nonempty; [|exact Hsave].
  unfold buckets_nonempty. simpl.
  apply buckets_nonempty_Forall, index_digests_Forall; [|done].
  by apply buckets_nonempty_Forall.
Qed.

Lemma SetBigData_buckets_nonempty sys order id key data digestManifest r r' res :
  buckets_nonempty r →
  SetBigData sys order id key data digestManifest r = (r', res) →
  buckets_nonempty r'.
Proof.
  intros Hb Hset.
  destruct (decide (key = "")) as [Hk|Hk].
  { unfold SetBigData in Hset. rewrite decide_True in Hset by done.
    by injection Hset as <-. }
  destruct (IsReadWrite (lockfile r)) eqn:Hrw.
  2:{ unfold SetBigData in Hset. rewrite decide_False, Hrw in Hset by done.
      by injection Hset as <-. }
  destruct (lookup r id) as [p|] eqn:Hp.
  2:{ unfold SetBigData in Hset. rewrite decide_False, Hrw, Hp in Hset by done.
      by injection Hset as <-. }
  rewrite (SetBigData_unfold _ _ _ _ _ _ _ p) in Hset by done. simpl in Hset.
  set (i := deref (mem r) p) in *.
  destruct (fails sys (MkdirDataDir (ID i))); [by injection Hset as <-|].
  destruct (newDigest_of key data digestManifest) as [newDigest|].
  2:{ injection Hset as <- _. done. }
  destruct (fails sys (WriteBigData (ID i) key)); [by injection Hset as <- _|].
  assert (Hb1 : map_Forall (λ (_ : digest.Digest) (l : list loc), l ≠ [] ∧ Forall (λ _, True) l)
                  (prune_digests p (Digests i) (bydigest r))).
  { apply prune_digests_Forall. by apply buckets_nonempty_Forall. }
  destruct (recomputeDigests order _) as [i2|].
  2:{ injection Hset as <- _. unfold buckets_nonempty. simpl.
      by apply buckets_nonempty_Forall. }
  set (r2 := set_bydigest _ _) in Hset.
  assert (Hb2 : buckets_nonempty r2).
  { unfold buckets_nonempty, r2. simpl. apply buckets_nonempty_Forall.
    by apply SetBigData_index_Forall. }
  destruct (SetBigData_save key data newDigest i).
  - by eapply Save_buckets_nonempty.
  - by injection Hset as <-.
Qed.

Lemma Load_buckets_nonempty sys orders r r' res :
  buckets_nonempty r → Load sys orders r = (r', res) → buckets_nonempty r'.
Proof.
  intros Hb Hload.
  destruct (Load_cases _ _ _ _ _ Hload)
    as [[-> _]|[(partial & _ & _ & ->)|(recs & st & _ & _ & _ & Hidx & _ & Hend)]].
  - done.
  - unfold buckets_nonempty. simpl. apply map_Forall_empty.
  - assert (Hinst : buckets_nonempty (Load_installed r st)).
    { destruct Hidx as (_ & _ & Hdig). unfold buckets_nonempty. simpl.
      intros d l Hl. by destruct (Hdig d l Hl). }
    destruct Hend as [(_ & _ & _ & Hsave)|(_ & -> & _)]; [|done].
    by eapply Save_buckets_nonempty.
Qed.

(** No call makes a bucket of the by-digest map empty: a bucket from which
    the last image is taken is deleted, and a bucket is made with an image in
    it.  A store that is just opened has no bucket. *)
Theorem buckets_nonempty_kept r :
  buckets_nonempty r →
  (∀ r' res, op_call r r' res → buckets_nonempty r') ∧
  (∀ r' res, load_call r r' res → buckets_nonempty r') ∧
  (∀ b, buckets_nonempty (set_Locked b r)) ∧
  (∀ lk file dirs blobs, buckets_nonempty (emptyStore lk file dirs blobs)).
Proof.
  intros Hb.
  assert (Hfield : ∀ sys m r' res, Save sys (set_mem m r) = (r', res) → buckets_nonempty r').
  { intros sys m r1 res1 Hs. eapply Save_buckets_nonempty; [|exact Hs]. done. }
  split_and!.
  - intros r' res Hcall.
    destruct Hcall as [sys r r' res Hop
      |sys rand now id names layer metadata created d r r' image res Hop
      |sys id names op r r' res Hop
      |sys id r r' res Hop
      |sys order id key data dm r r' res Horder Hop
      |sys id flag value r r' res Hop
      |sys id flag r r' res Hop
      |sys id metadata r r' res Hop
      |sys id layer r r' res Hop
      |RemoveFromSlice sys id layer r r' res Hop
      |sys order r r' res Horder Hop].
    + by eapply Save_buckets_nonempty.
    + by eapply Create_buckets_nonempty.
    + unfold updateNames in Hop. destruct (negb _); [by injection Hop as <-|].
      destruct (lookup r id) as [p|]; [|by injection Hop as <-].
      destruct (applyNameOperation _ _ _); [|by injection Hop as <-].
      destruct (foldl _ _ _) as [m bn].
      eapply Save_buckets_nonempty; [|exact Hop]. done.
    + by eapply Delete_buckets_nonempty.
    + by eapply SetBigData_buckets_nonempty.
    + unfold SetFlag in Hop. destruct (negb _); [by injection Hop as <-|].
      destruct (lookup r id) as [p|]; [|by injection Hop as <-]. by eapply Hfield.
    + unfold ClearFlag in Hop. destruct (negb _); [by injection Hop as <-|].
      destruct (lookup r id) as [p|]; [|by injection Hop as <-]. by eapply Hfield.
    + unfold SetMetadata in Hop. destruct (negb _); [by injection Hop as <-|].
      destruct (lookup r id) as [p|]; [|by injection Hop as <-]. by eapply Hfield.
    + unfold addMappedTopLayer in Hop.
      destruct (lookup r id) as [p|]; [|by injection Hop as <-]. by eapply Hfield.
    + unfold removeMappedTopLayer in Hop.
      destruct (lookup r id) as [p|]; [|by injection Hop as <-].
      destruct (decide _); [by injection Hop as <-|]. by eapply Hfield.
    + unfold Wipe in Hop. destruct (negb _); [by injection Hop as <-|].
      by eapply Wipe_loop_buckets_nonempty.
  - intros r' res Hcall.
    destruct Hcall as [sys orders r r' res Horders Hop
      |modified sys orders r r' res Horders Hop].
    + by eapply Load_buckets_nonempty.
    + unfold ReloadIfChanged in Hop. destruct modified as [[|]|e].
      * by eapply Load_buckets_nonempty.
      * by injection Hop as <-.
      * by injection Hop as <-.
  - done.
  - intros lk file dirs blobs. apply map_Forall_empty.
Qed.

(** ** Success means saved *)

(** X22.  The methods that end with a call of [Save] on every path on which
    they change the store, [Create], [updateNames], [SetMetadata], [SetFlag],
    [ClearFlag] and [addMappedTopLayer], return no error only when [Save] has
    written the snapshot: the snapshot file then holds one record for each
    image of the list, in the order of the list, which is the image as the
    JSON encoding carries it. *)
Theorem success_is_saved r :
  (∀ sys rand now id names layer metadata created searchableDigest r' o,
     Create sys rand now id names layer metadata created searchableDigest r
       = Some (r', (o, Ok ())) → synced r') ∧
  (∀ sys id names op r', updateNames sys id names op r = (r', Ok ()) → synced r') ∧
  (∀ sys id metadata r', SetMetadata sys id metadata r = (r', Ok ()) → synced r') ∧
  (∀ sys id flag value r', SetFlag sys id flag value r = (r', Ok ()) → synced r') ∧
  (∀ sys id flag r', ClearFlag sys id flag r = (r', Ok ()) → synced r') ∧
  (∀ sys id layer r', addMappedTopLayer sys id layer r = (r', Ok ()) → synced r').
Proof.
  split_and!.
  - intros sys rand now id names layer metadata created d r' o Hcreate.
    destruct (Create_inv _ _ _ _ _ _ _ _ _ _ _ _ _ Hcreate)
      as [(_ & _ & [?|[?|[?|?]]])|(id' & _ & _ & _ & _ & _ & _ & Hsave)]; try done.
    by eapply Save_synced.
  - intros sys id names op r'. unfold updateNames.
    destruct (negb _); [done|]. destruct (lookup r id); [|done].
    destruct (applyNameOperation _ _ _); [|done].
    destruct (foldl _ _ _) as [m bn]. apply Save_synced.
  - intros sys id metadata r'. unfold SetMetadata.
    destruct (negb _); [done|]. destruct (lookup r id); [|done]. apply Save_synced.
  - intros sys id flag value r'. unfold SetFlag.
    destruct (negb _); [done|]. destruct (lookup r id); [|done]. apply Save_synced.
  - intros sys id flag r'. unfold ClearFlag.
    destruct (negb _); [done|]. destruct (lookup r id); [|done]. apply Save_synced.
  - intros sys id layer r'. unfold addMappedTopLayer.
    destruct (lookup r id); [|done]. apply Save_synced.
Qed.

(** ** More on [updateNames], [SetBigData], [Load] and the readers *)

Lemma Save_result_lock sys r1 r2 :
  lockfile r1 = lockfile r2 → (Save sys r1).2 = (Save sys r2).2.
Proof.
  intros Hlf. unfold Save. rewrite Hlf. destruct (negb (IsReadWrite _)); [done|].
  destruct (negb (Locked _)); [done|]. destruct (fails sys MkdirStoreDir); [done|].
  destruct (fails sys Marshal); [done|].
  destruct (fails sys WriteSnapshot); [done|]. by destruct (fails sys Touch).
Qed.

(** X23.  On a writable, well-formed store [updateNames] changes names and
    nothing else.  The list, the by-ID map and the by-digest map are as
    before; of the image it changes the names and
    their history only; another image of the list keeps its names that are
    not among the new names of the image, loses the others, and is as before
    otherwise, its history included; and the by-name map binds the new names
    to the image, no longer binds its old names that are not new, and binds
    every other name as before.  The error is the one of [Save]. *)
Theorem updateNames_frame sys id names op r p names' :
  store_wf r →
  IsReadWrite (lockfile r) = true →
  lookup r id = Some p →
  applyNameOperation (Names (deref (mem r) p)) names op = Ok names' →
  ∃ r',
    updateNames sys id names op r = (r', (Save sys r).2) ∧
    images r' = images r ∧ byid r' = byid r ∧ bydigest r' = bydigest r ∧
    names_only (deref (mem r) p) (deref (mem r') p) ∧
    (∀ q, q ∈ images r → q ≠ p →
          deref (mem r') q
          = set_Names (filter (λ n, n ∉ names') (Names (deref (mem r) q)))
                      (deref (mem r) q)) ∧
    (∀ n, byname r' !! n
          = if decide (n ∈ names') then Some p
            else if decide (n ∈ Names (deref (mem r) p)) then None
                 else byname r !! n).
Proof.
  intros Hwf Hrw Hp Happly.
  pose proof (lookup_valid _ _ _ Hwf Hp) as Hvalid.
  assert (Hin : p ∈ images r).
  { destruct Hwf as (_ & Hid & Hname & _). by eapply lookup_sound. }
  unfold updateNames. rewrite Hrw, Hp, Happly. simpl.
  set (bn0 := foldl (λ bn name, delete name bn) (byname r) (Names (deref (mem r) p))).
  destruct (updateNames_bind_loop p names' (mem r) bn0) as (Hlen & Hother & _ & Hbn).
  pose proof (updateNames_bind_loop_names_only p names' (mem r) bn0) as Honly.
  destruct (foldl (updateNames_bind p) (mem r, bn0) names') as [m bn]. simpl in *.
  set (r1 := set_mem (alter (set_Names names') p m) (set_byname bn r)).
  destruct (Save_fields sys r1) as (Him & Hbi & Hbnm & Hbd & Hm & _).
  pose proof (Save_result_lock sys r1 r eq_refl) as Hres.
  destruct (Save sys r1) as [r' res]. simpl in *. subst res.
  exists r'. split; [done|]. rewrite Him, Hbi, Hbd, Hm, Hbnm.
  split; [done|]. split; [done|]. split; [done|]. split; [|split].
  - eapply names_only_trans; [apply Honly|].
    apply names_only_alter. intros i. apply names_only_set_Names.
  - intros q Hq Hne. rewrite deref_alter, decide_False by (by intros [-> _]).
    rewrite Hother by done. f_equal. apply list_filter_ext_in.
    intros n Hn.
    assert (Hbn0 : bn0 !! n = Some q).
    { unfold bn0. rewrite lookup_foldl_delete. rewrite decide_False.
      - by apply store_wf_byname.
      - intros Hold. pose proof (store_wf_byname _ _ _ Hwf Hin Hold) as H1.
        pose proof (store_wf_byname _ _ _ Hwf Hq Hn) as H2. congruence. }
    split; [intros Hno Hnew; by apply Hno|intros Hno [Hnew _]; by apply Hno].
  - intros n. rewrite Hbn. destruct (decide (n ∈ names')); [done|].
    unfold bn0. by rewrite lookup_foldl_delete.
Qed.

(** X24.  A partial failure of [SetBigData]: when the callback returns, for an item
    with the manifest prefix, a digest that does not validate, [SetBigData]
    fails with the error of the validation, and does so after it has written
    the blob, recorded the digest in the image and taken the image out of the
    by-digest map.  The snapshot is not saved, and [Digests] is the one from
    before, although no bucket holds the image. *)
Theorem SetBigData_invalid_digest sys order id key data f d r p :
  store_wf r →
  IsReadWrite (lockfile r) = true →
  lookup r id = Some p →
  bigDataNameIsManifest key = true →
  f data = Ok d →
  Validate d = false →
  range_of (<[key := d]> (BigDataDigests (deref (mem r) p))) order →
  fails sys (MkdirDataDir (ID (deref (mem r) p))) = false →
  fails sys (WriteBigData (ID (deref (mem r) p)) key) = false →
  ∃ r',
    SetBigData sys order id key data (Some f) r = (r', Err ErrInvalidDigest) ∧
    bigdata r' !! (ID (deref (mem r) p), key) = Some data ∧
    BigDataDigests (deref (mem r') p) !! key = Some d ∧
    Digests (deref (mem r') p) = Digests (deref (mem r) p) ∧
    (∀ d' l, bydigest r' !! d' = Some l → p ∉ l) ∧
    imagesjson r' = imagesjson r.
Proof.
  intros Hwf Hrw Hp Hman Hf Hinv Horder Hmk Hwr.
  pose proof (lookup_valid _ _ _ Hwf Hp) as Hvalid.
  rewrite (SetBigData_unfold _ _ _ _ _ _ _ p);
    [|by apply bigDataNameIsManifest_nonempty|done|done].
  simpl. rewrite Hmk. unfold newDigest_of. rewrite Hman, Hf, Hwr.
  set (i := deref (mem r) p) in *.
  destruct (recomputeDigests order _) as [i2|e] eqn:Hrec.
  { exfalso. destruct (recomputeDigests_spec _ _ _ Hrec) as (_ & Hval & _ & _ & _ & Hmem & _).
    rewrite Forall_forall in Hval.
    assert (d ∈ Digests i2) as Hd.
    { apply Hmem. right. exists key. split; [|done]. unfold range_of in Horder.
      rewrite Horder. apply elem_of_map_to_list. simpl. apply lookup_insert_eq. }
    apply Hval in Hd. congruence. }
  assert (e = ErrInvalidDigest) as ->.
  { revert Hrec. unfold recomputeDigests. destruct (decide (Digest _ ≠ "")).
    - destruct (negb (Validate _)); simpl; [by intros [= <-]|].
      destruct (foldM _ _ _) eqn:Hloop; simpl; [done|]. intros [= <-].
      by eapply recomputeDigests_loop_error.
    - simpl. destruct (foldM _ _ _) eqn:Hloop; simpl; [done|]. intros [= <-].
      by eapply recomputeDigests_loop_error. }
  eexists. split; [done|]. simpl. rewrite deref_insert, decide_True by done.
  split; [apply lookup_insert_eq|]. split; [apply lookup_insert_eq|]. split; [done|].
  split; [|done]. intros d' l. rewrite prune_digests_lookup.
  destruct (decide (d' ∈ Digests i)).
  - apply pruned_not_elem.
  - intros Hl Hpl. destruct Hwf as (_ & _ & _ & _ & _ & _ & Hdig).
    destruct (Hdig _ _ Hl) as [_ Hall]. rewrite Forall_forall in Hall.
    by destruct (Hall _ Hpl).
Qed.

(** X25.  A [Load] that returns no error has replaced the view that the store had
    in memory: the store that it leaves is the one that a [Load] by a store
    just opened on the same directory, with the same lock, leaves.  What was
    changed in memory and not saved is forgotten. *)
Theorem Load_forgets sys orders r r' :
  Load sys orders r = (r', Ok ()) →
  Load sys orders (emptyStore (lockfile r) (imagesjson r) (datadirs r) (bigdata r))
  = (r', Ok ()).
Proof.
  unfold Load. destruct (fails sys ReadSnapshot); [done|]. simpl.
  destruct (match imagesjson r with
            | NoFile => ([], true)
            | Unparseable partial => (jsonFields <$> partial, false)
            | Document records => (jsonFields <$> records, true)
            end) as [unmarshalled parsed].
  destruct (if parsed then _ else _) as [st|]; [|done].
  destruct (ld_shouldSave st && _); [done|].
  destruct (ld_shouldSave st); [|by intros [= <-]].
  unfold Save. simpl. destruct (negb (IsReadWrite _)); [done|].
  destruct (negb (Locked _)); [done|]. destruct (fails sys MkdirStoreDir); [done|].
  destruct (fails sys WriteSnapshot); [done|]. destruct (fails sys Touch); [done|].
  by intros [= <-].
Qed.

(** X26.  What the readers do for an item without record.  [BigDataSize] reads the
    blob file when the image records no size for the key: it returns the
    number of bytes of the file, and the error that the size is unknown when
    the file is not there or cannot be read, never the error of the read.
    [BigDataDigest] never reads the file: it returns the error that the
    digest is unknown when the image records no digest for the key, also when
    the file is there. *)
Theorem BigData_uncached rd r id key p :
  key ≠ "" →
  lookup r id = Some p →
  (BigDataSizes (deref (mem r) p) !! key = None →
   (∀ data, BigData rd r id key = Ok data →
            BigDataSize rd r id key = Ok (Z.of_nat (length data))) ∧
   (∀ e, BigData rd r id key = Err e →
         e = ErrIO ∧ BigDataSize rd r id key = Err ErrSizeUnknown)) ∧
  (BigDataDigests (deref (mem r) p) !! key = None →
   BigDataDigest r id key = Err ErrDigestUnknown) ∧
  (∀ size, BigDataSizes (deref (mem r) p) !! key = Some size →
           BigDataSize rd r id key = Ok size).
Proof.
  intros Hk Hp. unfold BigDataSize, BigDataDigest.
  rewrite !decide_False, Hp by done. split; [|split].
  - intros ->. split.
    + by intros data ->.
    + intros e He. rewrite He. split; [|done]. revert He. unfold BigData.
      rewrite decide_False, Hp by done. destruct (read_fails _ _ _); [by intros [= <-]|].
      destruct (bigdata r !! _); [done|]. by intros [= <-].
  - by intros ->.
  - by intros size ->.
Qed.

(** ** Create and Delete, one after the other *)

(** X27.  [Delete] undoes [Create]: when a [Create] has put an image into a
    well-formed store, a successful [Delete] of the ID of that image leaves
    the list and the by-ID, by-name and by-digest maps as they were before the
    [Create], and [Images] returns what it returned then. *)
Theorem Create_then_Delete sys sys' rand now id names layer metadata created
    searchableDigest r r1 image res r2 :
  store_wf r →
  Create sys rand now id names layer metadata created searchableDigest r
    = Some (r1, (Some image, res)) →
  Delete sys' (ID image) r1 = (r2, Ok ()) →
  images r2 = images r ∧ byid r2 = byid r ∧ byname r2 = byname r ∧
  bydigest r2 = bydigest r ∧ Images r2 = Images r.
Proof.
  intros Hwf Hcreate Hdel.
  pose proof (Create_wf _ _ _ _ _ _ _ _ _ _ _ _ Hwf Hcreate) as Hwf1.
  destruct (Create_inv _ _ _ _ _ _ _ _ _ _ _ _ _ Hcreate)
    as [([=] & _)|(id' & [= ->] & Hrw & _ & Hfree & Hunbound & _ & Hsave)].
  set (image := Create_image now id' names layer metadata created searchableDigest) in *.
  set (p := length (mem r)) in *.
  set (r0 := set_index _ _ _ _ _ _ r) in Hsave.
  destruct (Save_fields sys r0) as (Him & Hbi & Hbn & Hbd & Hm & _ & Hlf & _).
  rewrite Hsave in Him, Hbi, Hbn, Hbd, Hm, Hlf. simpl in Him, Hbi, Hbn, Hbd, Hm, Hlf.
  assert (Hp : lookup r1 id' = Some p).
  { unfold lookup. by rewrite Hbi, lookup_insert_eq. }
  assert (Hrw1 : IsReadWrite (lockfile r1) = true) by (by rewrite Hlf).
  assert (Hdp : deref (mem r1) p = image) by (rewrite Hm; apply deref_app_r).
  assert (Hold : ∀ q, q ∈ images r → q < p).
  { intros q Hq. destruct Hwf as (Hmem & _). unfold mem_valid in Hmem.
    rewrite Forall_forall in Hmem. by apply Hmem. }
  change (ID image) with id' in Hdel.
  destruct (Delete_unfold sys' _ _ _ Hwf1 Hrw1 Hp) as (k & Hk & Heq).
  rewrite Heq in Hdel. clear Heq.
  destruct (Delete_removed_spec _ _ _ Hwf1 Hk) as (Him1 & _ & _ & Hbi1).
  destruct (Save sys' _) as [r3 [[]|e]] eqn:Hsave'; [|done].
  apply Save_ok in Hsave'. destruct (fails sys' _); [done|]. injection Hdel as <-.
  subst r3. simpl. rewrite Hdp.
  assert (Himages : delete k (images r1) = images r).
  { change (delete k (images r1)) with (images (Delete_removed r1 p k)).
    rewrite Him1, Him, filter_app, filter_cons_False, filter_nil, app_nil_r
      by (by intros ?).
    apply list_filter_id. apply Forall_forall. intros q Hq ->. specialize (Hold _ Hq). lia. }
  split; [done|]. split; [|split; [|split]].
  - rewrite Hbi. change (ID image) with id'. rewrite delete_insert_eq. by apply delete_id.
  - rewrite Hbn. change (Names image) with (dedupeNames names). apply map_eq. intros n.
    rewrite lookup_foldl_delete, lookup_foldl_insert.
    destruct (decide (n ∈ dedupeNames names)) as [Hn|]; [|done].
    rewrite Forall_forall in Hunbound. by rewrite (Hunbound n Hn).
  - rewrite Hbd. apply map_eq. intros d'. rewrite prune_digests_lookup.
    assert (Hnot : ∀ l, bydigest r !! d' = Some l → l ≠ [] ∧ p ∉ l).
    { intros l Hl. destruct Hwf as (_ & _ & _ & _ & _ & _ & Hdig).
      destruct (Hdig _ _ Hl) as [Hne Hall]. split; [done|]. intros Hpl.
      rewrite Forall_forall in Hall. destruct (Hall _ Hpl) as [Hq _].
      specialize (Hold _ Hq). lia. }
    unfold image, Create_image. simpl.
    destruct (decide (searchableDigest = "")) as [He|Hne]; simpl.
    + done.
    + destruct (decide (d' = searchableDigest)) as [->|Hd'].
      * rewrite decide_True by apply list_elem_of_here.
        rewrite lookup_insert_eq. unfold pruned. simpl.
        unfold imageSliceWithoutValue. rewrite filter_app, filter_cons_False, filter_nil,
          app_nil_r by (by intros ?).
        destruct (bydigest r !! searchableDigest) as [l|] eqn:Hl; simpl; [|done].
        destruct (Hnot l eq_refl) as [Hne' Hpl]. rewrite list_filter_id.
        -- by destruct l.
        -- apply Forall_forall. by intros q Hq ->.
      * rewrite decide_False by (by intros ?%list_elem_of_singleton).
        by rewrite lookup_insert_ne.
  - unfold Images. simpl. rewrite Himages, Hm. f_equal. apply list_fmap_ext.
    intros j q Hq. rewrite !copyImage_deref. apply deref_app_l.
    apply Hold. by eapply list_elem_of_lookup_2.
Qed.

(** X28.  [Create] can reuse what [Delete] has freed: after a successful
    [Delete] of an image, a [Create] with the ID and the names of that image
    meets no conflict; it returns the image made of its arguments, and [Get]
    finds it under the ID. *)
Theorem Delete_then_Create sys sys' rand now id layer metadata created searchableDigest
    r p r' :
  store_wf r →
  lookup r id = Some p →
  ID (deref (mem r) p) ≠ "" →
  (searchableDigest ≠ "" → Validate searchableDigest = true) →
  Delete sys id r = (r', Ok ()) →
  let image := Create_image now (ID (deref (mem r) p)) (Names (deref (mem r) p))
                 layer metadata created searchableDigest in
  ∃ r'' res,
    Create sys' rand now (ID (deref (mem r) p)) (Names (deref (mem r) p))
      layer metadata created searchableDigest r' = Some (r'', (Some image, res)) ∧
    Get r'' (ID (deref (mem r) p)) = Ok image.
Proof.
  intros Hwf Hp Hid Hvalid Hdel image.
  pose proof (Delete_wf _ _ _ _ _ Hwf Hdel) as Hwf'.
  destruct (IsReadWrite (lockfile r)) eqn:Hrw.
  2:{ unfold Delete in Hdel. by rewrite Hrw in Hdel. }
  destruct (Delete_unfold sys _ _ _ Hwf Hrw Hp) as (k & Hk & Heq).
  rewrite Heq in Hdel. clear Heq.
  destruct (Save sys _) as [r2 [[]|e]] eqn:Hsave; [|done].
  apply Save_ok in Hsave. destruct (fails sys _); [done|]. injection Hdel as <-.
  subst r2.
  destruct (Create_fresh sys' rand now (ID (deref (mem r) p)) (Names (deref (mem r) p))
              layer metadata created searchableDigest
              (set_files (datadirs r ∖ {[ID (deref (mem r) p)]})
                 (filter (λ kv, kv.1.1 ≠ ID (deref (mem r) p)) (bigdata r))
                 (set_imagesjson
                    (Document ((λ q, jsonRecord (deref (mem r) q)) <$> delete k (images r)))
                    (Delete_removed r p k))))
    as (r'' & res & Hcreate & Hget & _); try done.
  - simpl. apply lookup_delete_eq.
  - intros n Hn. simpl. rewrite lookup_foldl_delete. by rewrite decide_True.
  - by exists r'', res.
Qed.

End Properties.

(** * The statements at concrete inputs *)

#[local] Existing Instance sample.

Lemma recomputeDigests_manifest_pair_witness :
  ∃ i', recomputeDigests (map_to_list (BigDataDigests twoManifests)) twoManifests = Ok i' ∧
    ((map_to_list (BigDataDigests twoManifests)
        = [("manifest", digestA); ("manifest-arch", digestB)] ∧
      Digests i' = [digestA; digestB] ∧ Digest i' = digestA) ∨
     (map_to_list (BigDataDigests twoManifests)
        = [("manifest-arch", digestB); ("manifest", digestA)] ∧
      Digests i' = [digestB; digestA] ∧ Digest i' = digestB)).
Proof.
  apply (recomputeDigests_manifest_pair digestA digestB twoManifests).
  - vm_compute. reflexivity.
  - vm_compute. reflexivity.
  - vm_compute. discriminate.
  - reflexivity.
  - reflexivity.
  - unfold range_of. reflexivity.
Defined.

(** C1 as stated does not hold: with the digest cache
    [{"manifest": digestA, "manifest-arch": digestB}] and no explicit digest,
    a [range] that visits "manifest-arch" first makes [Digests] be
    [[digestB; digestA]] and [Digest] be [digestB]. *)
Lemma recomputeDigests_manifest_pair_order :
  Digest twoManifests = "" ∧
  BigDataDigests twoManifests = <["manifest" := digestA]> {["manifest-arch" := digestB]} ∧
  Validate digestA = true ∧ Validate digestB = true ∧ digestA ≠ digestB ∧
  range_of (BigDataDigests twoManifests) arch_first ∧
  Digests <$> recomputeDigests arch_first twoManifests = Ok [digestB; digestA] ∧
  Digest <$> recomputeDigests arch_first twoManifests = Ok digestB.
Proof.
  split_and!; try (vm_compute; reflexivity). vm_compute. discriminate.
Qed.

Lemma Create_conflict_witness :
  ∃ e r',
    Create sys_ok [] 9 "aaa" ["three"] "layer2" "" 0 "" store2 = Some (r', (None, Err e)) ∧
    (e = ErrDuplicateID ∨ e = ErrDuplicateName) ∧
    ("aaa" ≠ "" → is_Some (byid store2 !! "aaa") → e = ErrDuplicateID) ∧
    r' = store2 ∧ (∀ x, Get r' x = Get store2 x).
Proof.
  apply Create_conflict.
  - reflexivity.
  - left. split; [discriminate|]. vm_compute. eexists. reflexivity.
  - discriminate.
Defined.

(** C3 as stated does not hold for every store: [store2_ro] is not
    read-write, and a [Create] with the ID "aaa", which is in use there,
    fails with [ErrStoreIsReadOnly], not with a duplicate-ID error. *)
Lemma Create_conflict_read_only :
  is_Some (byid store2_ro !! "aaa") ∧
  Create sys_ok [] 9 "aaa" ["three"] "layer2" "" 0 "" store2_ro
    = Some (store2_ro, (None, Err ErrStoreIsReadOnly)).
Proof.
  split.
  - vm_compute. eexists. reflexivity.
  - vm_compute. reflexivity.
Qed.

(** In [store2] the first image, "aaa", is the one image indexed under
    [digestA], and no image is indexed under [digestB]. *)
Lemma ByDigest_spec_witness :
  ByDigest store2 digestA
  = Ok [mkImage "aaa" digestA [digestA] ["one"] [] "layer1" [] "" [] ∅ ∅ 7 false ∅] ∧
  ByDigest store2 digestB = Err ErrImageUnknown ∧
  (∀ l, ByDigest store2 digestA = Ok l → l ≠ []).
Proof.
  assert (Hne : buckets_nonempty store2).
  { apply (bool_decide_unpack _). vm_compute. exact I. }
  split; [|split].
  - refine (eq_trans (proj1 (proj2 (ByDigest_spec store2 digestA Hne)) 0 _) _).
    + apply (bool_decide_unpack _). vm_compute. exact I.
    + vm_compute. reflexivity.
  - apply (proj1 (ByDigest_spec store2 digestB Hne)).
    intros p. apply (bool_decide_unpack _). vm_compute. exact I.
  - intros l Hl. exact (proj1 (proj2 (proj2 (ByDigest_spec store2 digestA Hne)) l Hl)).
Defined.

Lemma SetBigData_no_callback_witness :
  ∃ r', SetBigData sys_ok [] "aaa" "manifest" [] None store2 = (r', Err ErrDigestUnknown) ∧
        bigdata r' = bigdata store2 ∧ mem r' = mem store2 ∧ images r' = images store2 ∧
        byid r' = byid store2 ∧ byname r' = byname store2 ∧
        bydigest r' = bydigest store2 ∧ idindex r' = idindex store2 ∧
        imagesjson r' = imagesjson store2.
Proof.
  apply (SetBigData_no_callback sys_ok [] "aaa" "manifest" [] store2 0).
  - reflexivity.
  - vm_compute. reflexivity.
  - vm_compute. reflexivity.
  - reflexivity.
Defined.

(** C10 as stated does not hold for every call: when the data directory of
    the image cannot be made, [SetBigData] with the key "manifest" and no
    callback returns the error of [MkdirAll], not [ErrDigestUnknown]. *)
Lemma SetBigData_no_callback_mkdir :
  IsReadWrite (lockfile store2) = true ∧
  lookup store2 "aaa" = Some 0 ∧
  bigDataNameIsManifest "manifest" = true ∧
  SetBigData sys_no_mkdir [] "aaa" "manifest" [] None store2 = (store2, Err ErrIO).
Proof.
  split; [reflexivity|]. split; [vm_compute; reflexivity|].
  split; [vm_compute; reflexivity|]. vm_compute. reflexivity.
Qed.

Lemma updateNames_spec_witness :
  ∃ r' res,
    updateNames sys_ok "aaa" ["two"] addNames store2 = (r', res) ∧
    Names (deref (mem r') 0) = ["two"; "one"] ∧
    (∀ n q, n ∈ ["two"; "one"] → byname store2 !! n = Some q → q ≠ 0 →
            n ∉ Names (deref (mem r') q)) ∧
    (∀ n, n ∈ ["two"; "one"] → byname r' !! n = Some 0) ∧
    (["two"; "one"] ≠ [] →
       NamesHistory (deref (mem r') 0)
       = dedupeNames (reverse ["two"; "one"] ++ NamesHistory (deref (mem store2) 0))) ∧
    (∀ n, n ∈ ["two"; "one"] → n ∈ NamesHistory (deref (mem r') 0)).
Proof.
  apply (updateNames_spec sys_ok "aaa" ["two"] addNames store2 0 ["two"; "one"]).
  - apply (bool_decide_unpack _). vm_compute. exact I.
  - reflexivity.
  - vm_compute. reflexivity.
  - vm_compute. reflexivity.
Defined.

Lemma Delete_spec_witness :
  byid (Delete sys_ok "bbb" store2).1 !! ID (deref (mem store2) 1) = None ∧
  (1 ∉ images (Delete sys_ok "bbb" store2).1) ∧
  (∀ q, q ∈ images (Delete sys_ok "bbb" store2).1 →
        ID (deref (mem (Delete sys_ok "bbb" store2).1) q) ≠ ID (deref (mem store2) 1)) ∧
  (∀ n, n ∈ Names (deref (mem store2) 1) →
        byname (Delete sys_ok "bbb" store2).1 !! n = None) ∧
  (∀ d l, bydigest (Delete sys_ok "bbb" store2).1 !! d = Some l → 1 ∉ l) ∧
  ((∀ q, q ∈ images (Delete sys_ok "bbb" store2).1 →
         ("bbb" ∉ Names (deref (mem (Delete sys_ok "bbb" store2).1) q)) ∧
         String.prefix "bbb" (ID (deref (mem (Delete sys_ok "bbb" store2).1) q)) = false) →
   Exists (Delete sys_ok "bbb" store2).1 "bbb" = false).
Proof.
  apply (Delete_spec sys_ok "bbb" store2 1).
  - apply (bool_decide_unpack _). vm_compute. exact I.
  - reflexivity.
  - vm_compute. reflexivity.
  - vm_compute. reflexivity.
Defined.

(** Nor does the amended statement hold without well-formedness: the
    snapshot behind [twinStore] has two records with the ID "r1", and [Load]
    installs both without error.  [Delete "r1"] succeeds and takes the second
    out of the list; the first, which has the ID "r1", is still in it. *)
Lemma Delete_duplicate_ID :
  images twinStore = [0; 1] ∧
  ID (deref (mem twinStore) 0) = "r1" ∧ ID (deref (mem twinStore) 1) = "r1" ∧
  ¬ store_wf twinStore ∧
  lookup twinStore "r1" = Some 1 ∧
  (Delete sys_ok "r1" twinStore).2 = Ok () ∧
  images (Delete sys_ok "r1" twinStore).1 = [0] ∧
  ID (deref (mem (Delete sys_ok "r1" twinStore).1) 0) = "r1".
Proof.
  split_and!; try (vm_compute; reflexivity).
  apply (bool_decide_unpack _). vm_compute. exact I.
Qed.

(** C4 as stated does not hold for every store: in [store2] the second image
    has the ID of the first, "aaa", among its names.  [Delete "aaa"] resolves
    "aaa" as an ID, deletes the first image and succeeds; [Exists "aaa"] is
    true afterwards, because "aaa" now resolves as a name of the second. *)
Lemma Delete_then_Exists :
  lookup store2 "aaa" = Some 0 ∧
  (Delete sys_ok "aaa" store2).2 = Ok () ∧
  Exists (Delete sys_ok "aaa" store2).1 "aaa" = true ∧
  lookup (Delete sys_ok "aaa" store2).1 "aaa" = Some 1.
Proof. vm_compute. done. Qed.

Lemma SetBigData_persists_witness :
  bigdata (SetBigData sys_ok arch_first "ccc" "manifest" blob1
             (Some (λ _, Ok digestA)) store3).1
    !! (ID (deref (mem store3) 0), "manifest") = Some blob1 ∧
  (("manifest" ∉ BigDataNames (deref (mem store3) 0)) ∨
   BigDataSizes (deref (mem store3) 0) !! "manifest" ≠ Some (Z.of_nat (length blob1)) ∨
   BigDataDigests (deref (mem store3) 0) !! "manifest" ≠ Some digestA →
   imagesjson (SetBigData sys_ok arch_first "ccc" "manifest" blob1
                 (Some (λ _, Ok digestA)) store3).1
   = Document ((λ q, jsonRecord (deref (mem (SetBigData sys_ok arch_first "ccc" "manifest"
                                                 blob1 (Some (λ _, Ok digestA)) store3).1) q))
               <$> images (SetBigData sys_ok arch_first "ccc" "manifest" blob1
                             (Some (λ _, Ok digestA)) store3).1)) ∧
  ("manifest" ∈ BigDataNames (deref (mem store3) 0) →
   BigDataSizes (deref (mem store3) 0) !! "manifest" = Some (Z.of_nat (length blob1)) →
   BigDataDigests (deref (mem store3) 0) !! "manifest" = Some digestA →
   imagesjson (SetBigData sys_ok arch_first "ccc" "manifest" blob1
                 (Some (λ _, Ok digestA)) store3).1 = imagesjson store3 ∧
   (digests_current (deref (mem store3) 0) →
    range_of (BigDataDigests (deref (mem store3) 0)) arch_first →
    deref (mem (SetBigData sys_ok arch_first "ccc" "manifest" blob1
                  (Some (λ _, Ok digestA)) store3).1) 0
    = set_Digests
        (Digests (deref (mem (SetBigData sys_ok arch_first "ccc" "manifest" blob1
                                (Some (λ _, Ok digestA)) store3).1) 0))
        (deref (mem store3) 0) ∧
    Digests (deref (mem (SetBigData sys_ok arch_first "ccc" "manifest" blob1
                           (Some (λ _, Ok digestA)) store3).1) 0)
      ≡ₚ Digests (deref (mem store3) 0) ∧
    head (Digests (deref (mem (SetBigData sys_ok arch_first "ccc" "manifest" blob1
                                 (Some (λ _, Ok digestA)) store3).1) 0))
    = head (Digests (deref (mem store3) 0)))).
Proof.
  apply (SetBigData_persists sys_ok arch_first "ccc" "manifest" blob1
           (Some (λ _, Ok digestA)) store3 0 _ digestA).
  - apply (bool_decide_unpack _). vm_compute. exact I.
  - vm_compute. reflexivity.
  - vm_compute. reflexivity.
  - vm_compute. reflexivity.
Defined.

(** C6 as stated does not hold for every call: [store3] holds the image
    "ccc" with [Digests = [digestC; digestA; digestB]].  Setting "manifest"
    again to the same blob, with the same digest, changes no cached metadata
    and saves nothing; when the [range] of the recomputation visits
    "manifest-arch" first, the record in memory has
    [Digests = [digestC; digestB; digestA]] afterwards. *)
Lemma SetBigData_same_blob_reorders :
  "manifest" ∈ BigDataNames (deref (mem store3) 0) ∧
  BigDataSizes (deref (mem store3) 0) !! "manifest" = Some (Z.of_nat (length blob1)) ∧
  BigDataDigests (deref (mem store3) 0) !! "manifest" = Some digestA ∧
  range_of (<["manifest" := digestA]> (BigDataDigests (deref (mem store3) 0))) arch_first ∧
  Digests (deref (mem store3) 0) = [digestC; digestA; digestB] ∧
  (SetBigData sys_ok arch_first "ccc" "manifest" blob1 (Some (λ _, Ok digestA)) store3).2
    = Ok () ∧
  imagesjson (SetBigData sys_ok arch_first "ccc" "manifest" blob1
                (Some (λ _, Ok digestA)) store3).1 = imagesjson store3 ∧
  Digests (deref (mem (SetBigData sys_ok arch_first "ccc" "manifest" blob1
                         (Some (λ _, Ok digestA)) store3).1) 0)
    = [digestC; digestB; digestA] ∧
  deref (mem (SetBigData sys_ok arch_first "ccc" "manifest" blob1
                (Some (λ _, Ok digestA)) store3).1) 0 ≠ deref (mem store3) 0.
Proof.
  split_and!; try (vm_compute; reflexivity).
  - apply (bool_decide_unpack _). vm_compute. exact I.
  - intros Heq. apply (f_equal Digests) in Heq. vm_compute in Heq. discriminate.
Qed.

(** The two records of [dupStore] claim the name "shared".  Opened
    read-write and locked, [Load] keeps it on the second; opened read-only,
    [Load] fails.  In [badStore] the first record has a digest that does not
    validate, and [Load] fails with that error. *)
Lemma Load_duplicate_names_witness :
  (∃ r1,
     Load sys_ok (λ _, []) dupStore = Save sys_ok r1 ∧
     images r1 = [0; 1] ∧
     byname r1 !! "shared" = Some 1 ∧
     "shared" ∈ Names (deref (mem r1) 1) ∧
     (∀ j, j ≠ 1 → "shared" ∉ Names (deref (mem r1) j)) ∧
     Load sys_ok (λ _, []) dupStore
     = (set_imagesjson (Document ((λ p, jsonRecord (deref (mem r1) p)) <$> images r1)) r1,
        Ok ())) ∧
  (∃ e, Load sys_ok (λ _, []) dupStore_ro = (dupStore_ro, Err e)) ∧
  Load sys_ok (λ _, []) badStore = (badStore, Err ErrInvalidDigest).
Proof.
  split; [|split].
  - destruct (Load_duplicate_names sys_ok (λ _, []) dupStore [recA; recB] 0 1 "shared")
      as (_ & Hrw & _).
    + reflexivity.
    + reflexivity.
    + simpl. lia.
    + apply (bool_decide_unpack _). vm_compute. exact I.
    + apply (bool_decide_unpack _). vm_compute. exact I.
    + simpl. lia.
    + destruct Hrw as (r1 & Hload & Hims & Hbn & Hin & Hother & _ & Hsaved).
      * intros [|[|j]] Hj; [| |simpl in Hj; lia];
          (split; [apply (bool_decide_unpack _); vm_compute; exact I|
                   unfold range_of; vm_compute; reflexivity]).
      * reflexivity.
      * reflexivity.
      * exists r1. split_and!; try done. by apply Hsaved.
  - apply (Load_duplicate_names sys_ok (λ _, []) dupStore_ro [recA; recB] 0 1 "shared").
    + reflexivity.
    + reflexivity.
    + simpl. lia.
    + apply (bool_decide_unpack _). vm_compute. exact I.
    + apply (bool_decide_unpack _). vm_compute. exact I.
    + simpl. lia.
    + by left.
  - destruct (Load_duplicate_names sys_ok (λ _, []) badStore [recBad; recB] 0 1 "shared")
      as (_ & _ & Hbad).
    + reflexivity.
    + reflexivity.
    + simpl. lia.
    + apply (bool_decide_unpack _). vm_compute. exact I.
    + apply (bool_decide_unpack _). vm_compute. exact I.
    + simpl. lia.
    + refine (Hbad _ 0 _ _).
      * intros [|[|j]] Hj; [| |simpl in Hj; lia]; unfold range_of; vm_compute; reflexivity.
      * simpl. lia.
      * apply (bool_decide_unpack _). vm_compute. exact I.
Defined.

(** C2 as stated does not hold for every snapshot: the two records of
    [badStore] claim the name "shared", and the store is read-write and
    locked.  [Load] fails on the digest "bogus" of the first record: no name
    is stripped, nothing is installed and nothing is saved. *)
Lemma Load_duplicate_names_bad_digest :
  "shared" ∈ Names recBad ∧ "shared" ∈ Names recB ∧
  IsReadWrite (lockfile badStore) = true ∧ Locked (lockfile badStore) = true ∧
  Load sys_ok (λ _, []) badStore = (badStore, Err ErrInvalidDigest).
Proof.
  split_and!; try reflexivity.
  - apply (bool_decide_unpack _). vm_compute. exact I.
  - apply (bool_decide_unpack _). vm_compute. exact I.
Qed.

Lemma Save_Load_round_trip_witness :
  ∃ r3,
    Load sys_ok (λ _, [])
      (emptyStore (mkLocker false false) (imagesjson (Save sys_ok store2).1) ∅ ∅)
    = (r3, Ok ()) ∧
    length (images r3) = length (images store2) ∧
    ∀ j p p', images store2 !! j = Some p → images r3 !! j = Some p' →
      ID (deref (mem r3) p') = ID (deref (mem store2) p) ∧
      Names (deref (mem r3) p') = Names (deref (mem store2) p) ∧
      Digest (deref (mem r3) p') = Digest (deref (mem store2) p) ∧
      Digests (deref (mem r3) p') ≡ₚ Digests (deref (mem store2) p) ∧
      head (Digests (deref (mem r3) p')) = head (Digests (deref (mem store2) p)) ∧
      ReadOnly (deref (mem r3) p')
      = negb (IsReadWrite (lockfile (emptyStore (mkLocker false false)
                                       (imagesjson (Save sys_ok store2).1) ∅ ∅))).
Proof.
  apply (Save_Load_round_trip sys_ok sys_ok (λ _, []) store2 (Save sys_ok store2).1).
  - apply (bool_decide_unpack _). vm_compute. exact I.
  - apply (bool_decide_unpack _). vm_compute. exact I.
  - apply (bool_decide_unpack _). vm_compute. exact I.
  - vm_compute. reflexivity.
  - reflexivity.
  - reflexivity.
  - intros [|[|j]] p Hj; vm_compute in Hj; [injection Hj as <-..|discriminate];
      vm_compute; reflexivity.
Defined.

(** C8 as stated does not hold for every store: [store3] holds the image
    "ccc" with [Digests = [digestC; digestA; digestB]].  Saved and loaded
    back, with the [range] of the recomputation visiting "manifest-arch"
    first, the record has [Digests = [digestC; digestB; digestA]]. *)
Lemma Save_Load_reorders_Digests :
  (Save sys_ok store3).2 = Ok () ∧
  range_of (BigDataDigests (deref (mem store3) 0)) arch_first ∧
  (Load sys_ok (λ _, arch_first) (Save sys_ok store3).1).2 = Ok () ∧
  Digests (deref (mem store3) 0) = [digestC; digestA; digestB] ∧
  Digests (deref (mem (Load sys_ok (λ _, arch_first) (Save sys_ok store3).1).1) 0)
    = [digestC; digestB; digestA].
Proof. split_and!; vm_compute; reflexivity. Qed.

(** Saving is not the identity on strings either: the IDs of the two images
    of [latin1Store] are the bytes 0xE9 and 0xE8, and both are U+FFFD in the
    snapshot.  Loaded back, the two records have the same ID, which is that
    of neither image, and the loaded store is not well-formed. *)
Lemma Save_Load_invalid_UTF8 :
  (Save sys_ok latin1Store).2 = Ok () ∧
  (Load sys_ok (λ _, []) (Save sys_ok latin1Store).1).2 = Ok () ∧
  ID (deref (mem latin1Store) 0) = idE9 ∧
  ID (deref (mem latin1Store) 1) = idE8 ∧
  ID (deref (mem (Load sys_ok (λ _, []) (Save sys_ok latin1Store).1).1) 0)
    = String.string_of_list_ascii replacement_character ∧
  ID (deref (mem (Load sys_ok (λ _, []) (Save sys_ok latin1Store).1).1) 1)
    = String.string_of_list_ascii replacement_character ∧
  store_wf latin1Store ∧
  ¬ store_wf (Load sys_ok (λ _, []) (Save sys_ok latin1Store).1).1.
Proof.
  split_and!; try (vm_compute; reflexivity).
  - apply (bool_decide_unpack _). vm_compute. exact I.
  - apply (bool_decide_unpack _). vm_compute. exact I.
Qed.



(** ** The properties of the other operations at concrete inputs *)

Lemma store2_wf : store_wf store2.
Proof. apply (bool_decide_unpack _). vm_compute. exact I. Defined.

Lemma lookup_spec_witness :
  (∀ p, p ∈ images store2 → lookup store2 (ID (deref (mem store2) p)) = Some p) ∧
  (∀ p n, p ∈ images store2 → n ∈ Names (deref (mem store2) p) →
          (∀ q, q ∈ images store2 → ID (deref (mem store2) q) ≠ n) →
          lookup store2 n = Some p) ∧
  (∀ id p, lookup store2 id = Some p →
           p ∈ images store2 ∧
           (ID (deref (mem store2) p) = id ∨ id ∈ Names (deref (mem store2) p) ∨
            truncindex.Get (idindex store2) id = Some (ID (deref (mem store2) p)))).
Proof. apply (lookup_spec store2). exact store2_wf. Defined.

Lemma Images_Get_witness :
  Images store2
  = Ok [mkImage "aaa" digestA [digestA] ["one"] [] "layer1" [] "" [] ∅ ∅ 7 false ∅;
        mkImage "bbb" "" [] ["aaa"; "two"] [] "layer1" [] "" [] ∅ ∅ 8 false ∅] ∧
  ∀ l, Images store2 = Ok l →
       l = deref (mem store2) <$> images store2 ∧
       (∀ j p, images store2 !! j = Some p → l !! j = Some (deref (mem store2) p)) ∧
       length l = length (images store2) ∧
       NoDup (ID <$> l) ∧
       Forall (λ i, Get store2 (ID i) = Ok i) l.
Proof.
  split; [vm_compute; reflexivity|]. intros l Hl.
  destruct (proj2 (Images_Get store2) l Hl) as (Heq & Hlookup & Hlen & Hwf).
  destruct (Hwf store2_wf) as [Hnd Hget]. repeat split; assumption.
Defined.

Lemma Create_Get_witness :
  ∃ r' res,
    Create sys_ok [] 9 "ddd" ["four"] "layer2" "meta" 0 digestB store2
      = Some (r', (Some image4, res)) ∧
    Get r' "ddd" = Ok image4 ∧
    (∀ n, n ∈ ["four"] → (∀ q, q ∈ images r' → ID (deref (mem r') q) ≠ n) →
          Get r' n = Ok image4) ∧
    (∀ l, Images store2 = Ok l → Images r' = Ok (l ++ [image4])) ∧
    (∀ q, q ∈ images store2 →
          Get r' (ID (deref (mem store2) q)) = Get store2 (ID (deref (mem store2) q))) ∧
    (Locked (lockfile store2) = true → fails sys_ok MkdirStoreDir = false →
     fails sys_ok Marshal = false → fails sys_ok WriteSnapshot = false →
     fails sys_ok Touch = false → res = Ok ()).
Proof.
  apply (Create_Get sys_ok [] 9%Z "ddd" ["four"] "layer2" "meta" 0%Z digestB store2).
  - exact store2_wf.
  - reflexivity.
  - discriminate.
  - vm_compute. reflexivity.
  - intros n Hn. apply list_elem_of_singleton in Hn. rewrite Hn. vm_compute. reflexivity.
  - intros _. vm_compute. reflexivity.
Defined.


Lemma Create_generated_ID_witness :
  ∃ r' o res,
    Create sys_ok ["aaa"; "bbb"; "eee"] 9 "" ["five"] "layer2" "" 0 "" store2
      = Some (r', (o, res)) ∧
    res ≠ Err ErrDuplicateID ∧
    (∀ image, o = Some image →
       ∃ tried rest, ["aaa"; "bbb"; "eee"] = tried ++ ID image :: rest ∧
                     Forall (λ x, is_Some (byid store2 !! x)) tried ∧
                     byid store2 !! ID image = None).
Proof.
  apply (Create_generated_ID sys_ok ["aaa"; "bbb"; "eee"] 9%Z ["five"] "layer2" "" 0%Z ""
           store2).
  apply Exists_exists. exists "eee". split.
  - apply (bool_decide_unpack _). vm_compute. exact I.
  - vm_compute. reflexivity.
Defined.

Lemma store3b_wf : store_wf store3b.
Proof. apply (bool_decide_unpack _). vm_compute. exact I. Defined.

Lemma SetBigData_frame_witness :
  images store3 = images store3b ∧ byid store3 = byid store3b ∧
  byname store3 = byname store3b ∧ idindex store3 = idindex store3b ∧
  (∀ x, lookup store3 x = lookup store3b x) ∧
  (∀ q, lookup store3b "ccc" ≠ Some q → deref (mem store3) q = deref (mem store3b) q) ∧
  (∀ p, lookup store3b "ccc" = Some p →
        bigdata_only "manifest-arch" (deref (mem store3b) p) (deref (mem store3) p)).
Proof.
  apply (SetBigData_frame sys_ok manifest_first "ccc" "manifest-arch" blob2
           (Some (λ _, Ok digestB)) store3b store3 (Ok ())).
  - exact store3b_wf.
  - vm_compute. reflexivity.
Defined.

Lemma SetBigData_BigData_witness :
  ∃ p newDigest names,
    lookup store3b "ccc" = Some p ∧
    newDigest_of "manifest-arch" blob2 (Some (λ _, Ok digestB)) = Ok newDigest ∧
    BigDataSize rd_ok store3 "ccc" "manifest-arch" = Ok (Z.of_nat (length blob2)) ∧
    BigDataDigest store3 "ccc" "manifest-arch" = Ok newDigest ∧
    imageStore_BigDataNames store3 "ccc" = Ok names ∧
    "manifest-arch" ∈ names ∧
    (NoDup (BigDataNames (deref (mem store3b) p)) → NoDup names) ∧
    (read_fails rd_ok (ID (deref (mem store3b) p)) "manifest-arch" = false →
     BigData rd_ok store3 "ccc" "manifest-arch" = Ok blob2).
Proof.
  apply (SetBigData_BigData rd_ok sys_ok manifest_first "ccc" "manifest-arch" blob2
           (Some (λ _, Ok digestB)) store3b store3).
  - exact store3b_wf.
  - vm_compute. reflexivity.
Defined.

Lemma SetMetadata_Metadata_witness :
  ∃ r',
    SetMetadata sys_ok "aaa" "note" store2 = (r', (Save sys_ok store2).2) ∧
    imageStore_Metadata r' "aaa" = Ok "note" ∧
    Get r' "aaa" = Ok (set_Metadata "note" (deref (mem store2) 0)) ∧
    (∀ x q, lookup store2 x = Some q → q ≠ 0 → Get r' x = Get store2 x) ∧
    ((Save sys_ok store2).2 = Ok () → synced r').
Proof.
  apply (SetMetadata_Metadata sys_ok "aaa" "note" store2 0).
  - exact store2_wf.
  - reflexivity.
  - vm_compute. reflexivity.
Defined.

Lemma SetFlag_ClearFlag_witness :
  ∃ r1 r2,
    SetFlag sys_ok "aaa" "pinned" "yes" store2 = (r1, (Save sys_ok store2).2) ∧
    ClearFlag sys_ok "aaa" "pinned" r1 = (r2, (Save sys_ok store2).2) ∧
    Get r1 "aaa"
    = Ok (set_Flags (<["pinned" := "yes"]> (Flags (deref (mem store2) 0)))
            (deref (mem store2) 0)) ∧
    Get r2 "aaa"
    = Ok (set_Flags (delete "pinned" (Flags (deref (mem store2) 0)))
            (deref (mem store2) 0)) ∧
    (Flags (deref (mem store2) 0) !! "pinned" = None → Get r2 "aaa" = Get store2 "aaa") ∧
    (∀ x q, lookup store2 x = Some q → q ≠ 0 →
            Get r1 x = Get store2 x ∧ Get r2 x = Get store2 x).
Proof.
  apply (SetFlag_ClearFlag sys_ok sys_ok "aaa" "pinned" "yes" store2 0).
  - exact store2_wf.
  - reflexivity.
  - vm_compute. reflexivity.
Defined.

Lemma store2_ro_wf : store_wf store2_ro.
Proof. apply (bool_decide_unpack _). vm_compute. exact I. Defined.

Lemma addMappedTopLayer_spec_witness :
  ∃ r',
    addMappedTopLayer sys_ok "aaa" "layer9" store2_ro = (r', (Save sys_ok store2_ro).2) ∧
    Get r' "aaa"
    = Ok (set_MappedTopLayers (MappedTopLayers (deref (mem store2_ro) 0) ++ ["layer9"])
            (deref (mem store2_ro) 0)) ∧
    (∀ x q, lookup store2_ro x = Some q → q ≠ 0 → Get r' x = Get store2_ro x) ∧
    (IsReadWrite (lockfile store2_ro) = false →
     (Save sys_ok store2_ro).2 = Err ErrStoreIsReadOnly).
Proof.
  apply (addMappedTopLayer_spec sys_ok "aaa" "layer9" store2_ro 0).
  - exact store2_ro_wf.
  - vm_compute. reflexivity.
Defined.

Lemma recomputeDigests_succeeds_iff_witness :
  ((∃ i', recomputeDigests arch_first twoManifests = Ok i') ↔
   (Digest twoManifests ≠ "" → Validate (Digest twoManifests) = true) ∧
   (∀ name d, BigDataDigests twoManifests !! name = Some d →
              bigDataNameIsManifest name = true → Validate d = true)) ∧
  (∀ e, recomputeDigests arch_first twoManifests = Err e → e = ErrInvalidDigest).
Proof.
  apply (recomputeDigests_succeeds_iff arch_first twoManifests).
  apply (bool_decide_unpack _). vm_compute. exact I.
Defined.

Lemma recomputeDigests_idempotent_witness :
  recomputeDigests arch_first
    (set_Digests [digestB; digestA] (set_Digest digestB twoManifests))
  = Ok (set_Digests [digestB; digestA] (set_Digest digestB twoManifests)) ∧
  (∀ order', range_of (BigDataDigests twoManifests) arch_first →
     range_of (BigDataDigests twoManifests) order' →
     ∃ i'', recomputeDigests order'
              (set_Digests [digestB; digestA] (set_Digest digestB twoManifests)) = Ok i'' ∧
            Digest i'' = digestB ∧
            Digests i'' ≡ₚ [digestB; digestA] ∧
            head (Digests i'') = Some digestB).
Proof.
  apply (recomputeDigests_idempotent arch_first twoManifests
           (set_Digests [digestB; digestA] (set_Digest digestB twoManifests))).
  vm_compute. reflexivity.
Defined.

Lemma Delete_frame_witness :
  ∃ p, lookup store2 "aaa" = Some p ∧
    images (Delete sys_ok "aaa" store2).1 = filter (λ q, q ≠ p) (images store2) ∧
    mem (Delete sys_ok "aaa" store2).1 = mem store2 ∧
    (∀ q, q ∈ images store2 → q ≠ p →
          byid (Delete sys_ok "aaa" store2).1 !! ID (deref (mem store2) q) = Some q ∧
          ∀ n, n ∈ Names (deref (mem store2) q) →
               byname (Delete sys_ok "aaa" store2).1 !! n = Some q) ∧
    (ID (deref (mem store2) p) ∉ datadirs (Delete sys_ok "aaa" store2).1) ∧
    (∀ k, bigdata (Delete sys_ok "aaa" store2).1 !! (ID (deref (mem store2) p), k) = None).
Proof.
  apply (Delete_frame sys_ok "aaa" store2 (Delete sys_ok "aaa" store2).1).
  - exact store2_wf.
  - vm_compute. reflexivity.
Defined.

Lemma Delete_not_rolled_back_witness :
  (ErrIO = ErrNotLockedForWriting ∨ ErrIO = ErrIO ∨ ErrIO = ErrMarshal) ∧
  (0 ∉ images (Delete sys_no_rmdir "aaa" store2).1) ∧
  images (Delete sys_no_rmdir "aaa" store2).1 = filter (λ q, q ≠ 0) (images store2) ∧
  byid (Delete sys_no_rmdir "aaa" store2).1 !! ID (deref (mem store2) 0) = None ∧
  (∀ n, n ∈ Names (deref (mem store2) 0) →
        byname (Delete sys_no_rmdir "aaa" store2).1 !! n = None).
Proof.
  apply (Delete_not_rolled_back sys_no_rmdir "aaa" store2 0
           (Delete sys_no_rmdir "aaa" store2).1 ErrIO).
  - exact store2_wf.
  - reflexivity.
  - vm_compute. reflexivity.
  - vm_compute. reflexivity.
Defined.

Lemma Wipe_empties_witness :
  ∃ r' res,
    Wipe sys_ok (map_to_list (byid store2)) store2 = (r', res) ∧
    (res = Ok () →
       images r' = [] ∧ byid r' = ∅ ∧ byname r' = ∅ ∧ bydigest r' = ∅ ∧
       Images r' = Ok [] ∧ (∀ x, Get r' x = Err ErrImageUnknown) ∧
       (∀ d, ByDigest r' d = Err ErrImageUnknown)) ∧
    (Locked (lockfile store2) = true → (∀ c, fails sys_ok c = false) → res = Ok ()).
Proof.
  apply (Wipe_empties sys_ok (map_to_list (byid store2)) store2).
  - exact store2_wf.
  - reflexivity.
  - unfold range_of. reflexivity.
Defined.

Lemma Load_unparseable_witness :
  ∃ r',
    Load sys_ok (λ _, []) corruptStore = (r', Ok ()) ∧
    Images r' = Ok (jsonFields <$> [recA]) ∧
    byid r' = ∅ ∧ byname r' = ∅ ∧ bydigest r' = ∅ ∧
    (∀ x, Get r' x = Err ErrImageUnknown) ∧
    (∀ d, ByDigest r' d = Err ErrImageUnknown) ∧
    imagesjson r' = Unparseable [recA].
Proof.
  apply (Load_unparseable sys_ok (λ _, []) corruptStore [recA]).
  - reflexivity.
  - reflexivity.
Defined.

Lemma read_only_unchanged_witness :
  (∀ sys rand now id names layer metadata created searchableDigest,
     Create sys rand now id names layer metadata created searchableDigest store2_ro
     = Some (store2_ro, (None, Err ErrStoreIsReadOnly))) ∧
  (∀ sys id, Delete sys id store2_ro = (store2_ro, Err ErrStoreIsReadOnly)) ∧
  (∀ sys order, Wipe sys order store2_ro = (store2_ro, Err ErrStoreIsReadOnly)) ∧
  (∀ sys id names op,
     updateNames sys id names op store2_ro = (store2_ro, Err ErrStoreIsReadOnly)) ∧
  (∀ sys order id key data digestManifest, key ≠ "" →
     SetBigData sys order id key data digestManifest store2_ro
     = (store2_ro, Err ErrStoreIsReadOnly)) ∧
  (∀ sys id metadata,
     SetMetadata sys id metadata store2_ro = (store2_ro, Err ErrStoreIsReadOnly)) ∧
  (∀ sys id flag value,
     SetFlag sys id flag value store2_ro = (store2_ro, Err ErrStoreIsReadOnly)) ∧
  (∀ sys id flag, ClearFlag sys id flag store2_ro = (store2_ro, Err ErrStoreIsReadOnly)) ∧
  (∀ sys, Save sys store2_ro = (store2_ro, Err ErrStoreIsReadOnly)).
Proof. apply (read_only_unchanged store2_ro). reflexivity. Defined.

Lemma Load_without_conflict_witness :
  ∃ r',
    Load sys_ok (gmap_orders records2)
      (emptyStore (mkLocker false false) (Document records2) ∅ ∅) = (r', Ok ()) ∧
    imagesjson r' = Document records2 ∧
    images r' = seq 0 (length records2) ∧
    (∀ j, j < length records2 →
          ∃ i', recomputeDigests (gmap_orders records2 j) (deref records2 j) = Ok i' ∧
                deref (mem r') j = set_ReadOnly (negb false) i').
Proof.
  apply (Load_without_conflict sys_ok (gmap_orders records2)
           (emptyStore (mkLocker false false) (Document records2) ∅ ∅) records2).
  - reflexivity.
  - reflexivity.
  - intros j Hj. split; [|unfold range_of; reflexivity].
    destruct j as [|[|j]].
    + apply (bool_decide_unpack _). vm_compute. exact I.
    + apply (bool_decide_unpack _). vm_compute. exact I.
    + vm_compute in Hj. lia.
  - intros j j' x Hlt Hx. destruct j as [|j]; [destruct j' as [|[|j']]|].
    + lia.
    + apply list_elem_of_singleton in Hx. rewrite Hx.
      apply (bool_decide_unpack _). vm_compute. exact I.
    + vm_compute in Hlt. lia.
    + vm_compute in Hlt. lia.
Defined.

Lemma newImageStore_ReadOnly_witness :
  IsReadWrite (lockfile store2_ro) = false ∧
  imagesjson store2_ro = imagesjson store2 ∧ datadirs store2_ro = ∅ ∧
  bigdata store2_ro = ∅ ∧
  ∀ p, p ∈ images store2_ro → ReadOnly (deref (mem store2_ro) p) = true.
Proof.
  apply (newImageStore_ReadOnly sys_ok (λ _, []) (imagesjson store2) ∅ ∅ store2_ro).
  - intros partial. vm_compute. discriminate.
  - vm_compute. reflexivity.
Defined.

Lemma store2_current : digest_index_current store2.
Proof. apply (bool_decide_unpack _). vm_compute. exact I. Defined.

(** [store4] is [store2] after a [Create], and [store2_ro] has the list and
    the indices that a [Load] of the snapshot of [store2] installs. *)
Lemma calls_keep_store_wf_witness :
  (store_wf store4 ∧ digest_index_current store4) ∧
  (store_wf (Load sys_ok (λ _, []) store2).1 ∧
   digest_index_current (Load sys_ok (λ _, []) store2).1) ∧
  (store_wf (set_Locked false store2) ∧ digest_index_current (set_Locked false store2)).
Proof.
  destruct (calls_keep_store_wf store2 store2_wf store2_current)
    as (Hcall & Hload & Hlock & _).
  split; [|split].
  - apply (Hcall store4 (Ok ())).
    apply (call_Create sys_ok [] 9%Z "ddd" ["four"] "layer2" "meta" 0%Z digestB store2 store4
             (Some image4) (Ok ())).
    vm_compute. reflexivity.
  - apply (Hload (Load sys_ok (λ _, []) store2).1 (Load sys_ok (λ _, []) store2).2).
    + apply (bool_decide_unpack _). vm_compute. exact I.
    + apply (call_Load sys_ok (λ _, [])).
      * apply (Load_orders_Document store2 (λ _, []) records2); [vm_compute; reflexivity|].
        intros [|[|n]] Hn; [| |vm_compute in Hn; lia];
          unfold range_of; vm_compute; reflexivity.
      * by destruct (Load sys_ok (λ _, []) store2).
  - apply Hlock.
Defined.

Lemma ByDigest_exact_witness :
  (∀ l, ByDigest store2 digestA = Ok l →
        l ≠ [] ∧
        ∀ i, i ∈ l →
             ∃ q, q ∈ images store2 ∧ i = deref (mem store2) q ∧ digestA ∈ Digests i) ∧
  (∀ q, q ∈ images store2 →
        digests_valid (deref (mem store2) q) →
        (digestA ≠ "" ∧ Digest (deref (mem store2) q) = digestA) ∨
        (∃ name, bigDataNameIsManifest name = true ∧
                 BigDataDigests (deref (mem store2) q) !! name = Some digestA) →
        ∃ l, ByDigest store2 digestA = Ok l ∧ deref (mem store2) q ∈ l).
Proof. apply (ByDigest_exact store2 digestA); [exact store2_wf|exact store2_current]. Defined.

Lemma success_is_saved_witness :
  synced store4 ∧
  synced (SetMetadata sys_ok "aaa" "note" store2).1.
Proof.
  destruct (success_is_saved store2) as (Hcreate & _ & Hmeta & _).
  split.
  - apply (Hcreate sys_ok [] 9%Z "ddd" ["four"] "layer2" "meta" 0%Z digestB store4
             (Some image4)).
    vm_compute. reflexivity.
  - apply (Hmeta sys_ok "aaa" "note"). vm_compute. reflexivity.
Defined.

Lemma updateNames_frame_witness :
  ∃ r',
    updateNames sys_ok "aaa" ["two"] addNames store2 = (r', (Save sys_ok store2).2) ∧
    images r' = images store2 ∧ byid r' = byid store2 ∧ bydigest r' = bydigest store2 ∧
    names_only (deref (mem store2) 0) (deref (mem r') 0) ∧
    (∀ q, q ∈ images store2 → q ≠ 0 →
          deref (mem r') q
          = set_Names (filter (λ n, n ∉ ["two"; "one"]) (Names (deref (mem store2) q)))
                      (deref (mem store2) q)) ∧
    (∀ n, byname r' !! n
          = if decide (n ∈ ["two"; "one"]) then Some 0
            else if decide (n ∈ Names (deref (mem store2) 0)) then None
                 else byname store2 !! n).
Proof.
  apply (updateNames_frame sys_ok "aaa" ["two"] addNames store2 0 ["two"; "one"]).
  - exact store2_wf.
  - reflexivity.
  - vm_compute. reflexivity.
  - vm_compute. reflexivity.
Defined.

Lemma store3a_wf : store_wf store3a.
Proof. apply (bool_decide_unpack _). vm_compute. exact I. Defined.

Lemma SetBigData_invalid_digest_witness :
  ∃ r',
    SetBigData sys_ok [("manifest", "bogus")] "ccc" "manifest" blob1
      (Some (λ _, Ok "bogus")) store3a = (r', Err ErrInvalidDigest) ∧
    bigdata r' !! (ID (deref (mem store3a) 0), "manifest") = Some blob1 ∧
    BigDataDigests (deref (mem r') 0) !! "manifest" = Some "bogus" ∧
    Digests (deref (mem r') 0) = Digests (deref (mem store3a) 0) ∧
    (∀ d' l, bydigest r' !! d' = Some l → 0 ∉ l) ∧
    imagesjson r' = imagesjson store3a.
Proof.
  apply (SetBigData_invalid_digest sys_ok [("manifest", "bogus")] "ccc" "manifest" blob1
           (λ _, Ok "bogus") "bogus" store3a 0).
  - exact store3a_wf.
  - reflexivity.
  - vm_compute. reflexivity.
  - vm_compute. reflexivity.
  - reflexivity.
  - vm_compute. reflexivity.
  - apply (bool_decide_unpack _). vm_compute. exact I.
  - reflexivity.
  - reflexivity.
Defined.

Lemma Load_forgets_witness :
  Load sys_ok (λ _, arch_first)
    (emptyStore (lockfile store3) (imagesjson store3) (datadirs store3) (bigdata store3))
  = ((Load sys_ok (λ _, arch_first) store3).1, Ok ()).
Proof.
  apply (Load_forgets sys_ok (λ _, arch_first) store3
           (Load sys_ok (λ _, arch_first) store3).1).
  vm_compute. reflexivity.
Defined.

Lemma BigData_uncached_witness :
  (BigDataSizes (deref (mem store3) 0) !! "config" = None →
   (∀ data, BigData rd_ok store3 "ccc" "config" = Ok data →
            BigDataSize rd_ok store3 "ccc" "config" = Ok (Z.of_nat (length data))) ∧
   (∀ e, BigData rd_ok store3 "ccc" "config" = Err e →
         e = ErrIO ∧ BigDataSize rd_ok store3 "ccc" "config" = Err ErrSizeUnknown)) ∧
  (BigDataDigests (deref (mem store3) 0) !! "config" = None →
   BigDataDigest store3 "ccc" "config" = Err ErrDigestUnknown) ∧
  (∀ size, BigDataSizes (deref (mem store3) 0) !! "config" = Some size →
           BigDataSize rd_ok store3 "ccc" "config" = Ok size).
Proof.
  apply (BigData_uncached rd_ok store3 "ccc" "config" 0).
  - discriminate.
  - vm_compute. reflexivity.
Defined.

Lemma Create_then_Delete_witness :
  images (Delete sys_ok (ID image4) store4).1 = images store2 ∧
  byid (Delete sys_ok (ID image4) store4).1 = byid store2 ∧
  byname (Delete sys_ok (ID image4) store4).1 = byname store2 ∧
  bydigest (Delete sys_ok (ID image4) store4).1 = bydigest store2 ∧
  Images (Delete sys_ok (ID image4) store4).1 = Images store2.
Proof.
  apply (Create_then_Delete sys_ok sys_ok [] 9%Z "ddd" ["four"] "layer2" "meta" 0%Z digestB
           store2 store4 image4 (Ok ()) (Delete sys_ok (ID image4) store4).1).
  - exact store2_wf.
  - vm_compute. reflexivity.
  - vm_compute. reflexivity.
Defined.

Lemma Delete_then_Create_witness :
  ∃ r'' res,
    Create sys_ok [] 9 (ID (deref (mem store2) 1)) (Names (deref (mem store2) 1))
      "layer2" "" 0 digestB (Delete sys_ok "bbb" store2).1
    = Some (r'', (Some (Create_image 9 (ID (deref (mem store2) 1))
                          (Names (deref (mem store2) 1)) "layer2" "" 0 digestB), res)) ∧
    Get r'' (ID (deref (mem store2) 1))
    = Ok (Create_image 9 (ID (deref (mem store2) 1)) (Names (deref (mem store2) 1))
            "layer2" "" 0 digestB).
Proof.
  apply (Delete_then_Create sys_ok sys_ok [] 9%Z "bbb" "layer2" "" 0%Z digestB store2 1
           (Delete sys_ok "bbb" store2).1).
  - exact store2_wf.
  - vm_compute. reflexivity.
  - vm_compute. discriminate.
  - intros _. vm_compute. reflexivity.
  - vm_compute. reflexivity.
Defined.
